(** * rag-chatbot: the chunker and the metadata validator

    A shallow embedding of [rag-pipeline/chunker.py] (class [TextChunker]) and
    of [validate_metadata] from [rag-pipeline/retrieve.py], with the
    properties of the chunking algorithm and of the validator stated and
    proved over it.

    Conventions of the embedding:
    - a Python [str] is a list of characters; characters are the code points
      below 256 ([ascii]), on which [str.isspace], the regular expression
      class [\s] and [str.strip] agree;
    - Python integers are [Z] where the code can receive any integer (the
      configuration, the payload fields) and [nat] where it counts
      ([enumerate], [len]);
    - the [while] loop of [_chunk_section] does not terminate for every
      configuration, so it is modelled with fuel: [None] means that the fuel
      ran out, [Some] is the returned list. *)

From Stdlib Require Import Ascii String DecimalString DecimalNat.
From Stdlib Require Import List Bool Arith ZArith NArith QArith Lia.
From Stdlib Require Import FinFun.
From Stdlib Require Import Sorted.
Import ListNotations.
Close Scope Q_scope.

Set Implicit Arguments.

(* ================================================================== *)
(** ** Python strings *)

Module PyStr.

Definition str := list ascii.

(** A string literal. *)
Definition lit (s : string) : str := list_ascii_of_string s.
Arguments lit s%_string.

Definition NL : ascii := "010"%char.
Definition SP : ascii := " "%char.
Definition HASH : ascii := "#"%char.

(** [str.isspace] on one character (also the class [\s] of [re] on [str]
    patterns, and the characters [str.split()] and [str.strip()] remove):
    code points 9..13, 28..32, 133 and 160. *)
Definition isspace (c : ascii) : bool :=
  let n := N_of_ascii c in
  (((9 <=? n) && (n <=? 13)) || ((28 <=? n) && (n <=? 32))
   || (n =? 133) || (n =? 160))%N.

(** First character of a string is a non-space character. *)
Definition starts_word (s : str) : bool :=
  match s with
  | c :: _ => negb (isspace c)
  | [] => false
  end.

(** Put a character in front of the first word of a word list. *)
Definition cons_word (c : ascii) (ws : list str) : list str :=
  match ws with
  | w :: r => (c :: w) :: r
  | [] => [[c]]
  end.

(** [s.split()]: the maximal runs of non-space characters, in order. *)
Fixpoint split (s : str) : list str :=
  match s with
  | [] => []
  | c :: s' =>
      if isspace c then split s'
      else if starts_word s' then cons_word c (split s')
      else [c] :: split s'
  end.

(** [s.split(sep)] for a one-character separator: never empty. *)
Fixpoint split_on (sep : ascii) (s : str) : list str :=
  match s with
  | [] => [[]]
  | c :: s' =>
      if Ascii.eqb c sep then [] :: split_on sep s'
      else match split_on sep s' with
           | l :: ls => (c :: l) :: ls
           | [] => [[c]]
           end
  end.

(** [sep.join(l)]. *)
Fixpoint join (sep : str) (l : list str) : str :=
  match l with
  | [] => []
  | x :: r =>
      match r with
      | [] => x
      | _ :: _ => x ++ sep ++ join sep r
      end
  end.

Fixpoint lstrip (s : str) : str :=
  match s with
  | c :: s' => if isspace c then lstrip s' else s
  | [] => []
  end.

Definition rstrip (s : str) : str := rev (lstrip (rev s)).

(** [s.strip()]. *)
Definition strip (s : str) : str := rstrip (lstrip s).

(** [s.startswith(p)]. *)
Fixpoint startswith (p s : str) : bool :=
  match p, s with
  | [], _ => true
  | a :: p', b :: s' => Ascii.eqb a b && startswith p' s'
  | _ :: _, [] => false
  end.

(** [p in s]: [p] occurs in [s] as a substring. *)
Fixpoint contains (p s : str) : bool :=
  startswith p s
  || match s with
     | [] => false
     | _ :: s' => contains p s'
     end.

(** Longest prefix whose characters satisfy [p], and the rest. *)
Fixpoint span (p : ascii -> bool) (s : str) : str * str :=
  match s with
  | c :: s' =>
      if p c then let (a, b) := span p s' in (c :: a, b) else ([], s)
  | [] => ([], [])
  end.

(** [l[start:stop]] with Python's treatment of negative and out-of-range
    bounds. *)
Definition py_slice {A : Type} (l : list A) (start stop : Z) : list A :=
  let n := Z.of_nat (length l) in
  let norm := fun i : Z => if (i <? 0)%Z then Z.max (i + n) 0 else Z.min i n in
  let a := norm start in
  let b := norm stop in
  firstn (Z.to_nat (b - a)) (skipn (Z.to_nat a) l).

(** [str(n)] for a non-negative integer: its decimal digits. *)
Definition str_of_nat (n : nat) : str :=
  lit (NilZero.string_of_uint (Nat.to_uint n)).

(** The last [k] and the first [k] elements of a list. *)
Definition last_n {A : Type} (k : nat) (l : list A) : list A :=
  skipn (length l - k) l.

Definition first_n {A : Type} (k : nat) (l : list A) : list A := firstn k l.

(** A word: not empty, no space character. *)
Definition word_ok (w : str) : Prop :=
  w <> [] /\ Forall (fun c => isspace c = false) w.

(** Every character is a space character. *)
Definition all_space (s : str) : Prop := Forall (fun c => isspace c = true) s.

(** The string has two consecutive space characters [' ']. *)
Fixpoint has_double_space (s : str) : bool :=
  match s with
  | c :: r =>
      match r with
      | d :: _ => (Ascii.eqb c SP && Ascii.eqb d SP) || has_double_space r
      | [] => false
      end
  | [] => false
  end.

(** The string has a newline character. *)
Definition has_newline (s : str) : bool := existsb (Ascii.eqb NL) s.

End PyStr.

(* ================================================================== *)
(** ** [hashlib.md5(...).hexdigest()] *)

Module MD5.

Import PyStr.
Local Open Scope N_scope.

Definition mask32 : N := 0xffffffff.

Definition add32 (a b : N) : N := N.land (a + b) mask32.

Definition not32 (a : N) : N := N.lxor a mask32.

Definition rotl32 (x c : N) : N :=
  N.land (N.lor (N.shiftl x c) (N.shiftr x (32 - c))) mask32.

Definition shifts : list N :=
  [7; 12; 17; 22; 7; 12; 17; 22; 7; 12; 17; 22; 7; 12; 17; 22;
   5; 9; 14; 20; 5; 9; 14; 20; 5; 9; 14; 20; 5; 9; 14; 20;
   4; 11; 16; 23; 4; 11; 16; 23; 4; 11; 16; 23; 4; 11; 16; 23;
   6; 10; 15; 21; 6; 10; 15; 21; 6; 10; 15; 21; 6; 10; 15; 21].

Definition sines : list N :=
  [0xd76aa478; 0xe8c7b756; 0x242070db; 0xc1bdceee;
   0xf57c0faf; 0x4787c62a; 0xa8304613; 0xfd469501;
   0x698098d8; 0x8b44f7af; 0xffff5bb1; 0x895cd7be;
   0x6b901122; 0xfd987193; 0xa679438e; 0x49b40821;
   0xf61e2562; 0xc040b340; 0x265e5a51; 0xe9b6c7aa;
   0xd62f105d; 0x02441453; 0xd8a1e681; 0xe7d3fbc8;
   0x21e1cde6; 0xc33707d6; 0xf4d50d87; 0x455a14ed;
   0xa9e3e905; 0xfcefa3f8; 0x676f02d9; 0x8d2a4c8a;
   0xfffa3942; 0x8771f681; 0x6d9d6122; 0xfde5380c;
   0xa4beea44; 0x4bdecfa9; 0xf6bb4b60; 0xbebfbc70;
   0x289b7ec6; 0xeaa127fa; 0xd4ef3085; 0x04881d05;
   0xd9d4d039; 0xe6db99e5; 0x1fa27cf8; 0xc4ac5665;
   0xf4292244; 0x432aff97; 0xab9423a7; 0xfc93a039;
   0x655b59c3; 0x8f0ccc92; 0xffeff47d; 0x85845dd1;
   0x6fa87e4f; 0xfe2ce6e0; 0xa3014314; 0x4e0811a1;
   0xf7537e82; 0xbd3af235; 0x2ad7d2bb; 0xeb86d391].

(** [url.encode()]: UTF-8, for code points below 256. *)
Definition encode (s : str) : list N :=
  flat_map (fun c => let n := N_of_ascii c in
                     if n <? 128 then [n]
                     else [192 + n / 64; 128 + n mod 64]) s.

(** Little-endian bytes of a number, [k] of them. *)
Fixpoint le_bytes (k : nat) (n : N) : list N :=
  match k with
  | O => []
  | S k' => (n mod 256) :: le_bytes k' (n / 256)
  end.

Fixpoint le_word (bs : list N) : N :=
  match bs with
  | [] => 0
  | b :: r => b + 256 * le_word r
  end.

(** The message, the bit 1, zeros up to 56 modulo 64, the bit length. *)
Definition pad (msg : list N) : list N :=
  let len := N.of_nat (length msg) in
  let zeros := (55 + 64 - len mod 64) mod 64 in
  msg ++ [128] ++ repeat 0 (N.to_nat zeros) ++ le_bytes 8 (8 * len).

(** Cut a list into pieces of [k] elements ([fuel] bounds their number). *)
Fixpoint pieces {A : Type} (fuel k : nat) (l : list A) : list (list A) :=
  match fuel, l with
  | _, [] => []
  | O, _ => []
  | S f, _ => firstn k l :: pieces f k (skipn k l)
  end.

Definition state : Type := N * N * N * N.

Definition round (m : list N) (st : state) (i : nat) : state :=
  let '(a, b, c, d) := st in
  let '(f, g) :=
    match Nat.div i 16 with
    | 0%nat => (N.lor (N.land b c) (N.land (not32 b) d), i)
    | 1%nat => (N.lor (N.land d b) (N.land (not32 d) c),
                Nat.modulo (5 * i + 1) 16)
    | 2%nat => (N.lxor (N.lxor b c) d, Nat.modulo (3 * i + 5) 16)
    | _ => (N.lxor c (N.lor b (not32 d)), Nat.modulo (7 * i) 16)
    end in
  let f' := add32 (add32 (add32 f a) (nth i sines 0)) (nth g m 0) in
  (d, add32 b (rotl32 f' (nth i shifts 0)), b, c).

Definition block (st : state) (bytes : list N) : state :=
  let m := map le_word (pieces 16 4 bytes) in
  let '(a0, b0, c0, d0) := st in
  let '(a, b, c, d) := fold_left (round m) (seq 0 64) st in
  (add32 a0 a, add32 b0 b, add32 c0 c, add32 d0 d).

Definition init : state := (0x67452301, 0xefcdab89, 0x98badcfe, 0x10325476).

Definition hexdigit (n : N) : ascii :=
  nth (N.to_nat n) (lit "0123456789abcdef") "0"%char.

(** A character of a hexadecimal digest. *)
Definition is_hex (c : ascii) : bool :=
  existsb (Ascii.eqb c) (lit "0123456789abcdef").

Definition hexbyte (b : N) : str := [hexdigit (b / 16); hexdigit (b mod 16)].

Definition hexword (w : N) : str :=
  let b := le_bytes 4 w in
  hexbyte (nth 0 b 0) ++ hexbyte (nth 1 b 0)
  ++ hexbyte (nth 2 b 0) ++ hexbyte (nth 3 b 0).

(** [hashlib.md5(bytes).hexdigest()]. *)
Definition hexdigest (msg : list N) : str :=
  let p := pad msg in
  let '(a, b, c, d) := fold_left block (pieces (length p) 64 p) init in
  hexword a ++ hexword b ++ hexword c ++ hexword d.

End MD5.

(* ================================================================== *)
(** ** [rag-pipeline/chunker.py]: class [TextChunker] *)

Module Chunker.

Import PyStr.

(** [TextChunker.__init__]: the two attributes, any Python integers. *)
Record Config := {
  chunk_size : Z;
  chunk_overlap : Z
}.

(** [TextChunker()] with the default arguments. *)
Definition default_config : Config :=
  {| chunk_size := 800; chunk_overlap := 100 |}.

(** The document dictionary: ['content'], ['url'] and ['title'] are read
    with [document[...]], ['module'] with [document.get]. *)
Record Document := {
  content : str;
  url : str;
  title : str;
  module : option str
}.

(** An entry of [heading_stack]. *)
Record Heading := {
  level : nat;
  htext : str
}.

(** A section as [_split_by_headings] returns it: ['text'] already joined. *)
Record Section := {
  headings : list str;
  text : str
}.

(** The variables of the scan of [_split_by_headings]: [sections], the
    dictionary [current_section] (its ['text'] still a list of lines) and
    [heading_stack]. *)
Record Scan := {
  sections : list Section;
  cur_headings : list str;
  cur_text : list str;
  heading_stack : list Heading
}.

(** [heading_pattern.match(line)] for [^(#{1,6})\s+(.+)$] on a line without
    a newline (lines come from [text.split('\n')]): groups 1 and 2.  The
    hashes are the whole run of leading hashes, one to six of them; [\s+]
    takes the whole run of spaces after them unless nothing follows, where
    it gives its last character back to [.+]. *)
Definition heading_match (line : str) : option (str * str) :=
  let (hashes, rest) := span (Ascii.eqb HASH) line in
  if (1 <=? length hashes)%nat && (length hashes <=? 6)%nat then
    let (spaces, body) := span isspace rest in
    match spaces, body with
    | [], _ => None
    | _ :: _, _ :: _ => Some (hashes, body)
    | [_], [] => None
    | _ :: _ :: _, [] => Some (hashes, [last spaces SP])
    end
  else None.

(** [if current_section['text']: ... sections.append(current_section)]. *)
Definition save_section (st : Scan) : list Section :=
  match cur_text st with
  | [] => sections st
  | _ :: _ =>
      sections st
      ++ [{| headings := cur_headings st; text := join [NL] (cur_text st) |}]
  end.

(** The update of [heading_stack] at a heading of level [lvl]. *)
Definition push_heading (stack : list Heading) (lvl : nat) (t : str)
  : list Heading :=
  filter (fun h => (level h <? lvl)%nat) stack ++ [{| level := lvl; htext := t |}].

(** One iteration of [for line in lines]. *)
Definition scan_line (st : Scan) (line : str) : Scan :=
  match heading_match line with
  | Some (g1, g2) =>
      let stack := push_heading (heading_stack st) (length g1) (strip g2) in
      {| sections := save_section st;
         cur_headings := map htext stack;
         cur_text := [line];
         heading_stack := stack |}
  | None =>
      {| sections := sections st;
         cur_headings := cur_headings st;
         cur_text := cur_text st ++ [line];
         heading_stack := heading_stack st |}
  end.

(** The levels of a heading stack grow strictly from the outermost entry
    (the first) to the innermost (the last). *)
Definition levels_increasing (stack : list Heading) : Prop :=
  StronglySorted lt (map level stack).

Definition scan_init : Scan :=
  {| sections := []; cur_headings := []; cur_text := []; heading_stack := [] |}.

(** The state of the scan after the lines [ls]. *)
Definition scan (ls : list str) : Scan := fold_left scan_line ls scan_init.

Definition _split_by_headings (t : str) : list Section :=
  save_section (scan (split_on NL t)).

(** A chunk as [_chunk_section] builds it. *)
Record SectionChunk := {
  sc_text : str;
  sc_url : str;
  sc_title : str;
  sc_module : option str;
  sc_heading_hierarchy : str
}.

(** A chunk as [chunk_document] returns it. *)
Record Chunk := {
  c_text : str;
  c_url : str;
  c_title : str;
  c_module : option str;
  heading_hierarchy : str;
  chunk_index : nat;
  total_chunks : nat;
  chunk_id : str
}.

Section WithConfig.

Variable cfg : Config.

(** [' > '.join(headings) if headings else title]. *)
Definition hierarchy (hs : list str) (ttl : str) : str :=
  match hs with
  | [] => ttl
  | _ :: _ => join (lit " > ") hs
  end.

Definition mk_chunk (t : str) (hs : list str) (u ttl : str) (m : option str)
  : SectionChunk :=
  {| sc_text := t; sc_url := u; sc_title := ttl; sc_module := m;
     sc_heading_hierarchy := hierarchy hs ttl |}.

(** The fields that [mk_chunk] fills from its arguments. *)
Definition carries (hs : list str) (u ttl : str) (m : option str)
    (c : SectionChunk) : Prop :=
  sc_url c = u /\ sc_title c = ttl /\ sc_module c = m
  /\ sc_heading_hierarchy c = hierarchy hs ttl.

(** The window of the loop that starts at [start]: [words[start:end]]. *)
Definition window (words : list str) (start : Z) : list str :=
  py_slice words start
           (Z.min (start + chunk_size cfg) (Z.of_nat (length words))).

(** [while start < len(words): ...], one unit of fuel for each iteration. *)
Fixpoint window_loop (fuel : nat) (words : list str) (hs : list str)
    (u ttl : str) (m : option str) (start : Z)
  : option (list SectionChunk) :=
  match fuel with
  | O => None
  | S fuel' =>
      if (start <? Z.of_nat (length words))%Z then
        let c := mk_chunk (join [SP] (window words start)) hs u ttl m in
        let start' := (start + (chunk_size cfg - chunk_overlap cfg))%Z in
        if (start' >=? Z.of_nat (length words))%Z then Some [c]
        else option_map (cons c) (window_loop fuel' words hs u ttl m start')
      else Some []
  end.

Definition _chunk_section (fuel : nat) (t : str) (hs : list str)
    (u ttl : str) (m : option str) : option (list SectionChunk) :=
  let words := split t in
  if (Z.of_nat (length words) <=? chunk_size cfg)%Z then
    Some [mk_chunk t hs u ttl m]
  else window_loop fuel words hs u ttl m 0.

(** [hashlib.md5(url.encode()).hexdigest()[:8]]. *)
Definition _url_to_id (u : str) : str :=
  firstn 8 (MD5.hexdigest (MD5.encode u)).

(** [for section in sections: chunks.extend(self._chunk_section(...))]. *)
Fixpoint chunk_sections (fuel : nat) (secs : list Section)
    (u ttl : str) (m : option str) : option (list SectionChunk) :=
  match secs with
  | [] => Some []
  | s :: r =>
      match _chunk_section fuel (text s) (headings s) u ttl m with
      | None => None
      | Some cs => option_map (app cs) (chunk_sections fuel r u ttl m)
      end
  end.

(** [for idx, chunk in enumerate(chunks): ...]. *)
Definition add_indices (u : str) (chunks : list SectionChunk) : list Chunk :=
  map (fun ic : nat * SectionChunk =>
         let (idx, c) := ic in
         {| c_text := sc_text c; c_url := sc_url c; c_title := sc_title c;
            c_module := sc_module c;
            heading_hierarchy := sc_heading_hierarchy c;
            chunk_index := idx;
            total_chunks := length chunks;
            chunk_id := _url_to_id u ++ lit "_" ++ str_of_nat idx |})
      (combine (seq 0 (length chunks)) chunks).

Definition chunk_document (fuel : nat) (d : Document) : option (list Chunk) :=
  option_map (add_indices (url d))
    (chunk_sections fuel (_split_by_headings (content d))
                    (url d) (title d) (module d)).

(** [for document in documents: all_chunks.extend(self.chunk_document(...))]. *)
Fixpoint chunk_all_documents (fuel : nat) (documents : list Document)
  : option (list Chunk) :=
  match documents with
  | [] => Some []
  | d :: r =>
      match chunk_document fuel d with
      | None => None
      | Some cs => option_map (app cs) (chunk_all_documents fuel r)
      end
  end.

End WithConfig.

End Chunker.

(* ================================================================== *)
(** ** [rag-pipeline/retrieve.py]: [validate_metadata] *)

Module Retrieve.

Import PyStr.

(** A Python number as far as comparisons see it: a finite float or integer
    is the rational it denotes, and comparing involves no rounding. *)
Inductive number :=
| Finite (q : Q)
| PosInf
| NegInf
| NaN.

(** [a <= b]. *)
Definition num_le (a b : number) : bool :=
  match a, b with
  | NaN, _ => false
  | _, NaN => false
  | NegInf, _ => true
  | _, PosInf => true
  | Finite x, Finite y => Qle_bool x y
  | PosInf, _ => false
  | Finite _, NegInf => false
  end.

(** [a < b]. *)
Definition num_lt (a b : number) : bool :=
  match a, b with
  | NaN, _ => false
  | _, NaN => false
  | PosInf, _ => false
  | _, NegInf => false
  | NegInf, _ => true
  | _, PosInf => true
  | Finite x, Finite y => negb (Qle_bool y x)
  end.

(** The values that a key of a record holds: [None], a string, an integer
    or a float.  (Booleans and containers are left out.) *)
Inductive pyval :=
| PNone
| PStr (s : str)
| PInt (z : Z)
| PFloat (x : number).

(** The exceptions that the checks can raise. *)
Inductive pyerror :=
| AttributeError
| TypeError.

(** What a piece of code does: it returns a value or raises. *)
Inductive outcome (A : Type) : Type :=
| Ok (a : A)
| Raise (e : pyerror).

Arguments Ok {A} a.
Arguments Raise {A} e.

Definition bind {A B : Type} (o : outcome A) (f : A -> outcome B)
  : outcome B :=
  match o with
  | Ok a => f a
  | Raise e => Raise e
  end.

(** A retrieved chunk, as far as [validate_metadata] reads it: a dictionary
    with the keys below, where [None] is a key that is absent and
    [Some PNone] a key whose value is [None]. *)
Record Result := {
  text : option pyval;
  url : option pyval;
  title : option pyval;
  chunk_id : option pyval;
  chunk_index : option pyval;
  total_chunks : option pyval;
  score : option pyval
}.

(** [chunk.get(key)] and [chunk.get(key, default)]. *)
Definition get (f : option pyval) : pyval :=
  match f with
  | Some v => v
  | None => PNone
  end.

Definition get_default (f : option pyval) (default : pyval) : pyval :=
  match f with
  | Some v => v
  | None => default
  end.

(** The truth value [bool(v)]. *)
Definition truthy (v : pyval) : bool :=
  match v with
  | PNone => false
  | PStr s => negb (Nat.eqb (length s) 0)
  | PInt z => negb (z =? 0)%Z
  | PFloat (Finite q) => negb (Qeq_bool q 0)
  | PFloat _ => true
  end.

(** The number that a comparison with a number sees: comparing a number
    with [None] or with a string raises [TypeError]. *)
Definition as_number (v : pyval) : option number :=
  match v with
  | PInt z => Some (Finite (inject_Z z))
  | PFloat x => Some x
  | _ => None
  end.

(** The messages appended to [chunk_issues], by kind and arguments. *)
Inductive Issue :=
| MissingOrEmpty (field : str)
| InvalidURLFormat (u : str)
| InvalidChunkIndex (idx total : pyval)
| ScoreOutOfRange (s : pyval).

(** An element of [validation_results['issues']]. *)
Record IssueEntry := {
  ie_chunk_index : nat;
  ie_chunk_id : pyval;
  ie_issues : list Issue
}.

Record ValidationResults := {
  v_total_chunks : nat;
  passed : nat;
  failed : nat;
  issues : list IssueEntry
}.

(** [for field in required_fields: if not chunk.get(field): ...]. *)
Definition required_issues (r : Result) : list Issue :=
  flat_map (fun fv : str * option pyval =>
              if truthy (get (snd fv)) then [] else [MissingOrEmpty (fst fv)])
           [(lit "text", text r); (lit "url", url r);
            (lit "title", title r); (lit "chunk_id", chunk_id r)].

(** [url = chunk.get('url', '')], then
    [if url and not (url.startswith(...) or url.startswith(...))]: a value
    that is false is not asked for [startswith]; a number that is true has
    no such attribute. *)
Definition url_issues (r : Result) : outcome (list Issue) :=
  match get_default (url r) (PStr []) with
  | PNone => Ok []
  | PStr u =>
      if truthy (PStr u)
         && negb (startswith (lit "http://") u || startswith (lit "https://") u)
      then Ok [InvalidURLFormat u] else Ok []
  | (PInt _ | PFloat _) as v =>
      if truthy v then Raise AttributeError else Ok []
  end.

(** [if chunk_index is not None and total_chunks is not None:
       if not (0 <= chunk_index < total_chunks): ...]: the chained comparison
    evaluates [0 <= chunk_index] first and [chunk_index < total_chunks] only
    when the first holds. *)
Definition index_issues (r : Result) : outcome (list Issue) :=
  match get (chunk_index r), get (total_chunks r) with
  | PNone, _ => Ok []
  | _, PNone => Ok []
  | ci, tc =>
      match as_number ci with
      | None => Raise TypeError
      | Some a =>
          if num_le (Finite 0) a then
            match as_number tc with
            | None => Raise TypeError
            | Some b =>
                if num_lt a b then Ok [] else Ok [InvalidChunkIndex ci tc]
            end
          else Ok [InvalidChunkIndex ci tc]
      end
  end.

(** [chunk.get('score', 0)]. *)
Definition score_of (r : Result) : pyval := get_default (score r) (PInt 0).

(** [if not (0.0 <= score <= 1.0)]. *)
Definition score_issues (r : Result) : outcome (list Issue) :=
  match as_number (score_of r) with
  | None => Raise TypeError
  | Some x =>
      if num_le (Finite 0) x && num_le x (Finite 1)
      then Ok [] else Ok [ScoreOutOfRange (score_of r)]
  end.

(** The list [chunk_issues] at the end of one iteration, when no check
    raises. *)
Definition chunk_issues (r : Result) : outcome (list Issue) :=
  bind (url_issues r) (fun u =>
  bind (index_issues r) (fun i =>
  bind (score_issues r) (fun s =>
  Ok (required_issues r ++ u ++ i ++ s)))).

(** [chunk.get('chunk_id', 'unknown')]: the default is for an absent key
    only, a stored [None] is returned as it is. *)
Definition id_or_unknown (r : Result) : pyval :=
  get_default (chunk_id r) (PStr (lit "unknown")).

(** One iteration of [for i, chunk in enumerate(chunks)]. *)
Definition validate_one (v : ValidationResults) (ir : nat * Result)
  : outcome ValidationResults :=
  let (i, r) := ir in
  bind (chunk_issues r) (fun found =>
  match found with
  | [] =>
      Ok {| v_total_chunks := v_total_chunks v; passed := passed v + 1;
            failed := failed v; issues := issues v |}
  | _ :: _ =>
      Ok {| v_total_chunks := v_total_chunks v; passed := passed v;
            failed := failed v + 1;
            issues := issues v
                      ++ [{| ie_chunk_index := i;
                             ie_chunk_id := id_or_unknown r;
                             ie_issues := found |}] |}
  end).

(** The loop: an exception in one iteration leaves the function. *)
Fixpoint validate_loop (l : list (nat * Result)) (v : ValidationResults)
  : outcome ValidationResults :=
  match l with
  | [] => Ok v
  | ir :: l' => bind (validate_one v ir) (validate_loop l')
  end.

Definition validate_metadata (chunks : list Result)
  : outcome ValidationResults :=
  validate_loop (combine (seq 0 (length chunks)) chunks)
                {| v_total_chunks := length chunks; passed := 0; failed := 0;
                   issues := [] |}.

(** The types of the data model: text, url, title and chunk_id are strings,
    chunk_index and total_chunks are integers, each of them possibly absent
    or [None]; the score is a number, possibly absent. *)
Definition str_or_none (v : option pyval) : bool :=
  match v with
  | None | Some PNone | Some (PStr _) => true
  | _ => false
  end.

Definition int_or_none (v : option pyval) : bool :=
  match v with
  | None | Some PNone | Some (PInt _) => true
  | _ => false
  end.

Definition number_or_absent (v : option pyval) : bool :=
  match v with
  | None | Some (PInt _) | Some (PFloat _) => true
  | _ => false
  end.

Definition well_typed (r : Result) : bool :=
  str_or_none (text r) && str_or_none (url r) && str_or_none (title r)
  && str_or_none (chunk_id r)
  && int_or_none (chunk_index r) && int_or_none (total_chunks r)
  && number_or_absent (score r).

(** The conditions of a well-formed record, as the specification lists
    them. *)
Definition present_nonempty (v : option pyval) : bool :=
  match v with
  | Some (PStr s) => negb (Nat.eqb (length s) 0)
  | _ => false
  end.

Definition url_scheme_ok (r : Result) : bool :=
  match url r with
  | Some (PStr u) =>
      if Nat.eqb (length u) 0 then true
      else startswith (lit "http://") u || startswith (lit "https://") u
  | _ => true
  end.

Definition index_in_range (r : Result) : bool :=
  match chunk_index r, total_chunks r with
  | Some (PInt i), Some (PInt t) => (0 <=? i)%Z && (i <? t)%Z
  | _, _ => true
  end.

(** The score of a record without one reads as 0. *)
Definition score_in_range (r : Result) : bool :=
  match as_number (score_of r) with
  | Some x => num_le (Finite 0) x && num_le x (Finite 1)
  | None => false
  end.

(** Well-formed apart from the position fields. *)
Definition others_ok (r : Result) : bool :=
  present_nonempty (text r) && present_nonempty (url r)
  && present_nonempty (title r) && present_nonempty (chunk_id r)
  && url_scheme_ok r && score_in_range r.

Definition spec_well_formed (r : Result) : bool :=
  others_ok r && index_in_range r.

(** The entry that a record at position [i] adds to the list of issues:
    none when the record has no issue. *)
Definition entry_of (ir : nat * Result) : list IssueEntry :=
  match chunk_issues (snd ir) with
  | Ok (x :: found) =>
      [{| ie_chunk_index := fst ir; ie_chunk_id := id_or_unknown (snd ir);
          ie_issues := x :: found |}]
  | _ => []
  end.

(** A well-formed record with a score of one half. *)
Definition sample_result (i t : option pyval) : Result :=
  {| text := Some (PStr (lit "some text"));
     url := Some (PStr (lit "https://x/a"));
     title := Some (PStr (lit "A"));
     chunk_id := Some (PStr (lit "3a1b40c4_0"));
     chunk_index := i; total_chunks := t;
     score := Some (PFloat (Finite (1 # 2))) |}.

(** Records whose payload does not have the types of the data model: a
    number as url, a string as chunk_index, [None] as score. *)
Definition sample_url_7 : Result :=
  {| text := Some (PStr (lit "some text")); url := Some (PInt 7);
     title := Some (PStr (lit "A"));
     chunk_id := Some (PStr (lit "3a1b40c4_0"));
     chunk_index := Some (PInt 0); total_chunks := Some (PInt 3);
     score := Some (PFloat (Finite (1 # 2))) |}.

Definition sample_index_str : Result :=
  {| text := Some (PStr (lit "some text"));
     url := Some (PStr (lit "https://x/a"));
     title := Some (PStr (lit "A"));
     chunk_id := Some (PStr (lit "3a1b40c4_0"));
     chunk_index := Some (PStr (lit "5")); total_chunks := Some (PInt 3);
     score := Some (PFloat (Finite (1 # 2))) |}.

Definition sample_score_none : Result :=
  {| text := Some (PStr (lit "some text"));
     url := Some (PStr (lit "https://x/a"));
     title := Some (PStr (lit "A"));
     chunk_id := Some (PStr (lit "3a1b40c4_0"));
     chunk_index := Some (PInt 0); total_chunks := Some (PInt 3);
     score := Some PNone |}.

(** A well-formed record but for its chunk_id, stored as [None]. *)
Definition sample_id_none : Result :=
  {| text := Some (PStr (lit "some text"));
     url := Some (PStr (lit "https://x/a"));
     title := Some (PStr (lit "A"));
     chunk_id := Some PNone;
     chunk_index := Some (PInt 0); total_chunks := Some (PInt 3);
     score := Some (PFloat (Finite (1 # 2))) |}.

End Retrieve.

(* ================================================================== *)
(** ** [rag-pipeline/retrieve.py]: [validate_content_quality] *)

Module Quality.

Import PyStr.

(** A retrieved chunk as [validate_content_quality] reads it:
    [chunk.get('text', '')] and [chunk.get('chunk_id', 'unknown')], where
    [None] is an absent key and a key that is present holds a string.  (A
    text that is present with the value [None] is not covered: the code
    raises on [pattern in text] there.) *)
Record QChunk := {
  q_text : option str;
  q_chunk_id : option str
}.

Definition html_patterns : list str :=
  [lit "<"; lit ">"; lit "&lt;"; lit "&gt;";
   lit "class="; lit "id="; lit "href="; lit "src="].

(** ['Next »', '« Previous', ...]: the two angle quotation marks are the
    code points 187 and 171. *)
Definition ui_patterns : list str :=
  [lit "Next " ++ ["187"%char]; ["171"%char] ++ lit " Previous";
   lit "Edit this page"; lit "Table of Contents"; lit "Skip to content"].

(** The messages appended to [chunk_issues], by kind and argument. *)
Inductive QIssue :=
| HtmlArtifact (pattern : str)
| UiText (pattern : str)
| ExcessiveWhitespace
| EmptyText.

(** [for pattern in patterns: if pattern in text: ...; break]: the first
    pattern of the list that occurs in the text. *)
Definition first_match (patterns : list str) (t : str) : option str :=
  find (fun p => contains p t) patterns.

Definition text_of (c : QChunk) : str :=
  match q_text c with
  | Some t => t
  | None => []
  end.

(** The list [chunk_issues] at the end of one iteration. *)
Definition quality_issues (t : str) : list QIssue :=
  (match first_match html_patterns t with
   | Some p => [HtmlArtifact p]
   | None => []
   end)
  ++ (match first_match ui_patterns t with
      | Some p => [UiText p]
      | None => []
      end)
  ++ (if contains (lit "   ") t || contains [NL; NL; NL] t
      then [ExcessiveWhitespace] else [])
  ++ (match strip t with
      | [] => [EmptyText]
      | _ :: _ => []
      end).

(** [text[:100] + '...' if len(text) > 100 else text]. *)
Definition text_preview (t : str) : str :=
  if (100 <? length t)%nat then firstn 100 t ++ lit "..." else t.

(** An element of [quality_results['issues']]. *)
Record QEntry := {
  qe_chunk_index : nat;
  qe_chunk_id : str;
  qe_issues : list QIssue;
  qe_text_preview : str
}.

Record QualityResults := {
  q_total_chunks : nat;
  clean : nat;
  has_issues : nat;
  q_issues : list QEntry
}.

(** One iteration of [for i, chunk in enumerate(chunks)]. *)
Definition quality_one (v : QualityResults) (ic : nat * QChunk)
  : QualityResults :=
  let (i, c) := ic in
  let t := text_of c in
  match quality_issues t with
  | [] =>
      {| q_total_chunks := q_total_chunks v; clean := clean v + 1;
         has_issues := has_issues v; q_issues := q_issues v |}
  | _ :: _ =>
      {| q_total_chunks := q_total_chunks v; clean := clean v;
         has_issues := has_issues v + 1;
         q_issues :=
           q_issues v
           ++ [{| qe_chunk_index := i;
                  qe_chunk_id := match q_chunk_id c with
                                 | Some i => i
                                 | None => lit "unknown"
                                 end;
                  qe_issues := quality_issues t;
                  qe_text_preview := text_preview t |}] |}
  end.

Definition validate_content_quality (chunks : list QChunk) : QualityResults :=
  fold_left quality_one
            (combine (seq 0 (length chunks)) chunks)
            {| q_total_chunks := length chunks; clean := 0; has_issues := 0;
               q_issues := [] |}.

(** The entry that a chunk at position [i] adds to the list of issues:
    none when the chunk has no issue. *)
Definition qentry_of (ic : nat * QChunk) : list QEntry :=
  match quality_issues (text_of (snd ic)) with
  | [] => []
  | _ :: _ =>
      [{| qe_chunk_index := fst ic;
          qe_chunk_id := match q_chunk_id (snd ic) with
                         | Some i => i
                         | None => lit "unknown"
                         end;
          qe_issues := quality_issues (text_of (snd ic));
          qe_text_preview := text_preview (text_of (snd ic)) |}]
  end.

End Quality.

(* ================================================================== *)
(** ** [rag-pipeline/embedder.py] and the batches of
       [rag-pipeline/vector_store.py] *)

Module Embedder.

Import PyStr.

(** [range(0, stop, step)] for [stop >= 0]: [None] is the [ValueError] of a
    zero step; a negative step gives the empty range. *)
Definition range0 (stop step : Z) : option (list Z) :=
  if (step =? 0)%Z then None
  else if (step <? 0)%Z then Some []
  else Some (map (fun k => (Z.of_nat k * step)%Z)
                 (seq 0 (Z.to_nat ((stop + step - 1) / step)))).

(** The slices [l[i:i + size]] for [i in range(0, len(l), size)]. *)
Definition batches {A : Type} (size : Z) (l : list A) : option (list (list A)) :=
  option_map (map (fun i => py_slice l i (i + size)))
             (range0 (Z.of_nat (length l)) size).

(** [CohereEmbedder.get_embedding_dimension]: [api] is the length of the
    test embedding that the service returns, [None] when the call raises. *)
Definition get_embedding_dimension (model : str) (api : option nat)
  : option nat :=
  if contains (lit "v3.0") model then Some 1024
  else if contains (lit "light-v3.0") model then Some 384
  else api.

Section WithVec.

(** An embedding vector; its numbers play no part below. *)
Variable Vec : Type.

(** A chunk dictionary with its ['embedding'] key: [None] is an absent key
    or the value [None], which [c.get('embedding')] does not tell apart. *)
Record EChunk := {
  e_chunk : Chunker.Chunk;
  e_embedding : option Vec
}.

(** The embedding service: the answer to the call number [k] on a list of
    texts, [None] when the call raises. *)
Variable embed : nat -> list str -> option (list Vec).

(** [for chunk, embedding in zip(batch, response.embeddings):
       chunk['embedding'] = embedding]. *)
Fixpoint zip_assign (batch : list EChunk) (embs : list Vec) : list EChunk :=
  match batch, embs with
  | c :: cs, e :: es =>
      {| e_chunk := e_chunk c; e_embedding := Some e |} :: zip_assign cs es
  | _, _ => batch
  end.

(** The dictionaries of a batch after its iteration: the call number is
    [k]; after a failed call the chunks without embedding get [None]. *)
Definition embed_batch (k : nat) (batch : list EChunk) : list EChunk :=
  match embed k (map (fun c => Chunker.c_text (e_chunk c)) batch) with
  | Some embs => zip_assign batch embs
  | None => batch
  end.

(** The iterations of the loop over the batches, from call number [k]. *)
Fixpoint embed_batches (k : nat) (bs : list (list EChunk)) : list EChunk :=
  match bs with
  | [] => []
  | b :: r => embed_batch k b ++ embed_batches (S k) r
  end.

Definition has_embedding (c : EChunk) : bool :=
  match e_embedding c with
  | Some _ => true
  | None => false
  end.

(** [embed_chunks]: the chunks are distinct dictionaries, each in one batch;
    a chunk outside every batch (negative [batch_size]) is left as it is.
    [None] is the [ValueError] of [range] for [batch_size = 0]. *)
Definition embed_chunks (batch_size : Z) (chunks : list EChunk)
  : option (list EChunk) :=
  match batches batch_size chunks with
  | None => None
  | Some bs =>
      Some (filter has_embedding
                   (if (batch_size <? 0)%Z then chunks
                    else embed_batches 0 bs))
  end.

(** A point of the vector store: the payload holds the eight fields of the
    chunk. *)
Record Point := {
  p_id : str;
  p_vector : Vec;
  p_payload : Chunker.Chunk
}.

(** [str(uuid.uuid4())] at its call number [k]. *)
Variable uuid4 : nat -> str.

(** The first loop of [insert_chunks]: a point for every chunk that has an
    embedding, the others are skipped. *)
Fixpoint make_points (k : nat) (chunks : list EChunk) : list Point :=
  match chunks with
  | [] => []
  | c :: r =>
      match e_embedding c with
      | None => make_points k r
      | Some v =>
          {| p_id := uuid4 k; p_vector := v; p_payload := e_chunk c |}
          :: make_points (S k) r
      end
  end.

(** [self.client.upsert] at its call number [k]: [false] when it raises. *)
Variable upsert_ok : nat -> list Point -> bool.

(** The second loop of [insert_chunks]: the batches that the store has
    taken; the error of a batch is logged and the loop goes on. *)
Fixpoint upload (k : nat) (bs : list (list Point)) : list (list Point) :=
  match bs with
  | [] => []
  | b :: r => (if upsert_ok k b then [b] else []) ++ upload (S k) r
  end.

(** [insert_chunks], by the batches that reached the store; [None] is the
    [ValueError] of [range] for [batch_size = 0]. *)
Definition insert_chunks (batch_size : Z) (chunks : list EChunk)
  : option (list (list Point)) :=
  option_map (upload 0) (batches batch_size (make_points 0 chunks)).

End WithVec.

(** [l1] is [l2] with some elements left out. *)
Inductive subseq {A : Type} : list A -> list A -> Prop :=
| subseq_nil : subseq [] []
| subseq_keep (x : A) (l1 l2 : list A) :
    subseq l1 l2 -> subseq (x :: l1) (x :: l2)
| subseq_skip (x : A) (l1 l2 : list A) :
    subseq l1 l2 -> subseq l1 (x :: l2).

End Embedder.

(* ================================================================== *)
(** ** [rag-pipeline/retrieve.py]: the records of [retrieve_chunks] *)

Module Formatting.

Import PyStr.

(** The loop [for result in results] of [retrieve_chunks] on one search
    result whose payload is the payload that [insert_chunks] stored for a
    chunk: every key of the payload is present, so no default is used. *)
Definition result_of (score : Retrieve.number) (payload : Chunker.Chunk)
  : Retrieve.Result :=
  {| Retrieve.text := Some (Retrieve.PStr (Chunker.c_text payload));
     Retrieve.url := Some (Retrieve.PStr (Chunker.c_url payload));
     Retrieve.title := Some (Retrieve.PStr (Chunker.c_title payload));
     Retrieve.chunk_id := Some (Retrieve.PStr (Chunker.chunk_id payload));
     Retrieve.chunk_index :=
       Some (Retrieve.PInt (Z.of_nat (Chunker.chunk_index payload)));
     Retrieve.total_chunks :=
       Some (Retrieve.PInt (Z.of_nat (Chunker.total_chunks payload)));
     Retrieve.score := Some (Retrieve.PFloat score) |}.

End Formatting.

(* ================================================================== *)
(** ** [rag-pipeline/crawler.py]: the cleaning of the page text *)

Module Crawler.

Import PyStr.

(** The end of [_extract_main_content]:
    [lines = [line.strip() for line in text.split('\n')]],
    [lines = [line for line in lines if line]], ['\n'.join(lines)]. *)
Definition clean_lines (t : str) : list str :=
  filter (fun l => negb (Nat.eqb (length l) 0)) (map strip (split_on NL t)).

Definition clean_text (t : str) : str := join [NL] (clean_lines t).

(** A line of the cleaned text: not empty, stripped, without newline. *)
Definition clean_line (l : str) : Prop :=
  l <> [] /\ strip l = l /\ ~ In NL l.

(** [_extract_main_content], given what the HTML library finds:
    [element_text] is the text of the content element, [None] when the page
    has no content element at all. *)
Definition _extract_main_content (element_text : option str) : str :=
  match element_text with
  | None => []
  | Some t => clean_text t
  end.

End Crawler.

(* ================================================================== *)
(** ** Sample inputs *)

Module Samples.

Import PyStr Chunker.

(** The list an [option] holds, empty for [None]. *)
Definition chunks_of {A : Type} (o : option (list A)) : list A :=
  match o with
  | Some l => l
  | None => []
  end.

(** An introduction and two nested headings. *)
Definition doc_nested : Document :=
  {| content := lit "intro" ++ [NL] ++ lit "# A" ++ [NL] ++ lit "## B";
     url := lit "https://x/a"; title := lit "A"; module := None |}.

(** A second document, under another url. *)
Definition doc_other : Document :=
  {| content := lit "# Other" ++ [NL] ++ lit "text";
     url := lit "https://x/b"; title := lit "B"; module := None |}.

(** Two top-level headings, four words in all. *)
Definition doc_two_headings : Document :=
  {| content := lit "# A" ++ [NL] ++ lit "# B";
     url := lit "https://x/a"; title := lit "A"; module := None |}.

(** A document with empty content. *)
Definition doc_empty : Document :=
  {| content := []; url := lit "https://x/a"; title := lit "A";
     module := None |}.

(** The heading line [# Intro], then [word] a thousand times. *)
Definition doc_intro : Document :=
  {| content := lit "# Intro" ++ [NL] ++ concat (repeat (lit "word ") 1000);
     url := lit "https://x/a"; title := lit "A"; module := None |}.

(** The words of the section of [doc_intro]: the two words of the heading
    line, then the thousand words. *)
Definition intro_stream : list str :=
  lit "#" :: lit "Intro" :: repeat (lit "word") 1000.

(** The chunks of [doc_intro] under the default configuration. *)
Definition intro_chunks : list Chunk :=
  chunks_of (chunk_document default_config 2 doc_intro).

(** The three chunks of [doc_nested], without embeddings. *)
Definition sample_echunks : list (Embedder.EChunk nat) :=
  map (fun c => {| Embedder.e_chunk := c; Embedder.e_embedding := None |})
      (chunks_of (chunk_document default_config 1 doc_nested)).

(** An embedding service whose second call fails; the "vector" of a text
    is its length. *)
Definition sample_embed (k : nat) (texts : list str) : option (list nat) :=
  if Nat.eqb k 1 then None else Some (map (@length ascii) texts).

(** A document as the crawler builds it from a page text. *)
Definition doc_crawled : Document :=
  {| content := Crawler._extract_main_content
                  (Some (lit "  Title " ++ [NL; NL] ++ lit " some text"));
     url := lit "https://x/c"; title := lit "Title"; module := None |}.

(** Windows of three words that overlap by two. *)
Definition cfg_3_2 : Config := {| chunk_size := 3; chunk_overlap := 2 |}.

End Samples.

Import PyStr.

Example md5_empty : MD5.hexdigest (MD5.encode (lit "")) = lit "d41d8cd98f00b204e9800998ecf8427e".
Proof. vm_compute. reflexivity. Qed.

Example md5_abc : MD5.hexdigest (MD5.encode (lit "abc")) = lit "900150983cd24fb0d6963f7d28e17f72".
Proof. vm_compute. reflexivity. Qed.

Example md5_url : MD5.hexdigest (MD5.encode (lit "https://x/a")) = lit "3a1b40c4e355413d36e35a7d1cd47a90".
Proof. vm_compute. reflexivity. Qed.

Example md5_long : MD5.hexdigest (MD5.encode (repeat "a"%char 100)) = lit "36a92cc94a9e0fa21f625f8bfb007adf".
Proof. vm_compute. reflexivity. Qed.

Example md5_latin : MD5.hexdigest (MD5.encode ["233"%char]) = lit "66ddcd97cfdeabb2f6fb8a999b4bc76f".
Proof. vm_compute. reflexivity. Qed.

Example split_ex : split (lit "  a b" ++ [NL] ++ lit "cd  ") = [lit "a"; lit "b"; lit "cd"].
Proof. reflexivity. Qed.

(* ================================================================== *)
(** ** Facts about the string operations *)

Unset Implicit Arguments.

Section StrFacts.

Lemma split_starts_word (s : str) : starts_word s = true -> split s <> [].
Proof.
  destruct s as [|c s]; simpl; [discriminate|].
  intros H. apply negb_true_iff in H. rewrite H.
  destruct (starts_word s); [destruct (split s)|]; discriminate.
Qed.

Lemma cons_word_app (c : ascii) (l1 l2 : list str) :
  l1 <> [] -> cons_word c (l1 ++ l2) = cons_word c l1 ++ l2.
Proof. destruct l1; [congruence | reflexivity]. Qed.

(** Splitting at a space character splits the word list. *)
Lemma split_app_space (a b : str) (c : ascii) :
  isspace c = true -> split (a ++ c :: b) = split a ++ split b.
Proof.
  intros Hc. induction a as [|x a IH]; simpl.
  - now rewrite Hc.
  - destruct (isspace x) eqn:Hx; [exact IH|].
    destruct a as [|y a].
    + simpl. now rewrite Hc.
    + change (starts_word ((y :: a) ++ c :: b)) with (starts_word (y :: a)).
      destruct (starts_word (y :: a)) eqn:Hy.
      * rewrite IH. apply cons_word_app. now apply split_starts_word.
      * now rewrite IH.
Qed.

Lemma split_app_nil_space (a : str) (c : ascii) :
  isspace c = true -> split (a ++ [c]) = split a.
Proof. intros H. rewrite split_app_space by exact H. apply app_nil_r. Qed.

Lemma split_words_ok (s : str) : Forall word_ok (split s).
Proof.
  induction s as [|c s IH]; simpl; [constructor|].
  destruct (isspace c) eqn:Hc; [exact IH|].
  destruct (starts_word s).
  - destruct (split s) as [|w r]; simpl.
    + repeat constructor; [discriminate | exact Hc].
    + inversion IH as [|? ? [_ Hw] Hr]; subst.
      constructor; [split; [discriminate | now constructor] | exact Hr].
  - constructor; [split; [discriminate | now repeat constructor] | exact IH].
Qed.

(** There are no more words than characters. *)
Lemma split_length (s : str) : length (split s) <= length s.
Proof.
  induction s as [|c s IH]; simpl; [lia|].
  destruct (isspace c); [lia|].
  destruct (starts_word s); [|simpl; lia].
  destruct (split s); simpl in *; lia.
Qed.

Lemma split_on_not_nil (sep : ascii) (s : str) : split_on sep s <> [].
Proof.
  destruct s as [|c s]; simpl; [discriminate|].
  destruct (Ascii.eqb c sep); [discriminate|].
  destruct (split_on sep s); discriminate.
Qed.

(** [sep.join(s.split(sep)) == s]. *)
Lemma join_split_on (sep : ascii) (s : str) : join [sep] (split_on sep s) = s.
Proof.
  induction s as [|c s IH]; [reflexivity|].
  simpl split_on. destruct (Ascii.eqb_spec c sep) as [->|Hne].
  - pose proof (split_on_not_nil sep s) as Hn.
    destruct (split_on sep s) as [|l ls] eqn:E; [congruence|].
    simpl in *. now rewrite IH.
  - pose proof (split_on_not_nil sep s) as Hn.
    destruct (split_on sep s) as [|l ls] eqn:E; [congruence|].
    simpl in *. destruct ls; simpl in *; now rewrite <- IH.
Qed.

(** The words of lines joined by a space character are the words of the
    lines. *)
Lemma split_join (c : ascii) (ls : list str) :
  isspace c = true -> split (join [c] ls) = flat_map split ls.
Proof.
  intros Hc. induction ls as [|l ls IH]; [reflexivity|].
  destruct ls as [|l' ls].
  - simpl. now rewrite app_nil_r.
  - change (join [c] (l :: l' :: ls)) with (l ++ c :: join [c] (l' :: ls)).
    rewrite split_app_space by exact Hc. now rewrite IH.
Qed.

Lemma join_snoc (sep : str) (ls : list str) (l : str) :
  ls <> [] -> join sep (ls ++ [l]) = join sep ls ++ sep ++ l.
Proof.
  induction ls as [|x ls IH]; [congruence|]. intros _.
  destruct ls as [|y ls]; [reflexivity|].
  change (join sep ((x :: y :: ls) ++ [l]))
    with (x ++ sep ++ join sep ((y :: ls) ++ [l])).
  rewrite IH by discriminate.
  change (join sep (x :: y :: ls)) with (x ++ sep ++ join sep (y :: ls)).
  now rewrite <- !app_assoc.
Qed.

End StrFacts.

(* ================================================================== *)
(** ** Facts about the heading scan *)

Module ScanFacts.

Import Chunker.

Lemma scan_snoc (ls : list str) (l : str) :
  scan (ls ++ [l]) = scan_line (scan ls) l.
Proof. unfold scan. now rewrite fold_left_app. Qed.

(** The word stream of a list of sections. *)
Lemma words_save_section (st : Scan) :
  flat_map (fun s => split (text s)) (save_section st)
  = flat_map (fun s => split (text s)) (sections st)
    ++ flat_map split (cur_text st).
Proof.
  unfold save_section. destruct (cur_text st) as [|l r] eqn:E.
  - now rewrite app_nil_r.
  - rewrite flat_map_app. f_equal.
    change (split (join [NL] (l :: r)) ++ [] = flat_map split (l :: r)).
    rewrite app_nil_r. now apply (split_join NL).
Qed.

(** The scan loses no word and invents none. *)
Lemma scan_words (ls : list str) :
  flat_map (fun s => split (text s)) (sections (scan ls))
  ++ flat_map split (cur_text (scan ls))
  = flat_map split ls.
Proof.
  induction ls as [|l ls IH] using rev_ind; [reflexivity|].
  rewrite scan_snoc, flat_map_app. simpl flat_map at 4. rewrite app_nil_r.
  unfold scan_line. destruct (heading_match l) as [[g1 g2]|]; simpl.
  - rewrite words_save_section, IH. now rewrite app_nil_r.
  - rewrite flat_map_app, app_assoc, IH. simpl. now rewrite app_nil_r.
Qed.

Lemma split_by_headings_words (t : str) :
  flat_map (fun s => split (text s)) (_split_by_headings t) = split t.
Proof.
  unfold _split_by_headings.
  rewrite words_save_section, scan_words.
  rewrite <- (split_join NL) by reflexivity.
  now rewrite join_split_on.
Qed.

Lemma flat_map_length_in {A B : Type} (f : A -> list B) (l : list A) (x : A) :
  In x l -> length (f x) <= length (flat_map f l).
Proof.
  induction l as [|y l IH]; simpl; [tauto|].
  rewrite length_app. intros [->|H]; [lia|]. specialize (IH H). lia.
Qed.

(** No section has more words than the whole text. *)
Lemma section_words_le (t : str) (s : Section) :
  In s (_split_by_headings t) ->
  length (split (text s)) <= length (split t).
Proof.
  intros H. rewrite <- (split_by_headings_words t).
  now apply (flat_map_length_in (fun s => split (text s))).
Qed.

(** After at least one line the current section has a line. *)
Lemma scan_cur_text_not_nil (ls : list str) :
  ls <> [] -> cur_text (scan ls) <> [].
Proof.
  destruct ls as [|l ls] using rev_ind; [congruence|]. intros _.
  rewrite scan_snoc. unfold scan_line.
  destruct (heading_match l) as [[g1 g2]|]; simpl; [discriminate|].
  destruct (cur_text (scan ls)); discriminate.
Qed.

(** The heading split returns at least one section. *)
Lemma split_by_headings_not_nil (t : str) : _split_by_headings t <> [].
Proof.
  unfold _split_by_headings, save_section.
  pose proof (scan_cur_text_not_nil _ (split_on_not_nil NL t)) as H.
  destruct (cur_text (scan (split_on NL t))); [congruence|].
  destruct (sections (scan (split_on NL t))); discriminate.
Qed.

(** Lines that are no headings only extend the current section. *)
Lemma fold_scan_no_heading (ls : list str) (st : Scan) :
  Forall (fun l => heading_match l = None) ls ->
  fold_left scan_line ls st
  = {| sections := sections st; cur_headings := cur_headings st;
       cur_text := cur_text st ++ ls; heading_stack := heading_stack st |}.
Proof.
  revert st. induction ls as [|l ls IH]; intros st H.
  - simpl. rewrite app_nil_r. now destruct st.
  - inversion H as [|? ? Hl Hls]; subst. simpl.
    rewrite IH by exact Hls. unfold scan_line. rewrite Hl. simpl.
    now rewrite <- app_assoc.
Qed.

(** Without a heading line after the first line there is one section. *)
Lemma one_section (t : str) :
  Forall (fun l => heading_match l = None) (tl (split_on NL t)) ->
  length (_split_by_headings t) = 1.
Proof.
  unfold _split_by_headings, scan.
  pose proof (split_on_not_nil NL t) as Hn.
  destruct (split_on NL t) as [|l ls]; [congruence|]. simpl tl. intros H.
  simpl fold_left. rewrite fold_scan_no_heading by exact H.
  unfold scan_line, save_section.
  destruct (heading_match l) as [[g1 g2]|]; reflexivity.
Qed.

End ScanFacts.

(* ================================================================== *)
(** ** Facts about the window loop and about fuel *)

Module LoopFacts.

Import Chunker.

Section WithConfig.

Variable cfg : Config.

(** More fuel does not change a result. *)
Lemma window_loop_mono (fuel fuel' : nat) (words hs : list str) (u ttl : str)
    (m : option str) (start : Z) (r : list SectionChunk) :
  window_loop cfg fuel words hs u ttl m start = Some r ->
  fuel <= fuel' ->
  window_loop cfg fuel' words hs u ttl m start = Some r.
Proof.
  revert fuel' start r.
  induction fuel as [|fuel IH]; intros fuel' start r H Hle; [discriminate|].
  destruct fuel' as [|fuel']; [lia|]. simpl in *.
  destruct (start <? Z.of_nat (length words))%Z; [|exact H].
  destruct (_ >=? _)%Z; [exact H|].
  destruct (window_loop cfg fuel words hs u ttl m _) as [r'|] eqn:E;
    [|discriminate].
  rewrite (IH fuel' _ r' E) by lia. exact H.
Qed.

(** With a positive step the loop ends: every iteration moves [start]
    forward, and it stops at the word count. *)
Lemma window_loop_terminates (fuel : nat) (words hs : list str) (u ttl : str)
    (m : option str) (start : Z) :
  (0 < chunk_size cfg - chunk_overlap cfg)%Z ->
  (Z.max 0 (Z.of_nat (length words) - start) < Z.of_nat fuel)%Z ->
  exists r, window_loop cfg fuel words hs u ttl m start = Some r.
Proof.
  intros Hstep. revert start.
  induction fuel as [|fuel IH]; intros start Hf; [lia|]. simpl.
  destruct (Z.ltb_spec start (Z.of_nat (length words))); [|now eexists].
  destruct (_ >=? _)%Z; [now eexists|].
  destruct (IH (start + (chunk_size cfg - chunk_overlap cfg))%Z) as [r Hr];
    [lia|].
  rewrite Hr. now eexists.
Qed.

Lemma chunk_section_mono (fuel fuel' : nat) (t : str) (hs : list str)
    (u ttl : str) (m : option str) (r : list SectionChunk) :
  _chunk_section cfg fuel t hs u ttl m = Some r ->
  fuel <= fuel' ->
  _chunk_section cfg fuel' t hs u ttl m = Some r.
Proof.
  unfold _chunk_section. destruct (_ <=? _)%Z; [auto|].
  apply window_loop_mono.
Qed.

Lemma chunk_section_terminates (fuel : nat) (t : str) (hs : list str)
    (u ttl : str) (m : option str) :
  (0 < chunk_size cfg - chunk_overlap cfg)%Z ->
  length (split t) < fuel ->
  exists r, _chunk_section cfg fuel t hs u ttl m = Some r.
Proof.
  intros Hstep Hf. unfold _chunk_section.
  destruct (_ <=? _)%Z; [now eexists|].
  apply window_loop_terminates; [exact Hstep | lia].
Qed.

(** A section of at most [chunk_size] words gives one chunk, its text. *)
Lemma chunk_section_small (fuel : nat) (t : str) (hs : list str)
    (u ttl : str) (m : option str) :
  (Z.of_nat (length (split t)) <= chunk_size cfg)%Z ->
  _chunk_section cfg fuel t hs u ttl m = Some [mk_chunk t hs u ttl m].
Proof.
  intros H. unfold _chunk_section.
  destruct (Z.leb_spec (Z.of_nat (length (split t))) (chunk_size cfg));
    [reflexivity | lia].
Qed.

Lemma chunk_sections_mono (fuel fuel' : nat) (secs : list Section)
    (u ttl : str) (m : option str) (r : list SectionChunk) :
  chunk_sections cfg fuel secs u ttl m = Some r ->
  fuel <= fuel' ->
  chunk_sections cfg fuel' secs u ttl m = Some r.
Proof.
  revert r. induction secs as [|s secs IH]; intros r H Hle; [exact H|].
  simpl in *.
  destruct (_chunk_section cfg fuel _ _ u ttl m) as [cs|] eqn:E;
    [|discriminate].
  rewrite (chunk_section_mono _ _ _ _ _ _ _ _ E Hle).
  destruct (chunk_sections cfg fuel secs u ttl m) as [r'|]; [|discriminate].
  now rewrite (IH r' eq_refl Hle).
Qed.

Lemma chunk_sections_terminates (fuel : nat) (secs : list Section)
    (u ttl : str) (m : option str) :
  (0 < chunk_size cfg - chunk_overlap cfg)%Z ->
  Forall (fun s => length (split (text s)) < fuel) secs ->
  exists r, chunk_sections cfg fuel secs u ttl m = Some r.
Proof.
  intros Hstep H. induction H as [|s secs Hs _ [r Hr]]; [now eexists|].
  simpl.
  destruct (chunk_section_terminates fuel (text s) (headings s) u ttl m
              Hstep Hs) as [cs Hcs].
  rewrite Hcs, Hr. now eexists.
Qed.

(** Sections of at most [chunk_size] words: one chunk for each section. *)
Lemma chunk_sections_small (fuel : nat) (secs : list Section)
    (u ttl : str) (m : option str) :
  Forall (fun s => (Z.of_nat (length (split (text s))) <= chunk_size cfg)%Z)
         secs ->
  chunk_sections cfg fuel secs u ttl m
  = Some (map (fun s => mk_chunk (text s) (headings s) u ttl m) secs).
Proof.
  intros H. induction H as [|s secs Hs _ IH]; [reflexivity|].
  simpl. rewrite chunk_section_small by exact Hs. now rewrite IH.
Qed.

Lemma chunk_document_mono (fuel fuel' : nat) (d : Document)
    (r : list Chunk) :
  chunk_document cfg fuel d = Some r ->
  fuel <= fuel' ->
  chunk_document cfg fuel' d = Some r.
Proof.
  unfold chunk_document. intros H Hle.
  destruct (chunk_sections cfg fuel _ _ _ _) as [cs|] eqn:E; [|discriminate].
  now rewrite (chunk_sections_mono _ _ _ _ _ _ _ E Hle).
Qed.

(** The indexing pass keeps the number and the order of the chunks. *)
Lemma add_indices_length (u : str) (cs : list SectionChunk) :
  length (add_indices u cs) = length cs.
Proof.
  unfold add_indices.
  rewrite length_map, length_combine, length_seq. lia.
Qed.

Lemma combine_seq_fst {A : Type} (l : list A) (k : nat) :
  map fst (combine (seq k (length l)) l) = seq k (length l).
Proof.
  revert k. induction l as [|x l IH]; intros k; [reflexivity|].
  simpl. now rewrite IH.
Qed.

Lemma combine_seq_snd {A : Type} (l : list A) (k : nat) :
  map snd (combine (seq k (length l)) l) = l.
Proof.
  revert k. induction l as [|x l IH]; intros k; [reflexivity|].
  simpl. now rewrite IH.
Qed.

Lemma add_indices_index (u : str) (cs : list SectionChunk) :
  map chunk_index (add_indices u cs) = seq 0 (length cs).
Proof.
  unfold add_indices. rewrite map_map.
  rewrite <- (combine_seq_fst cs 0) at 2.
  apply map_ext. now intros [i c].
Qed.

Lemma add_indices_forall (u : str) (cs : list SectionChunk) :
  Forall (fun c => total_chunks c = length cs
                   /\ chunk_id c
                      = _url_to_id u ++ lit "_" ++ str_of_nat (chunk_index c))
         (add_indices u cs).
Proof.
  unfold add_indices. apply Forall_forall. intros c Hc.
  apply in_map_iff in Hc. destruct Hc as [[i sc] [<- _]]. now split.
Qed.

Lemma add_indices_text (u : str) (cs : list SectionChunk) :
  map c_text (add_indices u cs) = map sc_text cs.
Proof.
  unfold add_indices. rewrite map_map.
  rewrite <- (combine_seq_snd cs 0) at 3. rewrite map_map.
  apply map_ext. now intros [i c].
Qed.

End WithConfig.

End LoopFacts.

(* ================================================================== *)
(** ** Facts about the chunk identifiers *)

Module IdFacts.

Import Chunker.

Lemma hexdigit_is_hex (n : N) : MD5.is_hex (MD5.hexdigit n) = true.
Proof.
  unfold MD5.hexdigit.
  destruct (nth_in_or_default (N.to_nat n) (lit "0123456789abcdef") "0"%char)
    as [H| ->]; [|reflexivity].
  revert H. generalize (nth (N.to_nat n) (lit "0123456789abcdef") "0"%char).
  intros c H. simpl in H.
  repeat (destruct H as [<-|H]; [reflexivity|]). destruct H.
Qed.

Lemma hexword_length (w : N) : length (MD5.hexword w) = 8.
Proof. reflexivity. Qed.

Lemma hexword_is_hex (w : N) : forallb MD5.is_hex (MD5.hexword w) = true.
Proof.
  unfold MD5.hexword, MD5.hexbyte. simpl app. cbn [forallb].
  now rewrite !hexdigit_is_hex.
Qed.

Lemma hexdigest_length (msg : list N) : length (MD5.hexdigest msg) = 32.
Proof.
  unfold MD5.hexdigest. destruct (fold_left _ _ _) as [[[a b] c] d].
  now rewrite !length_app, !hexword_length.
Qed.

Lemma hexdigest_is_hex (msg : list N) :
  forallb MD5.is_hex (MD5.hexdigest msg) = true.
Proof.
  unfold MD5.hexdigest. destruct (fold_left _ _ _) as [[[a b] c] d].
  now rewrite !forallb_app, !hexword_is_hex.
Qed.

(** The identifier of a URL: eight hexadecimal characters. *)
Lemma url_to_id_length (u : str) : length (_url_to_id u) = 8.
Proof.
  unfold _url_to_id. rewrite length_firstn, hexdigest_length. reflexivity.
Qed.

Lemma url_to_id_is_hex (u : str) : forallb MD5.is_hex (_url_to_id u) = true.
Proof.
  unfold _url_to_id.
  pose proof (hexdigest_is_hex (MD5.encode u)) as H.
  rewrite <- (firstn_skipn 8 (MD5.hexdigest (MD5.encode u))) in H.
  rewrite forallb_app in H. now apply andb_true_iff in H.
Qed.

Lemma lit_inj (a b : string) : lit a = lit b -> a = b.
Proof.
  unfold lit. intros H.
  rewrite <- (string_of_list_ascii_of_string a).
  rewrite <- (string_of_list_ascii_of_string b). now rewrite H.
Qed.

Lemma to_uint_not_nil (n : nat) : Nat.to_uint n <> Decimal.Nil.
Proof.
  intros H. pose proof (DecimalNat.Unsigned.to_of (Nat.to_uint n)) as E.
  rewrite DecimalNat.Unsigned.of_to, H in E. discriminate.
Qed.

(** Different numbers have different decimal digits. *)
Lemma str_of_nat_inj (i j : nat) : str_of_nat i = str_of_nat j -> i = j.
Proof.
  unfold str_of_nat. intros H. apply lit_inj in H.
  apply DecimalNat.Unsigned.to_uint_inj.
  pose proof (NilZero.usu (Nat.to_uint i) (to_uint_not_nil i)) as Hi.
  pose proof (NilZero.usu (Nat.to_uint j) (to_uint_not_nil j)) as Hj.
  rewrite H in Hi. congruence.
Qed.

End IdFacts.

(* ================================================================== *)
(** ** Properties of [chunk_document]: positions and identifiers *)

Import Chunker Samples.

Lemma chunk_document_inv (cfg : Config) (fuel : nat) (d : Document)
    (chunks : list Chunk) :
  chunk_document cfg fuel d = Some chunks ->
  exists cs, chunks = add_indices (url d) cs.
Proof.
  unfold chunk_document.
  destruct (chunk_sections cfg fuel _ _ _ _) as [cs|]; [|discriminate].
  intros [= <-]. now exists cs.
Qed.

Lemma map_ext_Forall_id {A B C : Type} (f : A -> B) (g : A -> C)
    (h : C -> B) (l : list A) :
  Forall (fun x => f x = h (g x)) l -> map f l = map h (map g l).
Proof.
  intros H. rewrite map_map. induction H as [|x l Hx _ IH]; [reflexivity|].
  simpl. now rewrite Hx, IH.
Qed.

(** C1: the list returned by [chunk_document] has a length N such that
    every chunk carries [total_chunks = N], the [chunk_index] values in list
    order are 0, 1, ..., N-1 (so [0 <= chunk_index < total_chunks] on every
    chunk), and every [chunk_id] is the first 8 hexadecimal characters of the
    MD5 digest of the url, then ["_"], then the decimal index. *)
Theorem chunk_document_indices (cfg : Config) (fuel : nat) (d : Document)
    (chunks : list Chunk) :
  chunk_document cfg fuel d = Some chunks ->
  let n := length chunks in
  Forall (fun c => total_chunks c = n) chunks
  /\ map chunk_index chunks = seq 0 n
  /\ Forall (fun c => 0 <= chunk_index c < total_chunks c) chunks
  /\ Forall (fun c =>
               chunk_id c
               = firstn 8 (MD5.hexdigest (MD5.encode (url d)))
                 ++ lit "_" ++ str_of_nat (chunk_index c)) chunks
  /\ length (firstn 8 (MD5.hexdigest (MD5.encode (url d)))) = 8
  /\ forallb MD5.is_hex (firstn 8 (MD5.hexdigest (MD5.encode (url d)))) = true.
Proof.
  intros H n. destruct (chunk_document_inv _ _ _ _ H) as [cs ->].
  subst n. rewrite LoopFacts.add_indices_length.
  pose proof (LoopFacts.add_indices_forall (url d) cs) as Hall.
  pose proof (LoopFacts.add_indices_index (url d) cs) as Hidx.
  repeat split.
  - eapply Forall_impl; [|exact Hall]. now intros c [Ht _].
  - exact Hidx.
  - apply Forall_forall. intros c Hc. split; [lia|].
    assert (Hin : In (chunk_index c) (seq 0 (length cs)))
      by (rewrite <- Hidx; now apply in_map).
    apply in_seq in Hin.
    rewrite Forall_forall in Hall. destruct (Hall c Hc) as [-> _]. lia.
  - eapply Forall_impl; [|exact Hall]. now intros c [_ Hi].
  - apply (IdFacts.url_to_id_length (url d)).
  - apply (IdFacts.url_to_id_is_hex (url d)).
Qed.

Lemma chunk_document_indices_witness :
  let chunks := chunks_of (chunk_document default_config 1 doc_nested) in
  chunk_document default_config 1 doc_nested = Some chunks
  /\ length chunks = 3
  /\ Forall (fun c => total_chunks c = length chunks) chunks
  /\ map chunk_index chunks = seq 0 (length chunks).
Proof.
  intros chunks.
  pose proof (chunk_document_indices default_config 1 doc_nested chunks
                eq_refl) as H.
  split; [reflexivity|]. split; [reflexivity|].
  split; [exact (proj1 H) | exact (proj1 (proj2 H))].
Defined.

(** C9: the [chunk_id] values of one document are pairwise distinct: all
    share the 8-character hexadecimal MD5 prefix of the url, and the index
    after ["_"] differs from chunk to chunk. *)
Theorem chunk_ids_distinct (cfg : Config) (fuel : nat) (d : Document)
    (chunks : list Chunk) :
  chunk_document cfg fuel d = Some chunks ->
  NoDup (map chunk_id chunks)
  /\ NoDup (map chunk_index chunks)
  /\ exists prefix,
       prefix = firstn 8 (MD5.hexdigest (MD5.encode (url d)))
       /\ length prefix = 8
       /\ forallb MD5.is_hex prefix = true
       /\ Forall (fun c =>
                    chunk_id c
                    = prefix ++ lit "_" ++ str_of_nat (chunk_index c)) chunks.
Proof.
  intros H. destruct (chunk_document_inv _ _ _ _ H) as [cs ->].
  pose proof (LoopFacts.add_indices_forall (url d) cs) as Hall.
  pose proof (LoopFacts.add_indices_index (url d) cs) as Hidx.
  assert (Hid : Forall (fun c =>
                          chunk_id c
                          = _url_to_id (url d) ++ lit "_"
                            ++ str_of_nat (chunk_index c))
                       (add_indices (url d) cs))
    by (eapply Forall_impl; [|exact Hall]; now intros c [_ Hi]).
  split; [|split].
  - rewrite (map_ext_Forall_id chunk_id chunk_index
               (fun i => _url_to_id (url d) ++ lit "_" ++ str_of_nat i)
               _ Hid).
    rewrite Hidx. apply Injective_map_NoDup; [|apply seq_NoDup].
    intros i j E. apply app_inv_head in E. apply app_inv_head in E.
    now apply IdFacts.str_of_nat_inj.
  - rewrite Hidx. apply seq_NoDup.
  - exists (_url_to_id (url d)). repeat split.
    + apply IdFacts.url_to_id_length.
    + apply IdFacts.url_to_id_is_hex.
    + exact Hid.
Qed.

Lemma chunk_ids_distinct_witness :
  let chunks := chunks_of (chunk_document default_config 1 doc_nested) in
  chunk_document default_config 1 doc_nested = Some chunks
  /\ length chunks = 3
  /\ NoDup (map chunk_id chunks).
Proof.
  intros chunks. split; [reflexivity|]. split; [reflexivity|].
  exact (proj1 (chunk_ids_distinct default_config 1 doc_nested chunks
                  eq_refl)).
Defined.

(* ================================================================== *)
(** ** The heading stack *)

Module StackFacts.

Lemma heading_match_level (line g1 g2 : str) :
  heading_match line = Some (g1, g2) -> 1 <= length g1 <= 6.
Proof.
  unfold heading_match. destruct (span (Ascii.eqb HASH) line) as [hashes rest].
  destruct (Nat.leb_spec 1 (length hashes)); [|discriminate].
  destruct (Nat.leb_spec (length hashes) 6); [|discriminate]. simpl.
  destruct (span isspace rest) as [spaces body].
  destruct spaces as [|a [|b spaces]], body as [|c body];
    try discriminate; intros [= <- _]; lia.
Qed.

Lemma filter_below_Forall (stack : list Heading) (lvl : nat) :
  Forall (fun h => level h < lvl)
         (filter (fun h => level h <? lvl) stack).
Proof.
  apply Forall_forall. intros h Hh. apply filter_In in Hh.
  now apply Nat.ltb_lt.
Qed.

(** Pushing keeps the levels strictly increasing. *)
Lemma push_heading_increasing (stack : list Heading) (lvl : nat) (t : str) :
  levels_increasing stack -> levels_increasing (push_heading stack lvl t).
Proof.
  unfold levels_increasing, push_heading.
  induction stack as [|h stack IH]; intros H; simpl.
  - repeat constructor.
  - inversion H as [|? ? Hs Hh]; subst.
    destruct (Nat.ltb_spec (level h) lvl) as [Hlt|Hge]; [|now apply IH].
    simpl. constructor; [now apply IH|].
    rewrite map_app. apply Forall_app. split.
    + rewrite Forall_map in *. apply Forall_forall. intros x Hx.
      apply filter_In in Hx. rewrite Forall_forall in Hh.
      now apply Hh.
    + now repeat constructor.
Qed.

Lemma scan_stack_increasing (ls : list str) :
  levels_increasing (heading_stack (scan ls)).
Proof.
  induction ls as [|l ls IH] using rev_ind; [constructor|].
  rewrite ScanFacts.scan_snoc. unfold scan_line.
  destruct (heading_match l) as [[g1 g2]|]; simpl; [|exact IH].
  now apply push_heading_increasing.
Qed.

(** The current section carries the texts of the stacked headings. *)
Lemma scan_cur_headings (ls : list str) :
  cur_headings (scan ls) = map htext (heading_stack (scan ls)).
Proof.
  induction ls as [|l ls IH] using rev_ind; [reflexivity|].
  rewrite ScanFacts.scan_snoc. unfold scan_line.
  destruct (heading_match l) as [[g1 g2]|]; simpl; [reflexivity | exact IH].
Qed.

(** Every saved section carries the stack of the moment it was opened. *)
Lemma scan_sections_headings (ls : list str) (s : Section) :
  In s (save_section (scan ls)) ->
  exists p q, ls = p ++ q /\ headings s = map htext (heading_stack (scan p)).
Proof.
  assert (Hsave : forall ls0 : list str,
             (forall s0, In s0 (sections (scan ls0)) ->
                exists p q, ls0 = p ++ q
                  /\ headings s0 = map htext (heading_stack (scan p))) ->
             forall s0, In s0 (save_section (scan ls0)) ->
                exists p q, ls0 = p ++ q
                  /\ headings s0 = map htext (heading_stack (scan p))).
  { intros ls0 H s0. unfold save_section.
    destruct (cur_text (scan ls0)); [apply H|]. intros Hin.
    apply in_app_or in Hin. destruct Hin as [Hin|[<-|[]]]; [now apply H|].
    exists ls0, []. rewrite app_nil_r. split; [reflexivity|].
    apply scan_cur_headings. }
  apply Hsave. clear s.
  induction ls as [|l ls IH] using rev_ind; [intros s []|].
  intros s. rewrite ScanFacts.scan_snoc. unfold scan_line.
  destruct (heading_match l) as [[g1 g2]|]; simpl; intros Hin.
  - destruct (Hsave ls IH s Hin) as (p & q & -> & Hp).
    exists p, (q ++ [l]). now rewrite app_assoc.
  - destruct (IH s Hin) as (p & q & -> & Hp).
    exists p, (q ++ [l]). now rewrite app_assoc.
Qed.

End StackFacts.

Module SectionFacts.

Lemma scan_app (p l : list str) :
  scan (p ++ l) = fold_left scan_line l (scan p).
Proof. unfold scan. now rewrite fold_left_app. Qed.

(** A saved section stays where it is: later lines only add sections. *)
Lemma save_section_grows (l : list str) (st : Scan) :
  exists later, save_section (fold_left scan_line l st) = sections st ++ later.
Proof.
  revert st. induction l as [|a l IH]; intros st.
  - cbn [fold_left]. unfold save_section. destruct (cur_text st).
    + exists []. now rewrite app_nil_r.
    + eexists. reflexivity.
  - cbn [fold_left]. destruct (IH (scan_line st a)) as [later E].
    rewrite E. unfold scan_line.
    destruct (heading_match a) as [[g1 g2]|]; cbn [sections].
    + unfold save_section. destruct (cur_text st).
      * now exists later.
      * eexists. rewrite <- app_assoc. reflexivity.
    + now exists later.
Qed.

(** The state of the scan inside a section: after the line that opened it
    (a heading line, or the first line of the text) and lines [body] that
    are no headings. *)
Lemma opened_group (p : list str) (opener : str) (body : list str) :
  p = [] \/ heading_match opener <> None ->
  Forall (fun l => heading_match l = None) body ->
  sections (scan (p ++ opener :: body)) = save_section (scan p)
  /\ cur_text (scan (p ++ opener :: body)) = opener :: body
  /\ cur_headings (scan (p ++ opener :: body))
     = map htext (heading_stack (scan (p ++ [opener])))
  /\ heading_stack (scan (p ++ opener :: body))
     = heading_stack (scan (p ++ [opener])).
Proof.
  intros Hopen Hbody.
  assert (E : p ++ opener :: body = (p ++ [opener]) ++ body)
    by now rewrite <- app_assoc.
  rewrite E, scan_app, ScanFacts.fold_scan_no_heading by exact Hbody.
  cbn [sections cur_text cur_headings heading_stack].
  rewrite ScanFacts.scan_snoc. unfold scan_line.
  destruct (heading_match opener) as [[g1 g2]|] eqn:Em;
    cbn [sections cur_text cur_headings heading_stack].
  - repeat split; reflexivity.
  - destruct Hopen as [->|Hopen]; [|congruence].
    repeat split; reflexivity.
Qed.

(** The section of a group of lines, at its place in the result. *)
Lemma section_at (p : list str) (opener : str) (body q : list str) :
  p = [] \/ heading_match opener <> None ->
  Forall (fun l => heading_match l = None) body ->
  q = [] \/ (exists h q', q = h :: q' /\ heading_match h <> None) ->
  exists later,
    save_section (scan (p ++ opener :: body ++ q))
    = save_section (scan p)
      ++ {| headings := map htext (heading_stack (scan (p ++ [opener])));
            text := join [NL] (opener :: body) |} :: later
    /\ (q = [] -> later = []).
Proof.
  intros Hopen Hbody Hq.
  destruct (opened_group p opener body Hopen Hbody) as (Hs & Ht & Hh & _).
  assert (Hsave : save_section (scan (p ++ opener :: body))
                  = save_section (scan p)
                    ++ [{| headings :=
                             map htext (heading_stack (scan (p ++ [opener])));
                           text := join [NL] (opener :: body) |}]).
  { unfold save_section at 1. rewrite Ht, Hs, Hh. reflexivity. }
  destruct Hq as [->|(h & q' & -> & Hhead)].
  - exists []. rewrite app_nil_r. split; [exact Hsave | reflexivity].
  - assert (Eq : p ++ opener :: body ++ h :: q'
                 = ((p ++ opener :: body) ++ [h]) ++ q')
      by (rewrite <- !app_assoc; reflexivity).
    rewrite Eq, scan_app.
    destruct (save_section_grows q' (scan ((p ++ opener :: body) ++ [h])))
      as [later E].
    rewrite E, ScanFacts.scan_snoc. unfold scan_line.
    destruct (heading_match h) as [[g1 g2]|]; [|congruence].
    cbn [sections]. rewrite Hsave, <- app_assoc. exists later.
    split; [reflexivity | discriminate].
Qed.

(** The lines end with a group: a line that opens a section and lines that
    are no headings. *)
Lemma last_group (ls : list str) :
  ls <> [] ->
  exists p opener body,
    ls = p ++ opener :: body
    /\ (p = [] \/ heading_match opener <> None)
    /\ Forall (fun l => heading_match l = None) body.
Proof.
  induction ls as [|l ls IH] using rev_ind; [congruence|]. intros _.
  destruct (heading_match l) as [[g1 g2]|] eqn:E.
  - exists ls, l, []. split; [reflexivity|]. split; [|constructor].
    right. congruence.
  - destruct ls as [|l0 ls0].
    + exists [], l, []. split; [reflexivity|]. split; [now left | constructor].
    + destruct IH as (p & opener & body & Els & Hopen & Hbody);
        [discriminate|].
      exists p, opener, (body ++ [l]). rewrite Els, <- app_assoc.
      split; [reflexivity|]. split; [exact Hopen|].
      apply Forall_app. split; [exact Hbody|]. now repeat constructor.
Qed.

(** Every section of the result is the section of a group of lines. *)
Lemma section_from (n : nat) (ls : list str) (s : Section) :
  length ls <= n ->
  In s (save_section (scan ls)) ->
  exists p opener body q,
    ls = p ++ opener :: body ++ q
    /\ (p = [] \/ heading_match opener <> None)
    /\ Forall (fun l => heading_match l = None) body
    /\ (q = [] \/ (exists h q', q = h :: q' /\ heading_match h <> None))
    /\ s = {| headings := map htext (heading_stack (scan (p ++ [opener])));
              text := join [NL] (opener :: body) |}.
Proof.
  revert ls s. induction n as [|n IH]; intros ls s Hlen Hin.
  - destruct ls; [destruct Hin | simpl in Hlen; lia].
  - destruct ls as [|l0 ls0] eqn:Els; [destruct Hin|]. rewrite <- Els in *.
    destruct (last_group ls) as (p & opener & body & E & Hopen & Hbody);
      [congruence|].
    destruct (section_at p opener body [] Hopen Hbody (or_introl eq_refl))
      as (later & Hsave & Hlater).
    rewrite (Hlater eq_refl), app_nil_r, <- E in Hsave.
    rewrite Hsave in Hin. apply in_app_or in Hin.
    destruct Hin as [Hin|[<-|[]]].
    + destruct p as [|p0 p'] eqn:Ep; [destruct Hin|]. rewrite <- Ep in *.
      assert (Hhead : heading_match opener <> None)
        by (destruct Hopen as [->|H]; [discriminate | exact H]).
      destruct (IH p s) as (p1 & o1 & b1 & q1 & E1 & Ho1 & Hb1 & Hq1 & Hs).
      { rewrite E, length_app in Hlen. simpl in Hlen. lia. }
      { exact Hin. }
      exists p1, o1, b1, (q1 ++ opener :: body).
      split; [|split; [exact Ho1|split; [exact Hb1|split; [|exact Hs]]]].
      * rewrite E, E1. rewrite <- !app_assoc. cbn [app].
        now rewrite <- app_assoc.
      * right. destruct Hq1 as [->|(h & q' & -> & Hh)].
        -- now exists opener, body.
        -- now exists h, (q' ++ opener :: body).
    + exists p, opener, body, []. rewrite app_nil_r.
      split; [exact E|]. split; [exact Hopen|]. split; [exact Hbody|].
      split; [now left | reflexivity].
Qed.

End SectionFacts.

(** C5: when the scan meets a heading line of level L (between 1 and 6),
    the entries of level at least L leave the stack and the new heading is
    pushed; so at every step of the scan the levels of the stack grow
    strictly from the outermost entry to the innermost, and the heading path
    of every section is the list of the texts of the headings stacked when
    the section was opened, outermost first: the lines fall into groups, a
    group being a heading line (or the first line of the text) and the
    lines up to the next heading line; the result of the split has, in the
    order of the groups, one section for each group and nothing else, whose
    heading path is the texts of the stack right after the line that opened
    the group, and the stack is the same at the end of the group. *)
Theorem heading_stack_discipline (ls : list str) :
  (forall line g1 g2,
     heading_match line = Some (g1, g2) ->
     1 <= length g1 <= 6
     /\ exists kept,
          heading_stack (scan (ls ++ [line]))
          = kept ++ [{| level := length g1; htext := strip g2 |}]
          /\ kept = filter (fun h => level h <? length g1)
                           (heading_stack (scan ls))
          /\ Forall (fun h => level h < length g1) kept
          /\ (forall h, In h (heading_stack (scan ls)) ->
                        length g1 <= level h -> ~ In h kept)
          /\ (forall h, In h (heading_stack (scan ls)) ->
                        level h < length g1 -> In h kept))
  /\ (forall line, heading_match line = None ->
        heading_stack (scan (ls ++ [line])) = heading_stack (scan ls))
  /\ levels_increasing (heading_stack (scan ls))
  /\ cur_headings (scan ls) = map htext (heading_stack (scan ls))
  /\ (forall s, In s (save_section (scan ls)) ->
        exists p q, ls = p ++ q
                    /\ headings s = map htext (heading_stack (scan p)))
  /\ (forall p opener body q,
        ls = p ++ opener :: body ++ q ->
        p = [] \/ heading_match opener <> None ->
        Forall (fun l => heading_match l = None) body ->
        q = [] \/ (exists h q', q = h :: q' /\ heading_match h <> None) ->
        heading_stack (scan (p ++ opener :: body))
        = heading_stack (scan (p ++ [opener]))
        /\ exists later,
             save_section (scan ls)
             = save_section (scan p)
               ++ {| headings :=
                       map htext (heading_stack (scan (p ++ [opener])));
                     text := join [NL] (opener :: body) |} :: later
             /\ (q = [] -> later = []))
  /\ (forall s, In s (save_section (scan ls)) ->
        exists p opener body q,
          ls = p ++ opener :: body ++ q
          /\ (p = [] \/ heading_match opener <> None)
          /\ Forall (fun l => heading_match l = None) body
          /\ (q = [] \/ (exists h q', q = h :: q' /\ heading_match h <> None))
          /\ s = {| headings :=
                      map htext (heading_stack (scan (p ++ [opener])));
                    text := join [NL] (opener :: body) |}).
Proof.
  split; [|split; [|split; [|split; [|split; [|split]]]]].
  - intros line g1 g2 Hm. split; [now apply (StackFacts.heading_match_level line g1 g2)|].
    eexists. rewrite ScanFacts.scan_snoc. unfold scan_line. rewrite Hm.
    simpl. unfold push_heading.
    split; [reflexivity|]. split; [reflexivity|].
    split; [apply StackFacts.filter_below_Forall|]. split.
    + intros h _ Hge Hin. apply filter_In in Hin. destruct Hin as [_ Hlt].
      apply Nat.ltb_lt in Hlt. lia.
    + intros h Hin Hlt. apply filter_In. split; [exact Hin|].
      now apply Nat.ltb_lt.
  - intros line Hm. rewrite ScanFacts.scan_snoc. unfold scan_line.
    now rewrite Hm.
  - apply StackFacts.scan_stack_increasing.
  - apply StackFacts.scan_cur_headings.
  - apply StackFacts.scan_sections_headings.
  - intros p opener body q -> Hopen Hbody Hq. split.
    + now apply SectionFacts.opened_group.
    + now apply SectionFacts.section_at.
  - intros s. now apply (SectionFacts.section_from (length ls)).
Qed.

Lemma heading_stack_discipline_witness :
  let t := lit "# A" ++ [NL] ++ lit "### B" ++ [NL] ++ lit "text" ++ [NL]
           ++ lit "## C" in
  split_on NL t = [lit "# A"; lit "### B"; lit "text"; lit "## C"]
  /\ heading_stack (scan (split_on NL t))
     = [{| level := 1; htext := lit "A" |}; {| level := 2; htext := lit "C" |}]
  /\ (exists kept,
        heading_stack
          (scan ([lit "# A"; lit "### B"; lit "text"] ++ [lit "## C"]))
        = kept ++ [{| level := length (lit "##"); htext := strip (lit "C") |}]
        /\ kept = filter (fun h => level h <? length (lit "##"))
                         (heading_stack
                            (scan [lit "# A"; lit "### B"; lit "text"])))
  /\ map headings (_split_by_headings t)
     = [[lit "A"]; [lit "A"; lit "B"]; [lit "A"; lit "C"]]
  /\ (exists later,
        _split_by_headings t
        = [{| headings := [lit "A"]; text := lit "# A" |}]
          ++ {| headings := [lit "A"; lit "B"];
                text := lit "### B" ++ [NL] ++ lit "text" |} :: later).
Proof.
  intros t. split; [reflexivity|]. split; [reflexivity|]. split; [|split].
  - destruct (proj1 (heading_stack_discipline
                       [lit "# A"; lit "### B"; lit "text"])
                    (lit "## C") (lit "##") (lit "C") eq_refl)
      as [_ [kept [H1 [H2 _]]]].
    exists kept. split; [exact H1 | exact H2].
  - reflexivity.
  - destruct (proj1 (proj2 (proj2 (proj2 (proj2 (proj2
                (heading_stack_discipline
                   [lit "# A"; lit "### B"; lit "text"; lit "## C"]))))))
                [lit "# A"] (lit "### B") [lit "text"] [lit "## C"]
                eq_refl)
      as [_ [later [H _]]].
    + right. discriminate.
    + repeat constructor.
    + right. exists (lit "## C"), []. split; [reflexivity | discriminate].
    + exists later. exact H.
Defined.

(* ================================================================== *)
(** ** Termination *)

(** C6: when [0 <= chunk_overlap < chunk_size], the window loop of
    [_chunk_section] ends for every section text, and [chunk_document]
    returns a list for every document: any fuel above the number of words
    gives the same result. *)
Theorem chunking_terminates (cfg : Config) :
  (0 <= chunk_overlap cfg < chunk_size cfg)%Z ->
  (forall (t : str) (hs : list str) (u ttl : str) (m : option str),
      exists r, forall fuel, length (split t) < fuel ->
        _chunk_section cfg fuel t hs u ttl m = Some r)
  /\ (forall (words hs : list str) (u ttl : str) (m : option str),
      exists r, forall fuel, length words < fuel ->
        window_loop cfg fuel words hs u ttl m 0 = Some r)
  /\ (forall d : Document,
      exists chunks, forall fuel, length (split (content d)) < fuel ->
        chunk_document cfg fuel d = Some chunks).
Proof.
  intros Hcfg.
  assert (Hstep : (0 < chunk_size cfg - chunk_overlap cfg)%Z) by lia.
  split; [|split].
  - intros t hs u ttl m.
    destruct (LoopFacts.chunk_section_terminates cfg (S (length (split t)))
                t hs u ttl m Hstep (Nat.lt_succ_diag_r _)) as [r Hr].
    exists r. intros fuel Hf.
    apply (LoopFacts.chunk_section_mono cfg _ _ _ _ _ _ _ _ Hr). lia.
  - intros words hs u ttl m.
    destruct (LoopFacts.window_loop_terminates cfg (S (length words))
                words hs u ttl m 0 Hstep) as [r Hr]; [lia|].
    exists r. intros fuel Hf.
    apply (LoopFacts.window_loop_mono cfg _ _ _ _ _ _ _ _ _ Hr). lia.
  - intros d.
    destruct (LoopFacts.chunk_sections_terminates cfg
                (S (length (split (content d))))
                (_split_by_headings (content d)) (url d) (title d) (module d)
                Hstep) as [cs Hcs].
    { apply Forall_forall. intros s Hs.
      pose proof (ScanFacts.section_words_le _ _ Hs). lia. }
    exists (add_indices (url d) cs). intros fuel Hf.
    apply (LoopFacts.chunk_document_mono cfg (S (length (split (content d))))).
    + unfold chunk_document. now rewrite Hcs.
    + lia.
Qed.

Lemma chunking_terminates_witness :
  exists chunks, forall fuel,
    length (split (content doc_nested)) < fuel ->
    chunk_document default_config fuel doc_nested = Some chunks.
Proof.
  refine (proj2 (proj2 (chunking_terminates default_config _)) doc_nested).
  simpl. lia.
Defined.

(* ================================================================== *)
(** ** Small documents *)

(** C8, as the code has it: a document whose content has fewer than
    [chunk_size] words gives one chunk for each section of the heading
    split, at least one, the text of each being the text of its section;
    it gives exactly one chunk when no line after the first is a heading
    line. *)
Theorem small_document_chunks (cfg : Config) (fuel : nat) (d : Document) :
  (Z.of_nat (length (split (content d))) < chunk_size cfg)%Z ->
  exists chunks,
    chunk_document cfg fuel d = Some chunks
    /\ length chunks = length (_split_by_headings (content d))
    /\ 1 <= length chunks
    /\ map c_text chunks = map text (_split_by_headings (content d))
    /\ (Forall (fun l => heading_match l = None)
               (tl (split_on NL (content d))) ->
        length chunks = 1).
Proof.
  intros Hsmall.
  assert (Hall : Forall (fun s => (Z.of_nat (length (split (text s)))
                                   <= chunk_size cfg)%Z)
                        (_split_by_headings (content d))).
  { apply Forall_forall. intros s Hs.
    pose proof (ScanFacts.section_words_le _ _ Hs). lia. }
  eexists. unfold chunk_document.
  rewrite (LoopFacts.chunk_sections_small cfg fuel _ _ _ _ Hall). simpl.
  split; [reflexivity|].
  rewrite LoopFacts.add_indices_length, length_map.
  split; [reflexivity|]. split; [|split].
  - pose proof (ScanFacts.split_by_headings_not_nil (content d)).
    destruct (_split_by_headings (content d)); [congruence | simpl; lia].
  - rewrite LoopFacts.add_indices_text, map_map. reflexivity.
  - apply ScanFacts.one_section.
Qed.

Lemma small_document_chunks_witness :
  exists chunks,
    chunk_document default_config 0 doc_two_headings = Some chunks
    /\ length chunks = length (_split_by_headings (content doc_two_headings))
    /\ 1 <= length chunks.
Proof.
  destruct (small_document_chunks default_config 0 doc_two_headings)
    as [chunks [H1 [H2 [H3 _]]]].
  - simpl. lia.
  - exists chunks. split; [exact H1|]. split; [exact H2 | exact H3].
Defined.

(** C8 as stated fails: a document of four words with two headings gives
    two chunks under the default configuration. *)
Lemma small_document_two_chunks :
  ~ (forall (cfg : Config) (fuel : nat) (d : Document) (chunks : list Chunk),
        (Z.of_nat (length (split (content d))) < chunk_size cfg)%Z ->
        chunk_document cfg fuel d = Some chunks ->
        length chunks = 1).
Proof.
  intros H.
  specialize (H default_config 1 doc_two_headings
                (chunks_of (chunk_document default_config 1 doc_two_headings))).
  discriminate H; [simpl; lia | reflexivity].
Qed.

(* ================================================================== *)
(** ** The empty document *)

(** C3 on the code: a document with empty content comes back as one chunk
    with empty text, because [''.split('\n')] is [['']] and the section
    holding that one empty line is kept. *)
Theorem empty_document_one_chunk (fuel : nat) :
  _split_by_headings [] = [{| headings := []; text := [] |}]
  /\ exists c,
       chunk_document default_config fuel doc_empty = Some [c]
       /\ c_text c = []
       /\ heading_hierarchy c = lit "A"
       /\ chunk_index c = 0
       /\ total_chunks c = 1.
Proof.
  split; [reflexivity|]. eexists. split; [reflexivity|]. now repeat split.
Qed.

(* ================================================================== *)
(** ** The text of a chunk *)

Module TextFacts.

Lemma Forall_firstn {A : Type} (P : A -> Prop) (n : nat) (l : list A) :
  Forall P l -> Forall P (firstn n l).
Proof.
  intros H. revert n. induction H as [|x l Hx _ IH]; intros [|n]; simpl;
    constructor; auto.
Qed.

Lemma Forall_skipn {A : Type} (P : A -> Prop) (n : nat) (l : list A) :
  Forall P l -> Forall P (skipn n l).
Proof.
  intros H. revert n. induction H as [|x l Hx Hl IH]; intros [|n]; simpl;
    auto.
Qed.

(** A slice holds elements of the list only. *)
Lemma py_slice_Forall {A : Type} (P : A -> Prop) (l : list A) (a b : Z) :
  Forall P l -> Forall P (py_slice l a b).
Proof.
  intros H. unfold py_slice. now apply Forall_firstn, Forall_skipn.
Qed.

Lemma not_space_not_SP (c : ascii) : isspace c = false -> Ascii.eqb c SP = false.
Proof.
  intros H. destruct (Ascii.eqb_spec c SP) as [->|]; [discriminate|reflexivity].
Qed.

Lemma not_space_not_NL (c : ascii) : isspace c = false -> Ascii.eqb NL c = false.
Proof.
  intros H. destruct (Ascii.eqb_spec NL c) as [<-|]; [discriminate|reflexivity].
Qed.

Lemma double_space_cons (c : ascii) (r : str) :
  Ascii.eqb c SP = false -> has_double_space (c :: r) = has_double_space r.
Proof.
  intros H. destruct r as [|d r]; [reflexivity|].
  change (has_double_space (c :: d :: r))
    with (Ascii.eqb c SP && Ascii.eqb d SP || has_double_space (d :: r)).
  now rewrite H.
Qed.

Lemma double_space_SP_cons (d : ascii) (r : str) :
  Ascii.eqb d SP = false ->
  has_double_space (SP :: d :: r) = has_double_space (d :: r).
Proof.
  intros H.
  change (has_double_space (SP :: d :: r))
    with (Ascii.eqb SP SP && Ascii.eqb d SP || has_double_space (d :: r)).
  now rewrite H.
Qed.

Lemma double_space_word (w r : str) :
  Forall (fun c => isspace c = false) w ->
  has_double_space (w ++ r) = has_double_space r.
Proof.
  induction 1 as [|c w Hc _ IH]; [reflexivity|].
  simpl app. rewrite double_space_cons by now apply not_space_not_SP.
  exact IH.
Qed.

(** Words joined by single spaces: no two spaces in a row. *)
Lemma join_no_double_space (ws : list str) :
  Forall word_ok ws -> has_double_space (join [SP] ws) = false.
Proof.
  induction 1 as [|w ws [Hne Hw] Hws IH]; [reflexivity|].
  destruct ws as [|w2 ws].
  - simpl. rewrite <- (app_nil_r w). now rewrite double_space_word.
  - change (join [SP] (w :: w2 :: ws)) with (w ++ SP :: join [SP] (w2 :: ws)).
    rewrite double_space_word by exact Hw.
    inversion Hws as [|? ? [Hne2 Hw2] _]; subst.
    destruct w2 as [|d w2]; [congruence|]. inversion Hw2; subst.
    etransitivity; [|exact IH].
    destruct ws; apply double_space_SP_cons; now apply not_space_not_SP.
Qed.

(** ... and no newline. *)
Lemma join_no_newline (ws : list str) :
  Forall word_ok ws -> has_newline (join [SP] ws) = false.
Proof.
  unfold has_newline.
  induction 1 as [|w ws [Hne Hw] Hws IH]; [reflexivity|].
  assert (Hword : existsb (Ascii.eqb NL) w = false).
  { clear -Hw. induction Hw as [|c w Hc _ IH]; [reflexivity|].
    cbn [existsb]. now rewrite not_space_not_NL. }
  destruct ws as [|w2 ws]; [exact Hword|].
  change (join [SP] (w :: w2 :: ws)) with (w ++ SP :: join [SP] (w2 :: ws)).
  rewrite existsb_app, Hword. exact IH.
Qed.

(** Every chunk of the loop is a window of the words, joined by spaces. *)
Lemma window_loop_texts (cfg : Config) (fuel : nat) (words hs : list str)
    (u ttl : str) (m : option str) (start : Z) (r : list SectionChunk) :
  window_loop cfg fuel words hs u ttl m start = Some r ->
  Forall (fun c => exists s : Z,
                     sc_text c = join [SP] (window cfg words s)) r.
Proof.
  revert start r. induction fuel as [|fuel IH]; intros start r; [discriminate|].
  simpl. destruct (start <? _)%Z; [|intros [= <-]; constructor].
  destruct (_ >=? _)%Z.
  - intros [= <-]. repeat constructor. now exists start.
  - destruct (window_loop cfg fuel words hs u ttl m _) as [r'|] eqn:E;
      [|discriminate].
    intros [= <-]. constructor; [now exists start|]. now apply (IH _ _ E).
Qed.

End TextFacts.



(* ================================================================== *)
(** ** The overlap between consecutive windows *)

Module OverlapFacts.

Lemma split_word (w : str) : word_ok w -> split w = [w].
Proof.
  intros [Hne Hw]. induction Hw as [|c w Hc Hw IH]; [congruence|].
  simpl. rewrite Hc. destruct w as [|d w].
  - reflexivity.
  - inversion Hw as [|? ? Hd _]; subst. cbn [starts_word]. rewrite Hd.
    cbn [negb]. rewrite IH by discriminate. reflexivity.
Qed.

(** Splitting gives back the words that were joined by single spaces. *)
Lemma split_join_words (ws : list str) :
  Forall word_ok ws -> split (join [SP] ws) = ws.
Proof.
  induction 1 as [|w ws Hw Hws IH]; [reflexivity|].
  destruct ws as [|w2 ws]; [now apply split_word|].
  change (join [SP] (w :: w2 :: ws)) with (w ++ SP :: join [SP] (w2 :: ws)).
  rewrite split_app_space by reflexivity.
  now rewrite split_word, IH.
Qed.

Lemma skipn_firstn_sub {A : Type} (m n : nat) (l : list A) :
  skipn m (firstn n l) = firstn (n - m) (skipn m l).
Proof.
  revert n l. induction m as [|m IH]; intros n l.
  - now rewrite Nat.sub_0_r.
  - destruct n as [|n]; [reflexivity|].
    destruct l as [|x l]; [simpl; now rewrite firstn_nil|]. simpl. apply IH.
Qed.

(** A window that starts inside the list, as a [firstn] of a [skipn]. *)
Lemma window_inside (cfg : Config) (words : list str) (s : Z) :
  (0 <= s <= Z.of_nat (length words))%Z -> (0 <= chunk_size cfg)%Z ->
  window cfg words s
  = firstn (Z.to_nat (Z.min (s + chunk_size cfg) (Z.of_nat (length words)) - s))
           (skipn (Z.to_nat s) words).
Proof.
  intros Hs Hsize. unfold window, py_slice.
  destruct (Z.ltb_spec s 0); [lia|].
  destruct (Z.ltb_spec (Z.min (s + chunk_size cfg) (Z.of_nat (length words))) 0);
    [lia|].
  rewrite !Z.min_l by lia. rewrite (Z.min_l s) by lia.
  reflexivity.
Qed.

(** A full window and the window that the loop takes next share
    [chunk_overlap] words. *)
Lemma full_window_overlap (cfg : Config) (words : list str) (s : Z) :
  (0 <= chunk_overlap cfg < chunk_size cfg)%Z ->
  (0 <= s)%Z ->
  (s + chunk_size cfg <= Z.of_nat (length words))%Z ->
  last_n (Z.to_nat (chunk_overlap cfg)) (window cfg words s)
  = first_n (Z.to_nat (chunk_overlap cfg))
            (window cfg words (s + (chunk_size cfg - chunk_overlap cfg))).
Proof.
  intros Hcfg Hs Hfull.
  rewrite !window_inside by lia.
  rewrite Z.min_l by lia.
  unfold last_n, first_n.
  rewrite length_firstn, length_skipn.
  replace (Z.to_nat (s + chunk_size cfg - s)) with (Z.to_nat (chunk_size cfg))
    by lia.
  rewrite skipn_firstn_sub, skipn_skipn, firstn_firstn.
  f_equal; [|f_equal]; lia.
Qed.

(** The chunk at position [i] of the loop's result is the window that
    starts [i] steps after the first. *)
Lemma window_loop_nth (cfg : Config) (fuel : nat) (words hs : list str)
    (u ttl : str) (m : option str) (start : Z) (r : list SectionChunk)
    (i : nat) (c : SectionChunk) :
  window_loop cfg fuel words hs u ttl m start = Some r ->
  nth_error r i = Some c ->
  sc_text c
  = join [SP] (window cfg words
                 (start + Z.of_nat i * (chunk_size cfg - chunk_overlap cfg))).
Proof.
  revert start r i. induction fuel as [|fuel IH]; intros start r i;
    [discriminate|].
  simpl. destruct (start <? _)%Z; [|intros [= <-]; now destruct i].
  destruct (_ >=? _)%Z.
  - intros [= <-]. destruct i as [|[|i]]; try discriminate.
    intros [= <-]. simpl. now rewrite Z.add_0_r.
  - destruct (window_loop cfg fuel words hs u ttl m _) as [r'|] eqn:E;
      [|discriminate].
    intros [= <-]. destruct i as [|i].
    + intros [= <-]. simpl. now rewrite Z.add_0_r.
    + intros Hn. rewrite (IH _ _ _ E Hn). do 2 f_equal. lia.
Qed.

(** Between a chunk that is a full window and the next chunk the overlap
    is as configured. *)
Lemma overlap_after_full_window (cfg : Config) (fuel : nat) (t : str)
    (hs : list str) (u ttl : str) (m : option str)
    (chunks : list SectionChunk) (i : nat) (c1 c2 : SectionChunk) :
  (0 <= chunk_overlap cfg < chunk_size cfg)%Z ->
  (chunk_size cfg < Z.of_nat (length (split t)))%Z ->
  _chunk_section cfg fuel t hs u ttl m = Some chunks ->
  nth_error chunks i = Some c1 ->
  nth_error chunks (S i) = Some c2 ->
  (Z.of_nat i * (chunk_size cfg - chunk_overlap cfg) + chunk_size cfg
   <= Z.of_nat (length (split t)))%Z ->
  last_n (Z.to_nat (chunk_overlap cfg)) (split (sc_text c1))
  = first_n (Z.to_nat (chunk_overlap cfg)) (split (sc_text c2)).
Proof.
  intros Hcfg Hlong H H1 H2 Hfull. unfold _chunk_section in H.
  destruct (Z.leb_spec (Z.of_nat (length (split t))) (chunk_size cfg));
    [lia|].
  rewrite (window_loop_nth _ _ _ _ _ _ _ _ _ _ _ H H1).
  rewrite (window_loop_nth _ _ _ _ _ _ _ _ _ _ _ H H2).
  rewrite !split_join_words
    by (apply TextFacts.py_slice_Forall, split_words_ok).
  rewrite !Z.add_0_l.
  replace (Z.of_nat (S i) * (chunk_size cfg - chunk_overlap cfg))%Z
    with (Z.of_nat i * (chunk_size cfg - chunk_overlap cfg)
          + (chunk_size cfg - chunk_overlap cfg))%Z by lia.
  apply full_window_overlap; [exact Hcfg | nia | exact Hfull].
Qed.

End OverlapFacts.

(** C2 on the code: with windows of three words that overlap by two, the
    section [a b c d] comes back as the four chunks [a b c], [b c d], [c d]
    and [d]: the loop goes on after a window has reached the last word, and
    the last two words of [c d] are not the first two words of [d]. *)
Theorem overlap_broken_at_tail :
  let chunks :=
    chunks_of (_chunk_section cfg_3_2 9 (lit "a b c d") [] [] [] None) in
  (0 <= chunk_overlap cfg_3_2 < chunk_size cfg_3_2)%Z
  /\ (chunk_size cfg_3_2 < Z.of_nat (length (split (lit "a b c d"))))%Z
  /\ _chunk_section cfg_3_2 9 (lit "a b c d") [] [] [] None = Some chunks
  /\ map sc_text chunks = [lit "a b c"; lit "b c d"; lit "c d"; lit "d"]
  /\ exists c2 c3,
       nth_error chunks 2 = Some c2
       /\ nth_error chunks 3 = Some c3
       /\ last_n 2 (split (sc_text c2)) = [lit "c"; lit "d"]
       /\ first_n 2 (split (sc_text c3)) = [lit "d"]
       /\ last_n 2 (split (sc_text c2)) <> first_n 2 (split (sc_text c3)).
Proof.
  intros chunks. split; [simpl; lia|]. split; [simpl; lia|].
  split; [reflexivity|]. split; [reflexivity|].
  do 2 eexists. split; [reflexivity|]. split; [reflexivity|].
  split; [reflexivity|]. split; [reflexivity|]. discriminate.
Qed.

(** The same under the default configuration: a section of 1450 words
    gives windows of 800, 750 and 50 words; the second window already ends
    at the last word, and the third has fewer words than the overlap. *)
Example overlap_broken_default :
  map (fun c => length (split (sc_text c)))
      (chunks_of (_chunk_section default_config 9
                    (concat (repeat (lit "word ") 1450)) [] [] [] None))
  = [800; 750; 50].
Proof. vm_compute. reflexivity. Qed.

(* ================================================================== *)
(** ** The example of a heading and a thousand words *)

Lemma intro_example_run (fuel : nat) :
  2 <= fuel ->
  chunk_document default_config fuel doc_intro = Some intro_chunks.
Proof.
  intros Hf.
  apply (LoopFacts.chunk_document_mono default_config 2 fuel); [|exact Hf].
  vm_compute. reflexivity.
Qed.

Lemma intro_example_word_counts :
  map (fun c => length (split (c_text c))) intro_chunks = [800; 302].
Proof. vm_compute. reflexivity. Qed.

(** C4, as the code has it: the document [# Intro] followed by [word] a
    thousand times gives two chunks under the default configuration.  The
    heading line is part of the text of its section, so the word stream has
    1002 words: chunk 0 holds the words 0..799 (the two words of the heading
    line and 798 times [word]), chunk 1 the 302 words 700..1001; both carry
    the heading [Intro] and [total_chunks = 2]. *)
Theorem intro_example_chunks (fuel : nat) :
  2 <= fuel ->
  exists chunks,
    chunk_document default_config fuel doc_intro = Some chunks
    /\ length chunks = 2
    /\ length intro_stream = 1002
    /\ map (fun c => split (c_text c)) chunks
       = [firstn 800 intro_stream; skipn 700 intro_stream]
    /\ map (fun c => length (split (c_text c))) chunks = [800; 302]
    /\ map heading_hierarchy chunks = [lit "Intro"; lit "Intro"]
    /\ map chunk_index chunks = [0; 1]
    /\ map total_chunks chunks = [2; 2]
    /\ map chunk_id chunks = [lit "3a1b40c4_0"; lit "3a1b40c4_1"].
Proof.
  intros Hf.
  exists intro_chunks.
  split; [now apply intro_example_run|].
  repeat split; vm_compute; reflexivity.
Qed.

Lemma intro_example_chunks_witness :
  exists chunks,
    chunk_document default_config 2 doc_intro = Some chunks
    /\ length chunks = 2
    /\ map (fun c => length (split (c_text c))) chunks = [800; 302].
Proof.
  destruct (intro_example_chunks 2 (le_n 2))
    as [chunks [H1 [H2 [_ [_ [H3 _]]]]]].
  exists chunks. split; [exact H1|]. split; [exact H2 | exact H3].
Defined.

(** C4 as stated fails: the second chunk does not have 300 words. *)
Lemma intro_example_not_300 :
  ~ (exists fuel c0 c1,
        chunk_document default_config fuel doc_intro = Some [c0; c1]
        /\ length (split (c_text c0)) = 800
        /\ heading_hierarchy c0 = lit "Intro"
        /\ length (split (c_text c1)) = 300
        /\ total_chunks c0 = 2 /\ total_chunks c1 = 2).
Proof.
  intros (fuel & c0 & c1 & H & _ & _ & H300 & _).
  pose proof (intro_example_run (Nat.max fuel 2) (Nat.le_max_r _ _)) as H1.
  pose proof intro_example_word_counts as H3.
  revert H1 H3. generalize intro_chunks. intros chunks H1 H3.
  rewrite (LoopFacts.chunk_document_mono default_config fuel _ _ _ H
             (Nat.le_max_l _ _)) in H1.
  injection H1 as <-. cbn [map] in H3. congruence.
Qed.

(* ================================================================== *)
(** ** [validate_metadata] *)

Module ValidateFacts.

Import Retrieve.

Lemma truthy_present (v : option pyval) :
  str_or_none v = true -> truthy (get v) = present_nonempty v.
Proof. destruct v as [[|s|z|x]|]; try discriminate; reflexivity. Qed.

Lemma required_issues_nil (r : Result) :
  str_or_none (text r) = true -> str_or_none (url r) = true ->
  str_or_none (title r) = true -> str_or_none (chunk_id r) = true ->
  required_issues r = []
  <-> present_nonempty (text r) && present_nonempty (url r)
      && present_nonempty (title r) && present_nonempty (chunk_id r) = true.
Proof.
  intros H1 H2 H3 H4.
  unfold required_issues. cbn [flat_map fst snd].
  rewrite !truthy_present by assumption.
  destruct (present_nonempty (text r)), (present_nonempty (url r)),
    (present_nonempty (title r)), (present_nonempty (chunk_id r));
    simpl; split; (reflexivity || discriminate).
Qed.

Lemma url_issues_typed (r : Result) :
  str_or_none (url r) = true ->
  exists found, url_issues r = Ok found
                /\ (found = [] <-> url_scheme_ok r = true).
Proof.
  unfold url_issues, url_scheme_ok, get_default.
  destruct (url r) as [[|[|c u]|z|x]|]; try discriminate; intros _;
    try (eexists; split; [reflexivity | tauto]).
  cbn [truthy length Nat.eqb negb andb].
  destruct (startswith (lit "http://") (c :: u)
            || startswith (lit "https://") (c :: u));
    cbn [negb]; eexists; (split; [reflexivity|]); split;
    (reflexivity || discriminate).
Qed.

Lemma Qle_bool_inject (a b : Z) :
  Qle_bool (inject_Z a) (inject_Z b) = (a <=? b)%Z.
Proof. unfold Qle_bool, inject_Z. cbn [Qnum Qden]. now rewrite !Z.mul_1_r. Qed.

Lemma index_issues_typed (r : Result) :
  int_or_none (chunk_index r) = true ->
  int_or_none (total_chunks r) = true ->
  exists found, index_issues r = Ok found
                /\ (found = [] <-> index_in_range r = true).
Proof.
  unfold index_issues, index_in_range, get.
  destruct (chunk_index r) as [[|s|i|x]|]; try discriminate; intros _;
    destruct (total_chunks r) as [[|s'|t|x']|]; try discriminate; intros _;
    try (eexists; split; [reflexivity | tauto]).
  cbn [as_number num_le num_lt].
  change (Qle_bool 0 (inject_Z i)) with (Qle_bool (inject_Z 0) (inject_Z i)).
  rewrite !Qle_bool_inject, Z.ltb_antisym.
  destruct (0 <=? i)%Z; [destruct (t <=? i)%Z|]; cbn [negb andb];
    eexists; (split; [reflexivity|]); split; (reflexivity || discriminate).
Qed.

Lemma score_issues_typed (r : Result) :
  number_or_absent (score r) = true ->
  exists found, score_issues r = Ok found
                /\ (found = [] <-> score_in_range r = true).
Proof.
  unfold score_issues, score_in_range, score_of, get_default.
  destruct (score r) as [[|s|z|x]|]; try discriminate; intros _;
    cbn [as_number];
    match goal with
    | |- context [num_le ?a ?b && num_le ?c ?d] =>
        destruct (num_le a b && num_le c d)
    end;
    eexists; (split; [reflexivity|]); split; (reflexivity || discriminate).
Qed.

(** On a record with the types of the data model no check raises, and the
    code finds no issue exactly when the record is well formed. *)
Lemma chunk_issues_typed (r : Result) :
  well_typed r = true ->
  exists found, chunk_issues r = Ok found
                /\ (found = [] <-> spec_well_formed r = true).
Proof.
  unfold well_typed. rewrite !andb_true_iff.
  intros [[[[[[T1 T2] T3] T4] T5] T6] T7].
  destruct (url_issues_typed r T2) as (u & Eu & Hu).
  destruct (index_issues_typed r T5 T6) as (i & Ei & Hi).
  destruct (score_issues_typed r T7) as (s & Es & Hs).
  pose proof (required_issues_nil r T1 T2 T3 T4) as Hr.
  unfold chunk_issues. rewrite Eu, Ei, Es. cbn [bind].
  eexists. split; [reflexivity|].
  unfold spec_well_formed, others_ok. split.
  - intros H. apply app_eq_nil in H. destruct H as [H1 H].
    apply app_eq_nil in H. destruct H as [H2 H].
    apply app_eq_nil in H. destruct H as [H3 H4].
    apply Hr in H1. apply Hu in H2. apply Hi in H3. apply Hs in H4.
    now rewrite H1, H2, H3, H4.
  - intros H. apply andb_true_iff in H. destruct H as [H H3].
    apply andb_true_iff in H. destruct H as [H H4].
    apply andb_true_iff in H. destruct H as [H1 H2].
    apply Hr in H1. apply Hu in H2. apply Hi in H3. apply Hs in H4.
    now rewrite H1, H2, H3, H4.
Qed.

Lemma chunk_issues_typed_b (r : Result) (found : list Issue) :
  well_typed r = true ->
  chunk_issues r = Ok found ->
  match found with [] => true | _ :: _ => false end = spec_well_formed r.
Proof.
  intros T E. destruct (chunk_issues_typed r T) as (l & El & H).
  rewrite E in El. injection El as <-.
  destruct found, (spec_well_formed r); try reflexivity.
  - now destruct H as [H _]; specialize (H eq_refl).
  - now destruct H as [_ H]; specialize (H eq_refl).
Qed.

(** What the loop has done after the pairs [l]. *)
Lemma loop_validate (l : list (nat * Result)) (v : ValidationResults) :
  Forall (fun ir => well_typed (snd ir) = true) l ->
  exists v',
    validate_loop l v = Ok v'
    /\ v_total_chunks v' = v_total_chunks v
    /\ passed v' = passed v + length (filter spec_well_formed (map snd l))
    /\ failed v'
       = failed v
         + length (filter (fun r => negb (spec_well_formed r)) (map snd l))
    /\ issues v' = issues v ++ flat_map entry_of l.
Proof.
  revert v. induction l as [|[i r] l IH]; intros v Hall.
  - exists v. simpl. rewrite app_nil_r. repeat split; lia.
  - inversion Hall as [|? ? T Hall']; subst. cbn [snd] in T.
    destruct (chunk_issues_typed r T) as (found & E & _).
    pose proof (chunk_issues_typed_b r found T E) as Hb.
    cbn [validate_loop map filter flat_map snd].
    unfold validate_one at 1. rewrite E. cbn [bind].
    unfold entry_of at 1. cbn [fst snd]. rewrite E. rewrite <- Hb.
    destruct found as [|x found]; cbn [bind];
      match goal with
      | |- context [validate_loop l ?w] =>
          destruct (IH w Hall') as (v' & E' & H1 & H2 & H3 & H4)
      end;
      exists v'; (split; [exact E'|]);
      cbn [v_total_chunks passed failed issues] in H1, H2, H3, H4;
      cbn [negb length app]; rewrite H1, H2, H3, H4;
      repeat split; try lia.
    now rewrite <- app_assoc.
Qed.

Lemma in_combine_seq {A : Type} (l : list A) (k i : nat) (x : A) :
  nth_error l i = Some x -> In (k + i, x) (combine (seq k (length l)) l).
Proof.
  revert k i. induction l as [|y l IH]; intros k [|i] H; try discriminate.
  - injection H as ->. left. now rewrite Nat.add_0_r.
  - right. rewrite <- Nat.add_succ_comm. now apply IH.
Qed.

Lemma combine_seq_in {A : Type} (l : list A) (k i : nat) (x : A) :
  In (i, x) (combine (seq k (length l)) l) ->
  k <= i /\ nth_error l (i - k) = Some x.
Proof.
  revert k. induction l as [|y l IH]; intros k; [intros []|].
  intros [[= <- <-]|H].
  - rewrite Nat.sub_diag. split; [lia | reflexivity].
  - destruct (IH _ H) as [Hle Hn]. split; [lia|].
    replace (i - k) with (S (i - S k)) by lia. exact Hn.
Qed.

(** The entries of the list of issues, read back: an entry at position [i]
    is the entry of the record at position [i], which has an issue. *)
Lemma entries_read_back (rs : list Result) (e : IssueEntry) :
  In e (flat_map entry_of (combine (seq 0 (length rs)) rs)) ->
  exists r x found,
    nth_error rs (ie_chunk_index e) = Some r
    /\ chunk_issues r = Ok (x :: found)
    /\ e = {| ie_chunk_index := ie_chunk_index e;
              ie_chunk_id := id_or_unknown r;
              ie_issues := x :: found |}.
Proof.
  intros He. apply in_flat_map in He. destruct He as [[j r] [Hj He]].
  unfold entry_of in He. cbn [fst snd] in He.
  destruct (chunk_issues r) as [[|x found]|err] eqn:E; try contradiction.
  destruct He as [<-|[]]. cbn [ie_chunk_index].
  apply combine_seq_in in Hj. destruct Hj as [_ Hj].
  rewrite Nat.sub_0_r in Hj. now exists r, x, found.
Qed.

(** The entries that a loop over [enumerate] adds, at most one for each
    position, come in the order of the positions. *)
Lemma flat_map_positions_sorted {A B : Type} (pos : B -> nat)
    (f : nat * A -> list B) (l : list A) (k : nat) :
  (forall i x, f (i, x) = [] \/ exists b, f (i, x) = [b] /\ pos b = i) ->
  StronglySorted lt (map pos (flat_map f (combine (seq k (length l)) l)))
  /\ Forall (le k) (map pos (flat_map f (combine (seq k (length l)) l))).
Proof.
  intros Hf. revert k. induction l as [|x l IH]; intros k.
  - split; constructor.
  - cbn [length seq combine flat_map]. destruct (IH (S k)) as [Hs Hk].
    assert (Hk' : Forall (lt k)
              (map pos (flat_map f (combine (seq (S k) (length l)) l))))
      by (eapply Forall_impl; [|exact Hk]; cbv beta; intros; lia).
    destruct (Hf k x) as [->|(b & -> & Hb)]; cbn [app map].
    + split; [exact Hs|]. eapply Forall_impl; [|exact Hk].
      cbv beta; intros; lia.
    + rewrite Hb. split.
      * constructor; assumption.
      * constructor; [lia|]. eapply Forall_impl; [|exact Hk].
        cbv beta; intros; lia.
Qed.

End ValidateFacts.

Import Retrieve.

(** The three checks that read a value by its type raise on a value of
    another type: [url.startswith] on a number, the comparison of a string
    with [0] and of [None] with [0.0]. *)
Example validate_metadata_raising_records :
  validate_metadata [sample_url_7] = Raise AttributeError
  /\ validate_metadata [sample_index_str] = Raise TypeError
  /\ validate_metadata [sample_score_none] = Raise TypeError
  /\ validate_metadata [sample_result None None; sample_score_none]
     = Raise TypeError.
Proof. repeat split. Qed.

(** C7, as the claim states it, fails: [validate_metadata] raises on a
    list that holds a record whose url is the number 7. *)
Lemma validate_metadata_raises :
  validate_metadata [sample_url_7] = Raise AttributeError
  /\ ~ (forall rs : list Result,
          exists v, validate_metadata rs = Ok v
                    /\ passed v + failed v = length rs).
Proof.
  split; [reflexivity|]. intros H.
  destruct (H [sample_url_7]) as (v & Hv & _). discriminate Hv.
Qed.

(** C7: on every list of records whose fields have the types of the data
    model (text, url, title, chunk_id a string, chunk_index, total_chunks an
    integer, each possibly absent or [None]; the score a number, possibly
    absent), [validate_metadata] does not raise: it returns counts with
    [passed + failed = total_chunks = len(chunks)].  A record counts as
    passed exactly when it is well formed: text, url, title and chunk_id
    present and not empty, a non-empty url starting with [http://] or
    [https://], [0 <= chunk_index < total_chunks] when both are present, and
    the score (0 when the record has none) in [0, 1]; every other record
    counts as failed and has one entry in the list of issues, with its
    position, with what [chunk.get('chunk_id', 'unknown')] returns and with
    the issues found; the list of issues has nothing else.  A record well
    formed in every other way with [chunk_index = 5] and [total_chunks = 3]
    is recorded as failed with exactly one issue. *)
Theorem validate_metadata_counts (rs : list Result) :
  Forall (fun r => well_typed r = true) rs ->
  exists v,
    validate_metadata rs = Ok v
    /\ v_total_chunks v = length rs
    /\ passed v + failed v = length rs
    /\ passed v = length (filter spec_well_formed rs)
    /\ failed v = length (filter (fun r => negb (spec_well_formed r)) rs)
    /\ issues v = flat_map entry_of (combine (seq 0 (length rs)) rs)
    /\ (forall r, well_typed r = true ->
          Retrieve.chunk_issues r = Ok [] <-> spec_well_formed r = true)
    /\ (forall i r, nth_error rs i = Some r ->
          exists found,
            Retrieve.chunk_issues r = Ok found
            /\ (found = [] <-> spec_well_formed r = true)
            /\ (spec_well_formed r = false
                <-> In {| ie_chunk_index := i;
                          ie_chunk_id :=
                            match Retrieve.chunk_id r with
                            | Some stored => stored
                            | None => PStr (lit "unknown")
                            end;
                          ie_issues := found |} (issues v))
            /\ (spec_well_formed r = true
                <-> forall e, In e (issues v) -> ie_chunk_index e <> i)
            /\ (forall e, In e (issues v) -> ie_chunk_index e = i ->
                  ie_chunk_id e
                  = match Retrieve.chunk_id r with
                    | Some stored => stored
                    | None => PStr (lit "unknown")
                    end
                  /\ ie_issues e = found))
    /\ (forall e, In e (issues v) ->
          exists r, nth_error rs (ie_chunk_index e) = Some r
                    /\ spec_well_formed r = false)
    /\ Sorted lt (map ie_chunk_index (issues v))
    /\ (forall i r, nth_error rs i = Some r ->
          others_ok r = true ->
          Retrieve.chunk_index r = Some (PInt 5) ->
          Retrieve.total_chunks r = Some (PInt 3) ->
          spec_well_formed r = false
          /\ In {| ie_chunk_index := i;
                   ie_chunk_id :=
                     match Retrieve.chunk_id r with
                     | Some stored => stored
                     | None => PStr (lit "unknown")
                     end;
                   ie_issues := [InvalidChunkIndex (PInt 5) (PInt 3)] |}
                (issues v)).
Proof.
  intros Hall.
  destruct (ValidateFacts.loop_validate
              (combine (seq 0 (length rs)) rs)
              {| v_total_chunks := length rs; passed := 0; failed := 0;
                 issues := [] |}) as (v & Ev & H1 & H2 & H3 & H4).
  { apply Forall_forall. intros [j r] Hj. cbn [snd].
    apply ValidateFacts.combine_seq_in in Hj. destruct Hj as [_ Hj].
    apply nth_error_In in Hj. rewrite Forall_forall in Hall. now apply Hall. }
  exists v. split; [exact Ev|].
  rewrite LoopFacts.combine_seq_snd in H2, H3.
  cbn [v_total_chunks passed failed issues app] in H1, H2, H3, H4.
  assert (Hpos : forall i r, nth_error rs i = Some r ->
            exists found,
              Retrieve.chunk_issues r = Ok found
              /\ (found = [] <-> spec_well_formed r = true)
              /\ (spec_well_formed r = false
                  <-> In {| ie_chunk_index := i;
                            ie_chunk_id :=
                              match Retrieve.chunk_id r with
                              | Some stored => stored
                              | None => PStr (lit "unknown")
                              end;
                            ie_issues := found |} (issues v))
              /\ (spec_well_formed r = true
                  <-> forall e, In e (issues v) -> ie_chunk_index e <> i)
              /\ (forall e, In e (issues v) -> ie_chunk_index e = i ->
                    ie_chunk_id e
                    = match Retrieve.chunk_id r with
                      | Some stored => stored
                      | None => PStr (lit "unknown")
                      end
                    /\ ie_issues e = found)).
  { intros i r Hn. rewrite H4.
    assert (T : well_typed r = true)
      by (rewrite Forall_forall in Hall; apply Hall;
          now apply nth_error_In with i).
    destruct (ValidateFacts.chunk_issues_typed r T) as (found & E & Hnil).
    pose proof (ValidateFacts.chunk_issues_typed_b r found T E) as Hb.
    pose proof (ValidateFacts.in_combine_seq rs 0 i r Hn) as Hin.
    exists found. split; [exact E|]. split; [exact Hnil|].
    assert (Hback : forall e,
              In e (flat_map entry_of (combine (seq 0 (length rs)) rs)) ->
              ie_chunk_index e = i ->
              e = {| ie_chunk_index := i; ie_chunk_id := id_or_unknown r;
                     ie_issues := found |}
              /\ spec_well_formed r = false).
    { intros e He Hi.
      destruct (ValidateFacts.entries_read_back rs e He)
        as (r' & x & l & Hn' & E' & ->).
      cbn [ie_chunk_index] in Hi, Hn'. rewrite Hi in *.
      rewrite Hn in Hn'. injection Hn' as <-.
      rewrite E in E'. injection E' as ->. split; [reflexivity|].
      now rewrite <- Hb. }
    assert (Hiff : spec_well_formed r = false
             <-> In {| ie_chunk_index := i; ie_chunk_id := id_or_unknown r;
                       ie_issues := found |}
                    (flat_map entry_of (combine (seq 0 (length rs)) rs))).
    { split.
      - intros Hf. apply in_flat_map. exists (i, r). split; [exact Hin|].
        unfold entry_of. cbn [fst snd]. rewrite E. rewrite Hf in Hb.
        destruct found; [discriminate|]. now left.
      - intros He. now apply (Hback _ He). }
    split; [exact Hiff|]. split; [split|].
    - intros Ht e He Hi. destruct (Hback e He Hi) as [_ Hf]. congruence.
    - intros Hno. destruct (spec_well_formed r) eqn:Ew; [reflexivity|].
      exfalso. apply (Hno _ (proj1 Hiff eq_refl)). reflexivity.
    - intros e He Hi. destruct (Hback e He Hi) as [-> _]. now split. }
  split; [exact H1|]. split; [|split; [exact H2|split; [exact H3|]]].
  { rewrite H2, H3. clear. induction rs as [|r rs IH]; [reflexivity|].
    simpl. destruct (spec_well_formed r); simpl; lia. }
  split; [exact H4|]. split.
  { intros r T. destruct (ValidateFacts.chunk_issues_typed r T)
      as (found & E & Hnil). rewrite E. rewrite <- Hnil. split.
    - now intros [= ->].
    - now intros ->. }
  split; [exact Hpos|]. split.
  { intros e He. rewrite H4 in He.
    destruct (ValidateFacts.entries_read_back rs e He)
      as (r & x & l & Hn & E & _).
    exists r. split; [exact Hn|].
    assert (T : well_typed r = true)
      by (rewrite Forall_forall in Hall; apply Hall;
          now apply nth_error_In with (ie_chunk_index e)).
    now rewrite <- (ValidateFacts.chunk_issues_typed_b r (x :: l) T E). }
  split.
  { rewrite H4. apply StronglySorted_Sorted.
    apply (ValidateFacts.flat_map_positions_sorted ie_chunk_index entry_of).
    intros i x. unfold entry_of. cbn [fst snd].
    destruct (Retrieve.chunk_issues x) as [[|y l]|err]; [now left| |now left].
    right. eexists. split; reflexivity. }
  intros i r Hn Hok Hi Ht.
  assert (Hf : spec_well_formed r = false)
    by (unfold spec_well_formed, index_in_range; rewrite Hok, Hi, Ht;
        reflexivity).
  split; [exact Hf|].
  destruct (Hpos i r Hn) as (found & E & _ & Hiff & _).
  assert (E5 : Retrieve.chunk_issues r
               = Ok [InvalidChunkIndex (PInt 5) (PInt 3)]).
  { assert (T : well_typed r = true)
      by (rewrite Forall_forall in Hall; apply Hall;
          now apply nth_error_In with i).
    unfold well_typed in T. rewrite !andb_true_iff in T.
    destruct T as [[[[[[T1 T2] T3] T4] T5] T6] T7].
    unfold others_ok in Hok. apply andb_true_iff in Hok.
    destruct Hok as [Hok Hscore]. apply andb_true_iff in Hok.
    destruct Hok as [Hreq Hurl].
    apply (ValidateFacts.required_issues_nil r T1 T2 T3 T4) in Hreq.
    destruct (ValidateFacts.url_issues_typed r T2) as (u & Eu & Hu).
    destruct (ValidateFacts.score_issues_typed r T7) as (s & Es & Hs).
    apply Hu in Hurl. apply Hs in Hscore. subst u s.
    unfold Retrieve.chunk_issues. rewrite Eu, Es, Hreq.
    unfold index_issues. rewrite Hi, Ht. reflexivity. }
  rewrite E in E5. injection E5 as ->. now apply Hiff.
Qed.

Lemma validate_metadata_counts_witness :
  let bad := sample_result (Some (PInt 5)) (Some (PInt 3)) in
  let rs := [sample_result (Some (PInt 0)) (Some (PInt 3)); bad;
             sample_result (Some PNone) None; sample_id_none] in
  exists v,
    validate_metadata rs = Ok v
    /\ passed v = 2 /\ failed v = 2
    /\ issues v
       = [{| ie_chunk_index := 1; ie_chunk_id := PStr (lit "3a1b40c4_0");
             ie_issues := [InvalidChunkIndex (PInt 5) (PInt 3)] |};
          {| ie_chunk_index := 3; ie_chunk_id := PNone;
             ie_issues := [MissingOrEmpty (lit "chunk_id")] |}]
    /\ spec_well_formed bad = false.
Proof.
  intros bad rs.
  destruct (validate_metadata_counts rs) as (v & Ev & H).
  { repeat constructor. }
  exists v. split; [exact Ev|].
  destruct H as (_ & _ & Hp & Hf & Hi & _ & _ & _ & _ & H5).
  split; [exact Hp|]. split; [exact Hf|]. split; [exact Hi|].
  exact (proj1 (H5 1 bad eq_refl eq_refl eq_refl eq_refl)).
Defined.

(* ================================================================== *)
(** ** More about the heading split *)

Import Chunker.

Module SplitFacts.

Lemma join_app (sep : str) (l1 l2 : list str) :
  l1 <> [] -> l2 <> [] ->
  join sep (l1 ++ l2) = join sep l1 ++ sep ++ join sep l2.
Proof.
  intros H1 H2. induction l1 as [|x l1 IH]; [congruence|].
  destruct l1 as [|y l1].
  - destruct l2; [congruence | reflexivity].
  - change (join sep ((x :: y :: l1) ++ l2))
      with (x ++ sep ++ join sep ((y :: l1) ++ l2)).
    rewrite IH by discriminate.
    change (join sep (x :: y :: l1)) with (x ++ sep ++ join sep (y :: l1)).
    now rewrite <- !app_assoc.
Qed.

(** Joining joined groups of lines is joining all the lines. *)
Lemma join_groups (sep : str) (gs : list (list str)) :
  Forall (fun g => g <> []) gs ->
  join sep (map (join sep) gs) = join sep (concat gs).
Proof.
  induction 1 as [|g gs Hg Hgs IH]; [reflexivity|].
  destruct gs as [|g2 gs].
  - simpl. now rewrite app_nil_r.
  - change (join sep (map (join sep) (g :: g2 :: gs)))
      with (join sep g ++ sep ++ join sep (map (join sep) (g2 :: gs))).
    rewrite IH.
    change (concat (g :: g2 :: gs)) with (g ++ concat (g2 :: gs)).
    rewrite (join_app sep g (concat (g2 :: gs)));
      [reflexivity | exact Hg |].
    inversion Hgs as [|? ? Hg2 _]; subst.
    destruct g2; [congruence | discriminate].
Qed.

(** The saved sections are the lines seen so far, cut into groups. *)
Lemma scan_groups (ls : list str) :
  exists gs : list (list str),
    Forall (fun g => g <> []) gs
    /\ map text (sections (scan ls)) = map (join [NL]) gs
    /\ concat gs ++ cur_text (scan ls) = ls.
Proof.
  induction ls as [|l ls IH] using rev_ind.
  - exists []. now repeat split.
  - destruct IH as (gs & Hne & Htext & Hcat).
    rewrite ScanFacts.scan_snoc. unfold scan_line.
    destruct (heading_match l) as [[g1 g2]|]; cbn [sections cur_text].
    + unfold save_section.
      destruct (cur_text (scan ls)) as [|c cs] eqn:E.
      * exists gs. rewrite app_nil_r in Hcat. now subst.
      * exists (gs ++ [c :: cs]). split; [|split].
        -- apply Forall_app. split; [exact Hne|]. now repeat constructor.
        -- rewrite !map_app, Htext. reflexivity.
        -- rewrite concat_app. simpl. rewrite app_nil_r. now rewrite Hcat.
    + exists gs. split; [exact Hne|]. split; [exact Htext|].
      now rewrite app_assoc, Hcat.
Qed.

Lemma save_section_lines (ls : list str) :
  join [NL] (map text (save_section (scan ls))) = join [NL] ls.
Proof.
  destruct (scan_groups ls) as (gs & Hne & Htext & Hcat).
  unfold save_section. destruct (cur_text (scan ls)) as [|c cs] eqn:E.
  - rewrite Htext, join_groups by exact Hne.
    rewrite app_nil_r in Hcat. now rewrite Hcat.
  - rewrite map_app, Htext. cbn [map text].
    change (map (join [NL]) gs ++ [join [NL] (c :: cs)])
      with (map (join [NL]) gs ++ map (join [NL]) [c :: cs]).
    rewrite <- map_app, join_groups.
    + rewrite concat_app. simpl. now rewrite app_nil_r, Hcat.
    + apply Forall_app. split; [exact Hne|]. now repeat constructor.
Qed.

End SplitFacts.

(** X1: the heading split loses no character: the texts of the sections
    of a text, joined by newlines, are the text. *)
Theorem split_by_headings_round_trip (t : str) :
  join [NL] (map text (_split_by_headings t)) = t.
Proof.
  unfold _split_by_headings.
  rewrite SplitFacts.save_section_lines. apply join_split_on.
Qed.

(* ================================================================== *)
(** ** Heading paths *)

Module PathFacts.

(** Strictly increasing numbers between [m] and [n]: at most [n + 1 - m]
    of them. *)
Lemma increasing_length (l : list nat) (m n : nat) :
  StronglySorted lt l ->
  Forall (fun x => m <= x <= n) l ->
  length l <= n + 1 - m.
Proof.
  revert m. induction l as [|x l IH]; intros m Hs Hb; [simpl; lia|].
  inversion Hs as [|? ? Hs' Hlt]; subst.
  inversion Hb as [|? ? Hx Hb']; subst.
  assert (Hb2 : Forall (fun y => S x <= y <= n) l).
  { rewrite Forall_forall in *. intros y Hy.
    specialize (Hlt y Hy). specialize (Hb' y Hy). lia. }
  specialize (IH (S x) Hs' Hb2). simpl. lia.
Qed.

Lemma push_heading_levels (stack : list Heading) (lvl : nat) (t : str) :
  1 <= lvl <= 6 ->
  Forall (fun h => 1 <= level h <= 6) stack ->
  Forall (fun h => 1 <= level h <= 6) (push_heading stack lvl t).
Proof.
  intros Hl H. unfold push_heading. apply Forall_app. split.
  - rewrite Forall_forall in *. intros h Hh. apply filter_In in Hh.
    now apply H.
  - constructor; [exact Hl | constructor].
Qed.

Lemma scan_stack_levels (ls : list str) :
  Forall (fun h => 1 <= level h <= 6) (heading_stack (scan ls)).
Proof.
  induction ls as [|l ls IH] using rev_ind; [constructor|].
  rewrite ScanFacts.scan_snoc. unfold scan_line.
  destruct (heading_match l) as [[g1 g2]|] eqn:E; simpl; [|exact IH].
  apply push_heading_levels; [|exact IH].
  now apply (StackFacts.heading_match_level l g1 g2).
Qed.

(** A heading stack has at most six entries. *)
Lemma scan_stack_depth (ls : list str) :
  length (heading_stack (scan ls)) <= 6.
Proof.
  pose proof (increasing_length (map level (heading_stack (scan ls))) 1 6
                (StackFacts.scan_stack_increasing ls)) as H.
  rewrite length_map in H. apply H.
  rewrite Forall_map. apply scan_stack_levels.
Qed.

Lemma tl_app_not_nil {A : Type} (l1 l2 : list A) :
  l1 <> [] -> tl (l1 ++ l2) = tl l1 ++ l2.
Proof. destruct l1; [congruence | reflexivity]. Qed.

(** Once a section is saved the stack is not empty, and only the first
    saved section can have an empty path. *)
Lemma scan_paths (ls : list str) :
  (sections (scan ls) <> [] -> heading_stack (scan ls) <> [])
  /\ Forall (fun s => headings s <> []) (tl (sections (scan ls))).
Proof.
  induction ls as [|l ls [IH1 IH2]] using rev_ind.
  - split; [intros H; now elim H | constructor].
  - rewrite ScanFacts.scan_snoc. unfold scan_line.
    destruct (heading_match l) as [[g1 g2]|]; cbn [sections heading_stack];
      [|now split].
    split.
    + intros _. unfold push_heading. now destruct (filter _ _).
    + unfold save_section. destruct (cur_text (scan ls)); [exact IH2|].
      destruct (sections (scan ls)) as [|s0 ss] eqn:E; [constructor|].
      rewrite tl_app_not_nil by discriminate.
      apply Forall_app. split; [exact IH2|].
      repeat constructor. cbn [headings].
      rewrite StackFacts.scan_cur_headings.
      specialize (IH1 ltac:(discriminate)).
      destruct (heading_stack (scan ls)); [congruence | discriminate].
Qed.

Lemma save_section_paths (ls : list str) :
  Forall (fun s => headings s <> []) (tl (save_section (scan ls))).
Proof.
  destruct (scan_paths ls) as [H1 H2].
  unfold save_section. destruct (cur_text (scan ls)); [exact H2|].
  destruct (sections (scan ls)) as [|s0 ss] eqn:E; [constructor|].
  rewrite tl_app_not_nil by discriminate.
  apply Forall_app. split; [exact H2|].
  repeat constructor. cbn [headings].
  rewrite StackFacts.scan_cur_headings.
  specialize (H1 ltac:(discriminate)).
  destruct (heading_stack (scan ls)); [congruence | discriminate].
Qed.

End PathFacts.

(** X2: the heading path of every section has at most six entries, and
    only the first section of a text can have an empty path (the text before
    the first heading); every later section has at least its own heading. *)
Theorem heading_paths_bounded (t : str) :
  Forall (fun s => length (headings s) <= 6) (_split_by_headings t)
  /\ Forall (fun s => 1 <= length (headings s) <= 6)
            (tl (_split_by_headings t)).
Proof.
  assert (H6 : Forall (fun s => length (headings s) <= 6)
                      (_split_by_headings t)).
  { apply Forall_forall. intros s Hs.
    destruct (StackFacts.scan_sections_headings _ s Hs) as (p & q & _ & ->).
    rewrite length_map. apply PathFacts.scan_stack_depth. }
  split; [exact H6|].
  pose proof (PathFacts.save_section_paths (split_on NL t)) as Hne.
  fold (_split_by_headings t) in Hne.
  destruct (_split_by_headings t) as [|s ss]; [constructor|].
  inversion H6 as [|? ? _ Hss]; subst. cbn [tl] in *.
  rewrite Forall_forall in *. intros x Hx.
  specialize (Hne x Hx). specialize (Hss x Hx).
  destruct (headings x); [congruence | simpl in *; lia].
Qed.

(* ================================================================== *)
(** ** The windows of a long section *)

Module WindowFacts.

Section WithConfig.

Variable cfg : Config.
Hypothesis Hcfg : (0 <= chunk_overlap cfg < chunk_size cfg)%Z.

Variable words : list str.
Hypothesis Hwords : Forall word_ok words.

(** The number of words by which the loop moves on. *)
Let step : Z := (chunk_size cfg - chunk_overlap cfg)%Z.
Let n : Z := Z.of_nat (length words).

Lemma window_words (s : Z) :
  split (join [SP] (window cfg words s)) = window cfg words s.
Proof.
  apply OverlapFacts.split_join_words, TextFacts.py_slice_Forall, Hwords.
Qed.

Lemma window_length (s : Z) :
  (0 <= s < n)%Z ->
  Z.of_nat (length (window cfg words s)) = Z.min (chunk_size cfg) (n - s).
Proof.
  intros Hs. subst n. rewrite OverlapFacts.window_inside by lia.
  rewrite length_firstn, length_skipn. lia.
Qed.

Lemma window_first_step (s : Z) :
  (0 <= s < n)%Z ->
  firstn (Z.to_nat step) (window cfg words s)
  = firstn (Z.to_nat (Z.min step (n - s))) (skipn (Z.to_nat s) words).
Proof.
  intros Hs. subst n step. rewrite OverlapFacts.window_inside by lia.
  rewrite firstn_firstn. f_equal. lia.
Qed.

Lemma loop_facts (fuel : nat) (hs : list str) (u ttl : str)
    (m : option str) (s : Z) (r : list SectionChunk) :
  (0 <= s)%Z ->
  window_loop cfg fuel words hs u ttl m s = Some r ->
  concat (map (fun c => firstn (Z.to_nat step) (split (sc_text c))) r)
  = skipn (Z.to_nat s) words
  /\ Forall (fun c => (1 <= Z.of_nat (length (split (sc_text c)))
                       <= chunk_size cfg)%Z) r
  /\ Z.of_nat (length r)
     = (if (s <? n)%Z then (n - s + step - 1) / step else 0)%Z.
Proof.
  revert s r. induction fuel as [|fuel IH]; intros s r Hs; [discriminate|].
  simpl. fold n. destruct (Z.ltb_spec s n) as [Hlt|Hge].
  - fold step. destruct (Z.geb_spec (s + step) n) as [Hend|Hmore].
    + intros [= <-]. cbn [map concat sc_text mk_chunk length].
      rewrite window_words, app_nil_r. split; [|split].
      * rewrite window_first_step by lia.
        apply firstn_all2. rewrite length_skipn. subst n step. lia.
      * constructor; [|constructor]. cbn [sc_text mk_chunk].
        rewrite window_words, window_length by lia. subst step. lia.
      * change (Z.of_nat 1) with 1%Z.
        apply (Z.div_unique _ _ 1 (n - s - 1)); subst step; lia.
    + destruct (window_loop cfg fuel words hs u ttl m (s + step)) as [r'|]
        eqn:E; [|discriminate].
      intros [= <-].
      assert (Hs' : (0 <= s + step)%Z) by (subst step; lia).
      destruct (IH _ _ Hs' E) as (H1 & H2 & H3).
      cbn [map concat sc_text mk_chunk length].
      rewrite window_words. split; [|split].
      * rewrite H1, window_first_step by lia.
        replace (Z.to_nat (Z.min step (n - s))) with (Z.to_nat step) by lia.
        replace (Z.to_nat (s + step))
          with (Z.to_nat step + Z.to_nat s)%nat by (subst step; lia).
        rewrite <- skipn_skipn. apply firstn_skipn.
      * constructor; [|exact H2]. cbn [sc_text mk_chunk].
        rewrite window_words, window_length by lia. subst step. lia.
      * rewrite Nat2Z.inj_succ, H3.
        destruct (Z.ltb_spec (s + step) n); [|lia].
        replace (n - s + step - 1)%Z
          with (n - (s + step) + step - 1 + 1 * step)%Z by lia.
        rewrite Z.div_add by (subst step; lia). lia.
  - intros [= <-]. simpl. split; [|split]; [|constructor|reflexivity].
    symmetry. apply skipn_all2. subst n. lia.
Qed.

End WithConfig.

End WindowFacts.

(** X3: with [0 <= chunk_overlap < chunk_size], a section of more than
    [chunk_size] words gives ceil(n / (chunk_size - chunk_overlap)) chunks
    for its n words, and every chunk has at least one word and at most
    [chunk_size] words. *)
Theorem long_section_chunk_count (cfg : Config) (fuel : nat) (t : str)
    (hs : list str) (u ttl : str) (m : option str)
    (chunks : list SectionChunk) :
  (0 <= chunk_overlap cfg < chunk_size cfg)%Z ->
  (chunk_size cfg < Z.of_nat (length (split t)))%Z ->
  _chunk_section cfg fuel t hs u ttl m = Some chunks ->
  Z.of_nat (length chunks)
  = ((Z.of_nat (length (split t)) + (chunk_size cfg - chunk_overlap cfg) - 1)
     / (chunk_size cfg - chunk_overlap cfg))%Z
  /\ Forall (fun c => (1 <= Z.of_nat (length (split (sc_text c)))
                       <= chunk_size cfg)%Z) chunks.
Proof.
  intros Hcfg Hlong H. unfold _chunk_section in H.
  destruct (Z.leb_spec (Z.of_nat (length (split t))) (chunk_size cfg));
    [lia|].
  destruct (WindowFacts.loop_facts cfg Hcfg (split t) (split_words_ok t)
              fuel hs u ttl m 0 chunks ltac:(lia) H) as (_ & H2 & H3).
  split; [|exact H2]. rewrite H3.
  destruct (Z.ltb_spec 0 (Z.of_nat (length (split t)))); [|lia].
  now rewrite Z.sub_0_r.
Qed.

Lemma long_section_chunk_count_witness :
  let chunks := chunks_of (_chunk_section cfg_3_2 9 (lit "a b c d") [] [] [] None) in
  Z.of_nat (length chunks) = 4%Z
  /\ Forall (fun c => (1 <= Z.of_nat (length (split (sc_text c))) <= 3)%Z)
            chunks.
Proof.
  intros chunks.
  refine (long_section_chunk_count cfg_3_2 9 (lit "a b c d") [] [] [] None
            chunks _ _ eq_refl); simpl; lia.
Defined.

(** X4: with [0 <= chunk_overlap < chunk_size], the chunks of a section of
    more than [chunk_size] words hold every word of the section in order:
    the first [chunk_size - chunk_overlap] words of each chunk, put end to
    end, are the words of the section. *)
Theorem long_section_words_kept (cfg : Config) (fuel : nat) (t : str)
    (hs : list str) (u ttl : str) (m : option str)
    (chunks : list SectionChunk) :
  (0 <= chunk_overlap cfg < chunk_size cfg)%Z ->
  (chunk_size cfg < Z.of_nat (length (split t)))%Z ->
  _chunk_section cfg fuel t hs u ttl m = Some chunks ->
  concat (map (fun c =>
                 firstn (Z.to_nat (chunk_size cfg - chunk_overlap cfg))
                        (split (sc_text c))) chunks)
  = split t.
Proof.
  intros Hcfg Hlong H. unfold _chunk_section in H.
  destruct (Z.leb_spec (Z.of_nat (length (split t))) (chunk_size cfg));
    [lia|].
  exact (proj1 (WindowFacts.loop_facts cfg Hcfg (split t) (split_words_ok t)
                  fuel hs u ttl m 0 chunks ltac:(lia) H)).
Qed.

Lemma long_section_words_kept_witness :
  let chunks := chunks_of (_chunk_section cfg_3_2 9 (lit "a b c d") [] [] [] None) in
  concat (map (fun c => firstn 1 (split (sc_text c))) chunks)
  = [lit "a"; lit "b"; lit "c"; lit "d"].
Proof.
  intros chunks.
  refine (long_section_words_kept cfg_3_2 9 (lit "a b c d") [] [] [] None
            chunks _ _ eq_refl); simpl; lia.
Defined.

(* ================================================================== *)
(** ** What every chunk carries *)

Module CarryFacts.

Section WithConfig.

Variable cfg : Config.

Lemma window_loop_not_nil (fuel : nat) (words hs : list str) (u ttl : str)
    (m : option str) (r : list SectionChunk) :
  (0 < Z.of_nat (length words))%Z ->
  window_loop cfg fuel words hs u ttl m 0 = Some r -> r <> [].
Proof.
  intros Hn. destruct fuel as [|fuel]; [discriminate|]. simpl.
  destruct (Z.ltb_spec 0 (Z.of_nat (length words))); [|lia].
  destruct (_ >=? _)%Z; [intros [= <-]; discriminate|].
  destruct (window_loop cfg fuel words hs u ttl m _); [|discriminate].
  intros [= <-]. discriminate.
Qed.

Lemma chunk_section_not_nil (fuel : nat) (t : str) (hs : list str)
    (u ttl : str) (m : option str) (r : list SectionChunk) :
  (0 <= chunk_size cfg)%Z ->
  _chunk_section cfg fuel t hs u ttl m = Some r -> r <> [].
Proof.
  intros Hsize. unfold _chunk_section.
  destruct (Z.leb_spec (Z.of_nat (length (split t))) (chunk_size cfg)).
  - intros [= <-]. discriminate.
  - apply window_loop_not_nil. lia.
Qed.

Lemma chunk_sections_not_nil (fuel : nat) (secs : list Section)
    (u ttl : str) (m : option str) (r : list SectionChunk) :
  (0 <= chunk_size cfg)%Z -> secs <> [] ->
  chunk_sections cfg fuel secs u ttl m = Some r -> r <> [].
Proof.
  intros Hsize Hne. destruct secs as [|s secs]; [congruence|]. simpl.
  destruct (_chunk_section cfg fuel _ _ u ttl m) as [cs|] eqn:E;
    [|discriminate].
  apply (chunk_section_not_nil _ _ _ _ _ _ _ Hsize) in E.
  destruct (chunk_sections cfg fuel secs u ttl m); [|discriminate].
  intros [= <-]. destruct cs; [congruence | discriminate].
Qed.

Lemma window_loop_carries (fuel : nat) (words hs : list str) (u ttl : str)
    (m : option str) (start : Z) (r : list SectionChunk) :
  window_loop cfg fuel words hs u ttl m start = Some r ->
  Forall (carries hs u ttl m) r.
Proof.
  revert start r. induction fuel as [|fuel IH]; intros start r;
    [discriminate|].
  simpl. destruct (start <? _)%Z; [|intros [= <-]; constructor].
  destruct (_ >=? _)%Z.
  - intros [= <-]. repeat constructor.
  - destruct (window_loop cfg fuel words hs u ttl m _) as [r'|] eqn:E;
      [|discriminate].
    intros [= <-]. constructor; [now repeat split | now apply (IH _ _ E)].
Qed.

Lemma chunk_section_carries (fuel : nat) (t : str) (hs : list str)
    (u ttl : str) (m : option str) (r : list SectionChunk) :
  _chunk_section cfg fuel t hs u ttl m = Some r ->
  Forall (carries hs u ttl m) r.
Proof.
  unfold _chunk_section. destruct (_ <=? _)%Z.
  - intros [= <-]. repeat constructor.
  - apply window_loop_carries.
Qed.

Lemma chunk_sections_carries (fuel : nat) (secs : list Section)
    (u ttl : str) (m : option str) (r : list SectionChunk) :
  chunk_sections cfg fuel secs u ttl m = Some r ->
  Forall (fun c => exists s, In s secs /\ carries (headings s) u ttl m c) r.
Proof.
  revert r. induction secs as [|s secs IH]; intros r.
  - intros [= <-]. constructor.
  - simpl. destruct (_chunk_section cfg fuel _ _ u ttl m) as [cs|] eqn:E;
      [|discriminate].
    destruct (chunk_sections cfg fuel secs u ttl m) as [r'|]; [|discriminate].
    intros [= <-]. apply Forall_app. split.
    + apply chunk_section_carries in E.
      eapply Forall_impl; [|exact E]. intros c Hc. exists s. now split; [left|].
    + eapply Forall_impl; [|exact (IH r' eq_refl)].
      intros c [s' [Hin Hc]]. exists s'. now split; [right|].
Qed.

End WithConfig.

Lemma add_indices_in (u : str) (cs : list SectionChunk) (c : Chunk) :
  In c (add_indices u cs) ->
  exists sc, In sc cs
    /\ c_text c = sc_text sc /\ c_url c = sc_url sc
    /\ c_title c = sc_title sc /\ c_module c = sc_module sc
    /\ heading_hierarchy c = sc_heading_hierarchy sc.
Proof.
  unfold add_indices. intros H. apply in_map_iff in H.
  destruct H as [[i sc] [<- Hin]]. exists sc.
  apply in_combine_r in Hin. now repeat split.
Qed.

End CarryFacts.



(** X6: every chunk of a document carries the url, the title and the
    module of the document, and its heading hierarchy is that of a section
    of the heading split: the heading path joined by [" > "], or the title
    of the document when the path is empty. *)
Theorem chunks_carry_document (cfg : Config) (fuel : nat) (d : Document)
    (chunks : list Chunk) :
  chunk_document cfg fuel d = Some chunks ->
  Forall (fun c =>
            c_url c = url d /\ c_title c = title d /\ c_module c = module d
            /\ exists s, In s (_split_by_headings (content d))
                 /\ heading_hierarchy c
                    = match headings s with
                      | [] => title d
                      | _ :: _ => join (lit " > ") (headings s)
                      end) chunks.
Proof.
  unfold chunk_document.
  destruct (chunk_sections cfg fuel _ _ _ _) as [cs|] eqn:E; [|discriminate].
  intros [= <-]. apply CarryFacts.chunk_sections_carries in E.
  rewrite Forall_forall in *. intros c Hc.
  destruct (CarryFacts.add_indices_in _ _ _ Hc)
    as (sc & Hsc & _ & -> & -> & -> & ->).
  destruct (E sc Hsc) as (s & Hs & Hu & Ht & Hm & Hh).
  repeat split; try assumption. exists s. split; [exact Hs|].
  rewrite Hh. reflexivity.
Qed.

Lemma chunks_carry_document_witness :
  Forall (fun c => c_url c = url doc_nested /\ c_title c = title doc_nested)
         (chunks_of (chunk_document default_config 1 doc_nested)).
Proof.
  eapply Forall_impl;
    [|exact (chunks_carry_document default_config 1 doc_nested _ eq_refl)].
  intros c H. split; [exact (proj1 H) | exact (proj1 (proj2 H))].
Defined.

(* ================================================================== *)
(** ** [chunk_all_documents] *)

Module AllFacts.

Section WithConfig.

Variable cfg : Config.

Lemma chunk_all_app (fuel : nat) (l1 l2 : list Document)
    (chunks : list Chunk) :
  chunk_all_documents cfg fuel (l1 ++ l2) = Some chunks ->
  exists a b,
    chunk_all_documents cfg fuel l1 = Some a
    /\ chunk_all_documents cfg fuel l2 = Some b
    /\ chunks = a ++ b.
Proof.
  revert chunks. induction l1 as [|d l1 IH]; intros chunks H.
  - exists [], chunks. now repeat split.
  - simpl in *. destruct (chunk_document cfg fuel d) as [cs|]; [|discriminate].
    destruct (chunk_all_documents cfg fuel (l1 ++ l2)) as [r|];
      [|discriminate].
    destruct (IH r eq_refl) as (a & b & -> & Hb & ->).
    injection H as <-. exists (cs ++ a), b.
    now rewrite app_assoc.
Qed.

(** The chunks of a document start with the identifier of its url. *)
Lemma chunk_document_prefix (fuel : nat) (d : Document)
    (chunks : list Chunk) (c : Chunk) :
  chunk_document cfg fuel d = Some chunks -> In c chunks ->
  firstn 8 (chunk_id c) = _url_to_id (url d).
Proof.
  intros H Hc. destruct (chunk_document_inv _ _ _ _ H) as [cs ->].
  pose proof (LoopFacts.add_indices_forall (url d) cs) as Hall.
  rewrite Forall_forall in Hall. destruct (Hall c Hc) as [_ ->].
  rewrite firstn_app, IdFacts.url_to_id_length, Nat.sub_diag, firstn_O,
    app_nil_r.
  apply firstn_all2. now rewrite IdFacts.url_to_id_length.
Qed.

Lemma chunk_document_ids_NoDup (fuel : nat) (d : Document)
    (chunks : list Chunk) :
  chunk_document cfg fuel d = Some chunks -> NoDup (map chunk_id chunks).
Proof.
  intros H. destruct (chunk_document_inv _ _ _ _ H) as [cs ->].
  pose proof (LoopFacts.add_indices_forall (url d) cs) as Hall.
  assert (Hid : Forall (fun c =>
                          chunk_id c
                          = _url_to_id (url d) ++ lit "_"
                            ++ str_of_nat (chunk_index c))
                       (add_indices (url d) cs))
    by (eapply Forall_impl; [|exact Hall]; now intros c [_ Hi]).
  rewrite (map_ext_Forall_id chunk_id chunk_index
             (fun i => _url_to_id (url d) ++ lit "_" ++ str_of_nat i) _ Hid).
  rewrite LoopFacts.add_indices_index.
  apply Injective_map_NoDup; [|apply seq_NoDup].
  intros i j E. apply app_inv_head in E. apply app_inv_head in E.
  now apply IdFacts.str_of_nat_inj.
Qed.

Lemma chunk_all_prefix (fuel : nat) (docs : list Document)
    (chunks : list Chunk) (c : Chunk) :
  chunk_all_documents cfg fuel docs = Some chunks -> In c chunks ->
  exists d, In d docs /\ firstn 8 (chunk_id c) = _url_to_id (url d).
Proof.
  revert chunks. induction docs as [|d docs IH]; intros chunks.
  - intros [= <-] [].
  - simpl. destruct (chunk_document cfg fuel d) as [cs|] eqn:E;
      [|discriminate].
    destruct (chunk_all_documents cfg fuel docs) as [r|]; [|discriminate].
    intros [= <-] Hc. apply in_app_or in Hc. destruct Hc as [Hc|Hc].
    + exists d. split; [now left|]. now apply (chunk_document_prefix _ _ _ _ E).
    + destruct (IH r eq_refl Hc) as [d' [Hd' Hp]]. exists d'.
      split; [now right | exact Hp].
Qed.

(** The first chunk of a document. *)
Lemma chunk_document_head (fuel : nat) (d : Document)
    (chunks : list Chunk) :
  (0 <= chunk_size cfg)%Z ->
  chunk_document cfg fuel d = Some chunks ->
  exists c rest,
    chunks = c :: rest /\ chunk_id c = _url_to_id (url d) ++ lit "_0".
Proof.
  intros Hsize. unfold chunk_document.
  destruct (chunk_sections cfg fuel _ _ _ _) as [cs|] eqn:E; [|discriminate].
  intros [= <-].
  apply (CarryFacts.chunk_sections_not_nil _ _ _ _ _ _ _ Hsize
           (ScanFacts.split_by_headings_not_nil _)) in E.
  destruct cs as [|sc cs]; [congruence|].
  unfold add_indices. cbn [length seq combine map].
  do 2 eexists. split; reflexivity.
Qed.

End WithConfig.

End AllFacts.

(** X7: in the list that [chunk_all_documents] returns the chunk
    identifiers are pairwise distinct whenever the documents have pairwise
    distinct url identifiers (the first 8 hexadecimal characters of the MD5
    digest of the url). *)
Theorem all_chunk_ids_distinct (cfg : Config) (fuel : nat)
    (docs : list Document) (chunks : list Chunk) :
  chunk_all_documents cfg fuel docs = Some chunks ->
  NoDup (map (fun d => _url_to_id (url d)) docs) ->
  NoDup (map chunk_id chunks).
Proof.
  revert chunks. induction docs as [|d docs IH]; intros chunks.
  - intros [= <-] _. constructor.
  - simpl. destruct (chunk_document cfg fuel d) as [cs|] eqn:E;
      [|discriminate].
    destruct (chunk_all_documents cfg fuel docs) as [r|] eqn:Er;
      [|discriminate].
    intros [= <-] Hnd. inversion Hnd as [|? ? Hnot Hrest]; subst.
    rewrite map_app. apply NoDup_app.
    + now apply (AllFacts.chunk_document_ids_NoDup cfg _ _ _ E).
    + now apply IH.
    + intros i H1 H2. apply in_map_iff in H1. destruct H1 as [c1 [<- H1]].
      apply in_map_iff in H2. destruct H2 as [c2 [E2 H2]].
      apply (AllFacts.chunk_document_prefix cfg _ _ _ _ E) in H1.
      destruct (AllFacts.chunk_all_prefix cfg _ _ _ _ Er H2) as [d' [Hd' Hp]].
      apply Hnot. apply in_map_iff. exists d'. split; [|exact Hd'].
      now rewrite <- Hp, E2, H1.
Qed.

Lemma all_chunk_ids_distinct_witness :
  NoDup (map chunk_id
           (chunks_of (chunk_all_documents default_config 1
                         [doc_nested; doc_other]))).
Proof.
  apply (all_chunk_ids_distinct default_config 1 [doc_nested; doc_other]);
    [reflexivity|].
  vm_compute. repeat constructor; simpl; intuition discriminate.
Defined.

(** X8: two documents with the same url get the same chunk identifiers:
    when [chunk_size] is not negative and the list of documents holds two
    documents with one url, [chunk_all_documents] returns two chunks with
    the same [chunk_id]. *)
Theorem same_url_ids_collide (cfg : Config) (fuel : nat)
    (l1 l2 l3 : list Document) (d1 d2 : Document) (chunks : list Chunk) :
  (0 <= chunk_size cfg)%Z ->
  url d1 = url d2 ->
  chunk_all_documents cfg fuel (l1 ++ d1 :: l2 ++ d2 :: l3) = Some chunks ->
  ~ NoDup (map chunk_id chunks).
Proof.
  intros Hsize Hurl H.
  destruct (AllFacts.chunk_all_app _ _ _ _ _ H) as (a & b & _ & Hb & ->).
  simpl in Hb.
  destruct (chunk_document cfg fuel d1) as [cs1|] eqn:E1; [|discriminate].
  destruct (chunk_all_documents cfg fuel (l2 ++ d2 :: l3)) as [r|] eqn:Er;
    [|discriminate].
  injection Hb as <-.
  destruct (AllFacts.chunk_all_app _ _ _ _ _ Er) as (a2 & b2 & _ & Hb2 & ->).
  simpl in Hb2.
  destruct (chunk_document cfg fuel d2) as [cs2|] eqn:E2; [|discriminate].
  destruct (chunk_all_documents cfg fuel l3) as [r3|]; [|discriminate].
  injection Hb2 as <-.
  destruct (AllFacts.chunk_document_head _ _ _ _ Hsize E1)
    as (c1 & rest1 & -> & Hid1).
  destruct (AllFacts.chunk_document_head _ _ _ _ Hsize E2)
    as (c2 & rest2 & -> & Hid2).
  intros Hnd. rewrite map_app in Hnd. apply NoDup_app_remove_l in Hnd.
  cbn [app map] in Hnd. inversion Hnd as [|? ? Hnot _]; subst.
  apply Hnot. rewrite !map_app. apply in_or_app. right.
  apply in_or_app. right. cbn [map]. left.
  now rewrite Hid1, Hid2, Hurl.
Qed.

Lemma same_url_ids_collide_witness :
  ~ NoDup (map chunk_id
             (chunks_of (chunk_all_documents default_config 1
                           ([] ++ doc_nested :: [doc_other] ++ doc_two_headings :: [])))).
Proof.
  apply (same_url_ids_collide default_config 1 [] [doc_other] []
           doc_nested doc_two_headings); [simpl; lia | reflexivity | reflexivity].
Defined.

(* ================================================================== *)
(** ** Batches *)

Import Embedder.

Module BatchFacts.

Lemma slice_batch {A : Type} (l : list A) (i size : Z) :
  (0 <= i <= Z.of_nat (length l))%Z -> (0 < size)%Z ->
  py_slice l i (i + size)
  = firstn (Z.to_nat size) (skipn (Z.to_nat i) l).
Proof.
  intros Hi Hs. unfold py_slice.
  destruct (Z.ltb_spec i 0); [lia|].
  destruct (Z.ltb_spec (i + size) 0); [lia|].
  rewrite (Z.min_l i) by lia.
  destruct (Z.le_gt_cases (i + size) (Z.of_nat (length l))).
  - rewrite Z.min_l by lia. f_equal. lia.
  - rewrite Z.min_r by lia.
    rewrite !firstn_all2; [reflexivity | |]; rewrite length_skipn; lia.
Qed.

(** Cutting a list into pieces of [b] elements and putting them together
    again. *)
Lemma concat_pieces {A : Type} (b m : nat) (l : list A) :
  length l <= m * b ->
  concat (map (fun k => firstn b (skipn (k * b) l)) (seq 0 m)) = l.
Proof.
  revert l. induction m as [|m IH]; intros l Hl.
  - destruct l; [reflexivity | simpl in Hl; lia].
  - cbn [seq map concat]. rewrite <- seq_shift, map_map.
    rewrite (map_ext _ (fun k => firstn b (skipn (k * b) (skipn b l)))).
    + rewrite IH by (rewrite length_skipn; lia). apply firstn_skipn.
    + intros k. rewrite skipn_skipn. do 2 f_equal. lia.
Qed.

Lemma ceil_bounds (n size : Z) :
  (0 <= n)%Z -> (0 < size)%Z ->
  (n <= (n + size - 1) / size * size
   /\ ((n + size - 1) / size - 1) * size < n + size
   /\ 0 <= (n + size - 1) / size
   /\ (0 < n -> ((n + size - 1) / size - 1) * size < n))%Z.
Proof.
  intros Hn Hs.
  pose proof (Z.mul_div_le (n + size - 1) size Hs).
  pose proof (Z.mul_succ_div_gt (n + size - 1) size Hs).
  assert (0 <= (n + size - 1) / size)%Z by (apply Z.div_pos; lia).
  nia.
Qed.

Lemma batches_eq {A : Type} (size : Z) (l : list A) :
  (0 < size)%Z ->
  batches size l
  = Some (map (fun k => firstn (Z.to_nat size)
                               (skipn (k * Z.to_nat size) l))
              (seq 0 (Z.to_nat ((Z.of_nat (length l) + size - 1) / size)))).
Proof.
  intros Hs. unfold batches, range0.
  destruct (Z.eqb_spec size 0); [lia|].
  destruct (Z.ltb_spec size 0); [lia|]. cbn [option_map]. f_equal.
  rewrite map_map. apply map_ext_in. intros k Hk. apply in_seq in Hk.
  destruct (ceil_bounds (Z.of_nat (length l)) size) as (H1 & H2 & H3 & H4);
    [lia | lia |].
  set (q := ((Z.of_nat (length l) + size - 1) / size)%Z) in *.
  assert (Hk' : (Z.of_nat k <= q - 1)%Z) by lia.
  assert (Hn : (0 < Z.of_nat (length l))%Z).
  { destruct (Z.le_gt_cases (Z.of_nat (length l)) 0); [|assumption].
    assert (q = 0%Z) by (subst q; apply Z.div_small; lia). lia. }
  specialize (H4 Hn).
  assert (Hle : (Z.of_nat k * size <= (q - 1) * size)%Z)
    by (apply Z.mul_le_mono_nonneg_r; lia).
  rewrite slice_batch; [|lia|lia].
  do 2 f_equal. lia.
Qed.

Lemma batches_facts {A : Type} (size : Z) (l : list A) :
  (0 < size)%Z ->
  exists bs,
    batches size l = Some bs
    /\ concat bs = l
    /\ Forall (fun b => (1 <= Z.of_nat (length b) <= size)%Z) bs
    /\ Z.of_nat (length bs) = ((Z.of_nat (length l) + size - 1) / size)%Z.
Proof.
  intros Hs. eexists. split; [now apply batches_eq|].
  destruct (ceil_bounds (Z.of_nat (length l)) size) as (H1 & H2 & H3 & H4);
    [lia | lia |].
  split; [|split].
  - apply concat_pieces. nia.
  - apply Forall_forall. intros b Hb. apply in_map_iff in Hb.
    destruct Hb as [k [<- Hk]]. apply in_seq in Hk.
    set (q := ((Z.of_nat (length l) + size - 1) / size)%Z) in *.
    assert (Hk' : (Z.of_nat k <= q - 1)%Z) by lia.
    assert (Hn : (0 < Z.of_nat (length l))%Z).
    { destruct (Z.le_gt_cases (Z.of_nat (length l)) 0); [|assumption].
      assert (q = 0%Z) by (subst q; apply Z.div_small; lia). lia. }
    specialize (H4 Hn).
    assert (Hle : (Z.of_nat k * size <= (q - 1) * size)%Z)
      by (apply Z.mul_le_mono_nonneg_r; lia).
    rewrite length_firstn, length_skipn. lia.
  - rewrite length_map, length_seq. lia.
Qed.

End BatchFacts.

(** X9: for a positive batch size, the batches [l[i:i + size]] for
    [i in range(0, len(l), size)], which [embed_chunks] and [insert_chunks]
    loop over, cut the list into ceil(len(l) / size) consecutive pieces of
    one to [size] elements; for a zero size [range] raises, and a negative
    size gives no batch at all. *)
Theorem batches_partition {A : Type} (size : Z) (l : list A) :
  ((0 < size)%Z ->
     exists bs,
       batches size l = Some bs
       /\ concat bs = l
       /\ Forall (fun b => (1 <= Z.of_nat (length b) <= size)%Z) bs
       /\ Z.of_nat (length bs)
          = ((Z.of_nat (length l) + size - 1) / size)%Z)
  /\ (size = 0%Z -> batches size l = None)
  /\ ((size < 0)%Z -> batches size l = Some []).
Proof.
  split; [apply BatchFacts.batches_facts|]. split.
  - intros ->. reflexivity.
  - intros H. unfold batches, range0.
    destruct (Z.eqb_spec size 0); [lia|].
    destruct (Z.ltb_spec size 0); [reflexivity | lia].
Qed.

Lemma batches_partition_witness :
  batches 2 [1; 2; 3; 4; 5] = Some [[1; 2]; [3; 4]; [5]]
  /\ exists bs,
       batches 2 [1; 2; 3; 4; 5] = Some bs /\ concat bs = [1; 2; 3; 4; 5].
Proof.
  split; [reflexivity|].
  destruct (proj1 (batches_partition 2 [1; 2; 3; 4; 5]) ltac:(lia))
    as [bs [H1 [H2 _]]].
  exists bs. split; [exact H1 | exact H2].
Defined.

(* ================================================================== *)
(** ** [embed_chunks] and [insert_chunks] *)

Module EmbedFacts.


Lemma subseq_filter {A : Type} (p : A -> bool) (l : list A) :
  subseq (filter p l) l.
Proof.
  induction l as [|x l IH]; simpl; [constructor|].
  destruct (p x); constructor; exact IH.
Qed.

Lemma subseq_map {A B : Type} (f : A -> B) (l1 l2 : list A) :
  subseq l1 l2 -> subseq (map f l1) (map f l2).
Proof. induction 1; simpl; constructor; assumption. Qed.


Lemma subseq_length {A : Type} (l1 l2 : list A) :
  subseq l1 l2 -> length l1 <= length l2.
Proof. induction 1; simpl; lia. Qed.

Section WithVec.

Variable Vec : Type.
Variable embed : nat -> list str -> option (list Vec).

Lemma zip_assign_chunks (b : list (EChunk Vec)) (embs : list Vec) :
  map (@e_chunk Vec) (zip_assign b embs) = map (@e_chunk Vec) b.
Proof.
  revert embs. induction b as [|c b IH]; intros [|e embs]; try reflexivity.
  simpl. now rewrite IH.
Qed.

(** With as many vectors as chunks every chunk of the batch gets one. *)
Lemma zip_assign_full (b : list (EChunk Vec)) (embs : list Vec) :
  length embs = length b ->
  filter (@has_embedding Vec) (zip_assign b embs) = zip_assign b embs
  /\ map (@e_embedding Vec) (zip_assign b embs) = map Some embs.
Proof.
  revert embs. induction b as [|c b IH]; intros [|e embs] H;
    try discriminate; [now split|].
  simpl in H. injection H as H. destruct (IH embs H) as [H1 H2].
  cbn [zip_assign filter map]. unfold has_embedding at 1.
  cbn [e_embedding]. now rewrite H1, H2.
Qed.

Lemma embed_batch_chunks (k : nat) (b : list (EChunk Vec)) :
  map (@e_chunk Vec) (embed_batch embed k b) = map (@e_chunk Vec) b.
Proof.
  unfold embed_batch. destruct (embed k _); [|reflexivity].
  apply zip_assign_chunks.
Qed.

Lemma embed_batches_chunks (k : nat) (bs : list (list (EChunk Vec))) :
  map (@e_chunk Vec) (embed_batches embed k bs)
  = map (@e_chunk Vec) (concat bs).
Proof.
  revert k. induction bs as [|b bs IH]; intros k; [reflexivity|].
  simpl. now rewrite !map_app, embed_batch_chunks, IH.
Qed.

Lemma filter_has_embedding (l : list (EChunk Vec)) :
  Forall (fun c => e_embedding c <> None) (filter (@has_embedding Vec) l).
Proof.
  apply Forall_forall. intros c Hc. apply filter_In in Hc.
  destruct Hc as [_ Hc]. unfold has_embedding in Hc.
  now destruct (e_embedding c).
Qed.

Lemma filter_fresh (l : list (EChunk Vec)) :
  Forall (fun c => e_embedding c = None) l ->
  filter (@has_embedding Vec) l = [].
Proof.
  induction 1 as [|c l Hc _ IH]; [reflexivity|].
  simpl. unfold has_embedding at 1. now rewrite Hc.
Qed.

(** What one batch of fresh chunks leaves in the result: all of it after a
    call that succeeds, nothing after a call that raises. *)
Lemma embed_batch_kept (k : nat) (b : list (EChunk Vec)) :
  Forall (fun c => e_embedding c = None) b ->
  (forall texts embs, embed k texts = Some embs ->
                      length embs = length texts) ->
  map (@e_chunk Vec) (filter (@has_embedding Vec) (embed_batch embed k b))
  = match embed k (map (fun c => c_text (e_chunk c)) b) with
    | Some _ => map (@e_chunk Vec) b
    | None => []
    end.
Proof.
  intros Hfresh Hlen. unfold embed_batch.
  destruct (embed k _) as [embs|] eqn:E.
  - apply Hlen in E. rewrite length_map in E.
    rewrite (proj1 (zip_assign_full b embs E)). apply zip_assign_chunks.
  - now rewrite filter_fresh.
Qed.

Lemma embed_batches_kept (k : nat) (bs : list (list (EChunk Vec))) :
  Forall (fun c => e_embedding c = None) (concat bs) ->
  (forall k texts embs, embed k texts = Some embs ->
                        length embs = length texts) ->
  map (@e_chunk Vec) (filter (@has_embedding Vec) (embed_batches embed k bs))
  = flat_map (fun kb : nat * list (EChunk Vec) =>
                match embed (fst kb)
                            (map (fun c => c_text (e_chunk c)) (snd kb)) with
                | Some _ => map (@e_chunk Vec) (snd kb)
                | None => []
                end)
             (combine (seq k (length bs)) bs).
Proof.
  intros Hfresh Hlen. revert k.
  induction bs as [|b bs IH]; intros k; [reflexivity|].
  simpl in Hfresh. apply Forall_app in Hfresh. destruct Hfresh as [Hb Hbs].
  cbn [embed_batches length seq combine flat_map fst snd].
  rewrite filter_app, map_app, (embed_batch_kept k b Hb (Hlen k)).
  now rewrite (IH Hbs).
Qed.

Variable uuid4 : nat -> str.
Variable upsert_ok : nat -> list (Point Vec) -> bool.




Lemma upload_all (k : nat) (bs : list (list (Point Vec))) :
  (forall k b, upsert_ok k b = true) -> upload upsert_ok k bs = bs.
Proof.
  intros H. revert k. induction bs as [|b bs IH]; intros k; [reflexivity|].
  simpl. now rewrite H, IH.
Qed.

End WithVec.

End EmbedFacts.

Module StoreFacts.


Lemma batches_negative {A : Type} (size : Z) (l : list A) :
  (size < 0)%Z -> batches size l = Some [].
Proof.
  intros H. unfold batches, range0.
  destruct (Z.eqb_spec size 0); [lia|].
  destruct (Z.ltb_spec size 0); [reflexivity | lia].
Qed.

Lemma filter_idem {A : Type} (p : A -> bool) (l : list A) :
  filter p (filter p l) = filter p l.
Proof.
  induction l as [|x l IH]; [reflexivity|]. simpl.
  destruct (p x) eqn:E; [|exact IH]. simpl. now rewrite E, IH.
Qed.

Lemma contains_tail (p s : str) (c : ascii) :
  contains p s = true -> contains p (c :: s) = true.
Proof.
  intros H. cbn [contains]. rewrite H. apply orb_true_r.
Qed.

Lemma contains_skip (p a s : str) :
  contains p s = true -> contains p (a ++ s) = true.
Proof.
  intros H. induction a as [|c a IH]; [exact H|].
  simpl app. now apply contains_tail.
Qed.

Lemma startswith_app (p q s : str) :
  startswith (p ++ q) s = true ->
  exists r, s = p ++ r /\ startswith q r = true.
Proof.
  revert s. induction p as [|a p IH]; intros s H.
  - now exists s.
  - destruct s as [|b s]; [discriminate|]. simpl in H.
    apply andb_true_iff in H. destruct H as [Hab H].
    apply Ascii.eqb_eq in Hab. subst b.
    destruct (IH s H) as [r [-> Hr]]. now exists r.
Qed.

Lemma startswith_contains (p s : str) :
  startswith p s = true -> contains p s = true.
Proof. intros H. destruct s; simpl in *; now rewrite H. Qed.

(** A string that holds [p ++ q] holds [q]. *)
Lemma contains_app_r (p q s : str) :
  contains (p ++ q) s = true -> contains q s = true.
Proof.
  induction s as [|c s IH]; intros H; cbn [contains] in H.
  - rewrite orb_false_r in H. destruct (startswith_app p q [] H) as [r [E Hr]].
    destruct p; [|discriminate]. simpl in E. subst r.
    now apply startswith_contains.
  - apply orb_true_iff in H. destruct H as [H|H].
    + destruct (startswith_app p q _ H) as [r [-> Hr]].
      apply contains_skip. now apply startswith_contains.
    + apply contains_tail. now apply IH.
Qed.

End StoreFacts.

(** X10: for a batch size other than zero, [embed_chunks] returns chunks
    that all have an embedding, and they are chunks of the input in the
    order of the input: nothing is added, reordered or changed but the
    embedding; for the batch size zero it raises. *)
Theorem embed_chunks_keeps_order (Vec : Type)
    (embed : nat -> list str -> option (list Vec)) (size : Z)
    (chunks : list (EChunk Vec)) :
  (size <> 0%Z ->
     exists result,
       embed_chunks embed size chunks = Some result
       /\ Forall (fun c => e_embedding c <> None) result
       /\ subseq (map (@e_chunk Vec) result) (map (@e_chunk Vec) chunks)
       /\ length result <= length chunks)
  /\ (size = 0%Z -> embed_chunks embed size chunks = None).
Proof.
  split.
  - intros Hs. unfold embed_chunks.
    assert (Hsub : forall st : list (EChunk Vec),
               map (@e_chunk Vec) st = map (@e_chunk Vec) chunks ->
               Forall (fun c => e_embedding c <> None)
                      (filter (@has_embedding Vec) st)
               /\ subseq (map (@e_chunk Vec) (filter (@has_embedding Vec) st))
                         (map (@e_chunk Vec) chunks)
               /\ length (filter (@has_embedding Vec) st) <= length chunks).
    { intros st Hst. split; [apply EmbedFacts.filter_has_embedding|].
      assert (Hq : subseq (map (@e_chunk Vec)
                               (filter (@has_embedding Vec) st))
                          (map (@e_chunk Vec) chunks)).
      { rewrite <- Hst. apply EmbedFacts.subseq_map,
          EmbedFacts.subseq_filter. }
      split; [exact Hq|]. apply EmbedFacts.subseq_length in Hq.
      now rewrite !length_map in Hq. }
    destruct (Z.ltb_spec size 0) as [Hneg|Hpos].
    + rewrite (StoreFacts.batches_negative size chunks Hneg).
      eexists. split; [reflexivity|]. now apply Hsub.
    + destruct (BatchFacts.batches_facts size chunks ltac:(lia))
        as (bs & -> & Hcat & _).
      eexists. split; [reflexivity|]. apply Hsub.
      now rewrite EmbedFacts.embed_batches_chunks, Hcat.
  - intros ->. reflexivity.
Qed.

Lemma embed_chunks_keeps_order_witness :
  exists result,
    embed_chunks sample_embed 2 sample_echunks = Some result
    /\ length result = 2
    /\ subseq (map (@e_chunk nat) result) (map (@e_chunk nat) sample_echunks).
Proof.
  destruct (proj1 (embed_chunks_keeps_order nat sample_embed 2 sample_echunks)
              ltac:(discriminate)) as [result [H1 [_ [H3 _]]]].
  exists result. split; [exact H1|]. split; [|exact H3].
  vm_compute in H1. injection H1 as <-. reflexivity.
Defined.

(** X11: on chunks without embedding, with a positive batch size and a
    service that answers with one vector for each text, [embed_chunks] keeps
    the chunks batch by batch: all the chunks of a batch whose call
    succeeds, none of a batch whose call raises.  So no call raising keeps
    every chunk, and every call raising returns the empty list. *)
Theorem embed_chunks_by_batch (Vec : Type)
    (embed : nat -> list str -> option (list Vec)) (size : Z)
    (chunks : list (EChunk Vec)) :
  (0 < size)%Z ->
  Forall (fun c => e_embedding c = None) chunks ->
  (forall k texts embs, embed k texts = Some embs ->
                        length embs = length texts) ->
  exists bs result,
    batches size chunks = Some bs
    /\ embed_chunks embed size chunks = Some result
    /\ map (@e_chunk Vec) result
       = flat_map (fun kb : nat * list (EChunk Vec) =>
                     match embed (fst kb)
                                 (map (fun c => c_text (e_chunk c)) (snd kb))
                     with
                     | Some _ => map (@e_chunk Vec) (snd kb)
                     | None => []
                     end)
                  (combine (seq 0 (length bs)) bs)
    /\ ((forall k texts, embed k texts <> None) ->
        map (@e_chunk Vec) result = map (@e_chunk Vec) chunks)
    /\ ((forall k texts, embed k texts = None) -> result = []).
Proof.
  intros Hs Hfresh Hlen.
  destruct (BatchFacts.batches_facts size chunks Hs) as (bs & Hbs & Hcat & _).
  exists bs. unfold embed_chunks. rewrite Hbs.
  destruct (Z.ltb_spec size 0); [lia|].
  eexists. split; [reflexivity|]. split; [reflexivity|].
  assert (Hfresh' : Forall (fun c => e_embedding c = None) (concat bs))
    by now rewrite Hcat.
  pose proof (EmbedFacts.embed_batches_kept Vec embed 0 bs Hfresh' Hlen) as Hk.
  split; [exact Hk|]. split.
  - intros Hok. rewrite Hk, <- Hcat. clear -Hok.
    generalize 0 as k. induction bs as [|b bs IH]; intros k; [reflexivity|].
    cbn [length seq combine flat_map fst snd concat].
    rewrite map_app, IH.
    destruct (embed k _) eqn:E; [reflexivity | now apply Hok in E].
  - intros Hfail.
    assert (Hnil : map (@e_chunk Vec)
                       (filter (@has_embedding Vec)
                               (embed_batches embed 0 bs)) = []).
    { rewrite Hk. clear -Hfail. generalize 0 as k.
      induction bs as [|b bs IH]; intros k; [reflexivity|].
      cbn [length seq combine flat_map fst snd]. now rewrite Hfail, IH. }
    now apply map_eq_nil in Hnil.
Qed.

Lemma embed_chunks_by_batch_witness :
  exists bs result,
    batches 2 sample_echunks = Some bs
    /\ length bs = 2
    /\ embed_chunks sample_embed 2 sample_echunks = Some result
    /\ map (@e_chunk nat) result
       = firstn 2 (map (@e_chunk nat) sample_echunks).
Proof.
  destruct (embed_chunks_by_batch nat sample_embed 2 sample_echunks)
    as (bs & result & H1 & H2 & H3 & _).
  - lia.
  - repeat constructor.
  - intros k texts embs. unfold sample_embed.
    destruct (Nat.eqb k 1); [discriminate|].
    intros [= <-]. apply length_map.
  - exists bs, result. split; [exact H1|].
    vm_compute in H1. injection H1 as <-.
    split; [reflexivity|]. split; [exact H2|].
    rewrite H3. reflexivity.
Defined.



(** X13: the ingestion steps put together: what [embed_chunks] returns,
    [insert_chunks] stores without skipping any chunk when no upsert raises:
    the payloads that reach the store are the chunks that got an
    embedding, in order. *)
Theorem embedded_chunks_all_stored (Vec : Type)
    (embed : nat -> list str -> option (list Vec)) (uuid4 : nat -> str)
    (upsert_ok : nat -> list (Point Vec) -> bool) (esize isize : Z)
    (chunks embedded : list (EChunk Vec)) :
  (0 < isize)%Z ->
  embed_chunks embed esize chunks = Some embedded ->
  (forall k b, upsert_ok k b = true) ->
  exists stored,
    insert_chunks uuid4 upsert_ok isize embedded = Some stored
    /\ map (@p_payload Vec) (concat stored) = map (@e_chunk Vec) embedded
    /\ map (fun p => Some (p_vector p)) (concat stored)
       = map (@e_embedding Vec) embedded.
Proof.
  intros Hs He Hok. unfold insert_chunks.
  destruct (BatchFacts.batches_facts isize (make_points uuid4 0 embedded) Hs)
    as (bs & -> & Hcat & _).
  eexists. split; [reflexivity|].
  rewrite (EmbedFacts.upload_all Vec upsert_ok 0 bs Hok), Hcat.
  assert (Hall : Forall (fun c => e_embedding c <> None) embedded).
  { unfold embed_chunks in He. destruct (batches esize chunks); [|discriminate].
    injection He as <-. apply EmbedFacts.filter_has_embedding. }
  clear -Hall. generalize 0 as k.
  induction Hall as [|c l Hc _ IH]; intros k; [now split|].
  cbn [make_points]. destruct (e_embedding c) as [v|] eqn:E; [|congruence].
  destruct (IH (S k)) as [H1 H2]. cbn [map p_payload p_vector].
  now rewrite H1, H2, E.
Qed.

Lemma embedded_chunks_all_stored_witness :
  exists stored,
    insert_chunks (fun _ => lit "id") (fun _ _ => true) 100
      (chunks_of (embed_chunks sample_embed 2 sample_echunks))
    = Some stored
    /\ map (@p_payload nat) (concat stored)
       = map (@e_chunk nat)
             (chunks_of (embed_chunks sample_embed 2 sample_echunks)).
Proof.
  destruct (embedded_chunks_all_stored nat sample_embed (fun _ => lit "id")
              (fun _ _ => true) 2 100 sample_echunks
              (chunks_of (embed_chunks sample_embed 2 sample_echunks)))
    as [stored [H1 [H2 _]]]; [lia | reflexivity | reflexivity |].
  exists stored. split; [exact H1 | exact H2].
Defined.

(** X14: [get_embedding_dimension] answers 1024 without calling the
    service for every model name that holds ["v3.0"], also for the names
    that hold ["light-v3.0"]: the branch that returns 384 is never taken,
    and 384 can only come from the service. *)
Theorem embedding_dimension_never_384 (model : str) (api : option nat) :
  (contains (lit "light-v3.0") model = true ->
     get_embedding_dimension model api = Some 1024)
  /\ (contains (lit "v3.0") model = true ->
        get_embedding_dimension model api = Some 1024)
  /\ (contains (lit "v3.0") model = false ->
        get_embedding_dimension model api = api)
  /\ (get_embedding_dimension model api = Some 384 -> api = Some 384).
Proof.
  assert (H3 : contains (lit "light-v3.0") model = true ->
               contains (lit "v3.0") model = true)
    by apply (StoreFacts.contains_app_r (lit "light-") (lit "v3.0")).
  unfold get_embedding_dimension.
  destruct (contains (lit "v3.0") model) eqn:E.
  - repeat split; try reflexivity; discriminate.
  - destruct (contains (lit "light-v3.0") model) eqn:E2.
    + specialize (H3 eq_refl). discriminate.
    + repeat split; try reflexivity; try discriminate. auto.
Qed.

Lemma embedding_dimension_never_384_witness :
  get_embedding_dimension (lit "embed-english-light-v3.0") None = Some 1024.
Proof.
  exact (proj1 (embedding_dimension_never_384
                  (lit "embed-english-light-v3.0") None) eq_refl).
Defined.

(* ================================================================== *)
(** ** [validate_content_quality] *)

Import Quality.

Module QualityFacts.

(** What the loop has done after the pairs [l]. *)
Lemma fold_quality (l : list (nat * QChunk)) (v : QualityResults) :
  let v' := fold_left quality_one l v in
  q_total_chunks v' = q_total_chunks v
  /\ clean v' + has_issues v' = clean v + has_issues v + length l
  /\ has_issues v' = has_issues v + length (flat_map qentry_of l)
  /\ q_issues v' = q_issues v ++ flat_map qentry_of l.
Proof.
  revert v. induction l as [|[i c] l IH]; intros v.
  - simpl. rewrite app_nil_r. repeat split; lia.
  - cbn [fold_left flat_map length].
    destruct (IH (quality_one v (i, c))) as (H1 & H2 & H3 & H4).
    cbv zeta. rewrite H1, H2, H3, H4. clear.
    unfold quality_one, qentry_of. cbv zeta. cbn [fst snd].
    destruct (quality_issues (text_of c));
      cbn [q_total_chunks clean has_issues q_issues length app];
      rewrite ?length_app; cbn [length]; repeat split; try lia.
    now rewrite <- app_assoc.
Qed.

Lemma quality_issues_length (t : str) : length (quality_issues t) <= 4.
Proof.
  unfold quality_issues. rewrite !length_app.
  destruct (first_match html_patterns t), (first_match ui_patterns t),
    (contains (lit "   ") t || contains [NL; NL; NL] t), (strip t);
    simpl; lia.
Qed.

Lemma entries_positions (l : list QChunk) (k : nat) :
  subseq (map qe_chunk_index (flat_map qentry_of (combine (seq k (length l)) l)))
         (seq k (length l)).
Proof.
  revert k. induction l as [|c l IH]; intros k; [constructor|].
  cbn [length seq combine flat_map]. unfold qentry_of at 1. cbn [fst snd].
  destruct (quality_issues (text_of c)); cbn [app map qe_chunk_index];
    constructor; apply IH.
Qed.

Lemma entries_issues (l : list (nat * QChunk)) :
  Forall (fun e => 1 <= length (qe_issues e) <= 4) (flat_map qentry_of l).
Proof.
  apply Forall_forall. intros e He. apply in_flat_map in He.
  destruct He as [[i c] [_ He]]. unfold qentry_of in He. cbn [fst snd] in He.
  pose proof (quality_issues_length (text_of c)) as Hlen.
  destruct (quality_issues (text_of c)) eqn:E; [destruct He|].
  destruct He as [<-|[]]. cbn [qe_issues]. simpl in *. lia.
Qed.

(** The entries of the list of issues, read back: an entry at position [i]
    is the entry of the chunk at position [i], which is not clean. *)
Lemma quality_entries_read_back (chunks : list QChunk) (e : QEntry) :
  In e (flat_map qentry_of (combine (seq 0 (length chunks)) chunks)) ->
  exists c,
    nth_error chunks (qe_chunk_index e) = Some c
    /\ quality_issues (text_of c) <> []
    /\ e = {| qe_chunk_index := qe_chunk_index e;
              qe_chunk_id := match q_chunk_id c with
                             | Some stored => stored
                             | None => lit "unknown"
                             end;
              qe_issues := quality_issues (text_of c);
              qe_text_preview := text_preview (text_of c) |}.
Proof.
  intros He. apply in_flat_map in He. destruct He as [[j c] [Hj He]].
  unfold qentry_of in He. cbn [fst snd] in He.
  destruct (quality_issues (text_of c)) as [|x found] eqn:E;
    [contradiction|].
  destruct He as [<-|[]]. cbn [qe_chunk_index].
  apply ValidateFacts.combine_seq_in in Hj. destruct Hj as [_ Hj].
  rewrite Nat.sub_0_r in Hj. exists c. rewrite E.
  split; [exact Hj|]. split; [discriminate | reflexivity].
Qed.

End QualityFacts.

(** X15: [validate_content_quality] counts every chunk once:
    [clean + has_issues = total_chunks = len(chunks)]; the list of issues
    has one entry for each chunk that is not clean and nothing else, in the
    order of the chunks; the entry of the chunk at position [i] holds [i],
    the chunk's identifier, its issues, between one and four, and the
    preview of its text. *)
Theorem content_quality_counts (chunks : list QChunk) :
  let v := validate_content_quality chunks in
  let entry i c :=
    {| qe_chunk_index := i;
       qe_chunk_id := match q_chunk_id c with
                      | Some stored => stored
                      | None => lit "unknown"
                      end;
       qe_issues := quality_issues (text_of c);
       qe_text_preview := text_preview (text_of c) |} in
  q_total_chunks v = length chunks
  /\ clean v + has_issues v = length chunks
  /\ length (q_issues v) = has_issues v
  /\ clean v
     = length (filter (fun c => match quality_issues (text_of c) with
                                | [] => true
                                | _ :: _ => false
                                end) chunks)
  /\ subseq (map qe_chunk_index (q_issues v)) (seq 0 (length chunks))
  /\ Forall (fun e => 1 <= length (qe_issues e) <= 4) (q_issues v)
  /\ q_issues v = flat_map qentry_of (combine (seq 0 (length chunks)) chunks)
  /\ (forall i c, nth_error chunks i = Some c ->
        (quality_issues (text_of c) <> [] <-> In (entry i c) (q_issues v))
        /\ (quality_issues (text_of c) = []
            <-> forall e, In e (q_issues v) -> qe_chunk_index e <> i)
        /\ (forall e, In e (q_issues v) -> qe_chunk_index e = i ->
              e = entry i c))
  /\ (forall e, In e (q_issues v) ->
        exists c, nth_error chunks (qe_chunk_index e) = Some c
                  /\ quality_issues (text_of c) <> []
                  /\ e = entry (qe_chunk_index e) c)
  /\ Sorted lt (map qe_chunk_index (q_issues v)).
Proof.
  intros v entry.
  destruct (QualityFacts.fold_quality
              (combine (seq 0 (length chunks)) chunks)
              {| q_total_chunks := length chunks; clean := 0; has_issues := 0;
                 q_issues := [] |}) as (H1 & H2 & H3 & H4).
  fold (validate_content_quality chunks) in H1, H2, H3, H4.
  fold v in H1, H2, H3, H4.
  cbn [q_total_chunks clean has_issues q_issues app] in H1, H2, H3, H4.
  rewrite length_combine, length_seq, Nat.min_id in H2.
  split; [exact H1|]. split; [lia|]. split; [rewrite H4; lia|].
  split; [|split; [|split; [|split; [exact H4|split; [|split]]]]].
  - assert (E : length (flat_map qentry_of
                          (combine (seq 0 (length chunks)) chunks))
                + length (filter (fun c =>
                                    match quality_issues (text_of c) with
                                    | [] => true
                                    | _ :: _ => false
                                    end) chunks)
                = length chunks).
    { clear. generalize 0 as k.
      induction chunks as [|c l IH]; intros k; [reflexivity|].
      cbn [length seq combine flat_map filter]. unfold qentry_of at 1.
      cbn [fst snd]. rewrite length_app. specialize (IH (S k)).
      destruct (quality_issues (text_of c)); simpl; lia. }
    lia.
  - rewrite H4. apply QualityFacts.entries_positions.
  - rewrite H4. apply QualityFacts.entries_issues.
  - intros i c Hn. rewrite H4.
    pose proof (ValidateFacts.in_combine_seq chunks 0 i c Hn) as Hin.
    assert (Hback : forall e,
              In e (flat_map qentry_of
                      (combine (seq 0 (length chunks)) chunks)) ->
              qe_chunk_index e = i ->
              e = entry i c /\ quality_issues (text_of c) <> []).
    { intros e He Hi.
      destruct (QualityFacts.quality_entries_read_back chunks e He)
        as (c' & Hn' & Hne & Ee).
      rewrite Hi, Hn in Hn'. injection Hn' as <-.
      rewrite Hi in Ee. now split. }
    split; [split|split; [split|]].
    + intros Hne. apply in_flat_map. exists (i, c). split; [exact Hin|].
      unfold qentry_of. cbn [fst snd].
      destruct (quality_issues (text_of c)) eqn:E; [congruence|].
      left. unfold entry. now rewrite E.
    + intros He. now apply (Hback _ He).
    + intros Hnil e He Hi. destruct (Hback e He Hi) as [_ Hne]. congruence.
    + intros Hno. destruct (quality_issues (text_of c)) eqn:E; [reflexivity|].
      exfalso. apply (Hno (entry i c)); [|reflexivity].
      apply in_flat_map. exists (i, c). split; [exact Hin|].
      unfold qentry_of. cbn [fst snd]. rewrite E. left. unfold entry.
      now rewrite E.
    + intros e He Hi. now apply (Hback e He).
  - intros e He. rewrite H4 in He.
    destruct (QualityFacts.quality_entries_read_back chunks e He)
      as (c & Hn & Hne & Ee).
    now exists c.
  - rewrite H4. apply StronglySorted_Sorted.
    apply (ValidateFacts.flat_map_positions_sorted qe_chunk_index qentry_of).
    intros i x. unfold qentry_of. cbn [fst snd].
    destruct (quality_issues (text_of x)); [now left|].
    right. eexists. split; reflexivity.
Qed.

Lemma content_quality_counts_witness :
  let chunks := [{| q_text := Some (lit "plain words"); q_chunk_id := None |};
                 {| q_text := Some (lit "a <b> c");
                    q_chunk_id := Some (lit "3a1b40c4_1") |};
                 {| q_text := Some (lit "more words"); q_chunk_id := None |};
                 {| q_text := None; q_chunk_id := None |}] in
  q_issues (validate_content_quality chunks)
  = [{| qe_chunk_index := 1; qe_chunk_id := lit "3a1b40c4_1";
        qe_issues := [HtmlArtifact (lit "<")];
        qe_text_preview := lit "a <b> c" |};
     {| qe_chunk_index := 3; qe_chunk_id := lit "unknown";
        qe_issues := [EmptyText]; qe_text_preview := [] |}]
  /\ map qe_chunk_index (q_issues (validate_content_quality chunks)) = [1; 3].
Proof.
  intros chunks.
  pose proof (content_quality_counts chunks) as H. cbv zeta in H.
  destruct H as (_ & _ & _ & _ & _ & _ & H & _).
  split; [exact H | now rewrite H].
Defined.

(** X16: the preview of a text in an issue entry is the text itself when
    it has at most 100 characters, and otherwise its first 100 characters
    followed by three dots: never more than 103 characters. *)
Theorem text_preview_bounds (t : str) :
  length (text_preview t) <= 103
  /\ firstn 100 (text_preview t) = firstn 100 t
  /\ (length t <= 100 -> text_preview t = t)
  /\ (100 < length t ->
      text_preview t = firstn 100 t ++ lit "..."
      /\ length (text_preview t) = 103).
Proof.
  unfold text_preview. destruct (Nat.ltb_spec 100 (length t)) as [H|H].
  - assert (Hl : length (firstn 100 t) = 100)
      by (rewrite length_firstn; lia).
    rewrite length_app, Hl. repeat split; try (simpl; lia).
    rewrite firstn_app, Hl, Nat.sub_diag, firstn_O, app_nil_r.
    apply firstn_firstn.
  - repeat split; try lia; reflexivity.
Qed.

(* ================================================================== *)
(** ** [str.strip] *)

Module StripFacts.

Lemma lstrip_word (s : str) : starts_word s = true -> lstrip s = s.
Proof.
  destruct s as [|c s]; [reflexivity|]. simpl. intros H.
  apply negb_true_iff in H. now rewrite H.
Qed.

Lemma lstrip_decomp (s : str) :
  exists pre, s = pre ++ lstrip s /\ all_space pre.
Proof.
  induction s as [|c s [pre [E Hpre]]].
  - exists []. split; [reflexivity | constructor].
  - simpl. destruct (isspace c) eqn:Hc.
    + exists (c :: pre). split; [simpl; now f_equal | now constructor].
    + exists []. split; [reflexivity | constructor].
Qed.

Lemma lstrip_head (s : str) : lstrip s = [] \/ starts_word (lstrip s) = true.
Proof.
  induction s as [|c s IH]; [now left|]. simpl.
  destruct (isspace c) eqn:Hc; [exact IH|]. right. simpl. now rewrite Hc.
Qed.

Lemma lstrip_nil_iff (s : str) : lstrip s = [] <-> all_space s.
Proof.
  induction s as [|c s IH]; simpl.
  - split; [constructor | reflexivity].
  - destruct (isspace c) eqn:Hc.
    + rewrite IH. split.
      * intros H. constructor; assumption.
      * intros H. inversion H; assumption.
    + split; [discriminate|]. intros H. inversion H; congruence.
Qed.

Lemma all_space_rev (s : str) : all_space (rev s) <-> all_space s.
Proof.
  unfold all_space. rewrite !Forall_forall.
  split; intros H c Hc; apply H; [now apply in_rev in Hc | now apply in_rev].
Qed.

Lemma strip_decomp (s : str) :
  exists pre post,
    s = pre ++ strip s ++ post /\ all_space pre /\ all_space post.
Proof.
  destruct (lstrip_decomp s) as [pre [E Hpre]].
  destruct (lstrip_decomp (rev (lstrip s))) as [pre2 [E2 Hpre2]].
  exists pre, (rev pre2). split; [|split; [exact Hpre | now apply all_space_rev]].
  unfold strip, rstrip. rewrite <- rev_app_distr, <- E2, rev_involutive.
  exact E.
Qed.

Lemma strip_nil_iff (s : str) : strip s = [] <-> all_space s.
Proof.
  unfold strip, rstrip. split.
  - intros H. apply (f_equal (@rev ascii)) in H.
    rewrite rev_involutive in H. simpl in H.
    apply lstrip_nil_iff in H. apply (proj1 (all_space_rev _)) in H.
    apply lstrip_nil_iff. destruct (lstrip_head s) as [E|E]; [exact E|].
    destruct (lstrip s) as [|c r]; [reflexivity|]. simpl in E.
    apply Forall_inv in H. rewrite H in E. discriminate.
  - intros H. apply lstrip_nil_iff in H. rewrite H. reflexivity.
Qed.

(** A stripped string is empty or begins and ends with a character that
    is no space. *)
Lemma strip_ends (s : str) :
  strip s = []
  \/ (starts_word (strip s) = true /\ starts_word (rev (strip s)) = true).
Proof.
  destruct (strip s) as [|c r] eqn:E; [now left|]. right.
  assert (Hrev : starts_word (rev (strip s)) = true).
  { unfold strip, rstrip. rewrite rev_involutive.
    destruct (lstrip_head (rev (lstrip s))) as [H|H]; [|exact H].
    unfold strip, rstrip in E. rewrite H in E. discriminate. }
  rewrite E in Hrev. split; [|exact Hrev].
  destruct (strip_decomp s) as (pre & post & Es & _ & _).
  destruct (lstrip_decomp s) as [pre1 [E1 _]].
  destruct (lstrip_head s) as [H|H].
  - unfold strip, rstrip in E. rewrite H in E. discriminate.
  - unfold strip, rstrip in E.
    destruct (lstrip_decomp (rev (lstrip s))) as [pre2 [E2 _]].
    apply (f_equal (@rev ascii)) in E2.
    rewrite rev_involutive, rev_app_distr, E in E2.
    rewrite E2 in H. exact H.
Qed.

Lemma strip_fixed (s : str) :
  starts_word s = true -> starts_word (rev s) = true -> strip s = s.
Proof.
  intros H1 H2. unfold strip, rstrip.
  rewrite (lstrip_word s H1), (lstrip_word (rev s) H2).
  apply rev_involutive.
Qed.

Lemma strip_idem (s : str) : strip (strip s) = strip s.
Proof.
  destruct (strip_ends s) as [->|[H1 H2]]; [reflexivity|].
  now apply strip_fixed.
Qed.

Lemma split_all_space (s : str) : all_space s -> split s = [].
Proof. induction 1 as [|c s Hc _ IH]; [reflexivity|]. simpl. now rewrite Hc. Qed.

Lemma split_spaces_l (pre s : str) :
  all_space pre -> split (pre ++ s) = split s.
Proof. induction 1 as [|c pre Hc _ IH]; [reflexivity|]. simpl. now rewrite Hc. Qed.

Lemma split_spaces_r (s post : str) :
  all_space post -> split (s ++ post) = split s.
Proof.
  intros H. destruct H as [|c post Hc Hpost]; [now rewrite app_nil_r|].
  rewrite split_app_space by exact Hc.
  rewrite (split_all_space post Hpost). apply app_nil_r.
Qed.

(** Stripping keeps the words. *)
Lemma split_strip (s : str) : split (strip s) = split s.
Proof.
  destruct (strip_decomp s) as (pre & post & E & Hpre & Hpost).
  rewrite E at 2. rewrite split_spaces_l by exact Hpre.
  now rewrite split_spaces_r.
Qed.

(** Words joined by single spaces begin and end with a character of a
    word. *)
Lemma join_words_ends (ws : list str) :
  Forall word_ok ws -> ws <> [] ->
  starts_word (join [SP] ws) = true
  /\ starts_word (rev (join [SP] ws)) = true.
Proof.
  intros Hws Hne. split.
  - destruct ws as [|w ws]; [congruence|].
    inversion Hws as [|? ? [Hw1 Hw2] _]; subst.
    destruct w as [|c w]; [congruence|]. inversion Hw2; subst.
    destruct ws; simpl; now apply negb_true_iff.
  - destruct ws as [|w ws] using rev_ind; [congruence|]. clear IHws.
    apply Forall_app in Hws. destruct Hws as [_ Hw].
    inversion Hw as [|? ? [Hw1 Hw2] _]; subst.
    destruct w as [|c w] using rev_ind; [congruence|]. clear IHw.
    apply Forall_app in Hw2. destruct Hw2 as [_ Hc].
    inversion Hc; subst.
    assert (E : exists r, join [SP] (ws ++ [w ++ [c]]) = r ++ [c]).
    { destruct ws as [|w0 ws0].
      - now exists w.
      - rewrite join_snoc by discriminate.
        exists (join [SP] (w0 :: ws0) ++ [SP] ++ w).
        now rewrite <- !app_assoc. }
    destruct E as [r E].
    apply (f_equal (fun x => starts_word (rev x))) in E. cbv beta in E.
    etransitivity; [exact E|]. rewrite rev_app_distr. simpl.
    now apply negb_true_iff.
Qed.

End StripFacts.

Module CleanFacts.

Lemma first_match_none (ps : list str) (t : str) :
  first_match ps t = None <-> Forall (fun p => contains p t = false) ps.
Proof.
  unfold first_match. split.
  - intros H. apply Forall_forall. intros p Hp.
    now apply (find_none _ _ H).
  - intros H. destruct (find _ ps) as [p|] eqn:E; [|reflexivity].
    apply find_some in E. destruct E as [Hin Hc].
    rewrite Forall_forall in H. now rewrite (H p Hin) in Hc.
Qed.

Lemma double_space_tail (c : ascii) (s : str) :
  has_double_space s = true -> has_double_space (c :: s) = true.
Proof.
  intros H. destruct s as [|d s]; [discriminate|].
  change (has_double_space (c :: d :: s))
    with (Ascii.eqb c SP && Ascii.eqb d SP || has_double_space (d :: s)).
  rewrite H. apply orb_true_r.
Qed.

(** Three spaces in a row are two spaces in a row. *)
Lemma triple_space (s : str) :
  contains (lit "   ") s = true -> has_double_space s = true.
Proof.
  change (lit "   ") with [SP; SP; SP].
  induction s as [|c s IH]; intros H; cbn [contains] in H.
  - discriminate.
  - apply orb_true_iff in H. destruct H as [H|H].
    + destruct s as [|d [|e s]]; cbn [startswith] in H;
        rewrite ?andb_false_r in H; try discriminate.
      apply andb_true_iff in H. destruct H as [H1 H].
      apply andb_true_iff in H. destruct H as [H2 _].
      apply Ascii.eqb_eq in H1, H2. subst c d. reflexivity.
    + apply double_space_tail. now apply IH.
Qed.

Lemma triple_newline (s : str) :
  contains [NL; NL; NL] s = true -> has_newline s = true.
Proof.
  unfold has_newline. induction s as [|c s IH]; intros H;
    cbn [contains] in H.
  - discriminate.
  - apply orb_true_iff in H. cbn [existsb]. destruct H as [H|H].
    + cbn [startswith] in H. apply andb_true_iff in H.
      destruct H as [H _]. now rewrite H.
    + rewrite (IH H). apply orb_true_r.
Qed.

Lemma space_or_not (t : str) :
  all_space t \/ Exists (fun c => isspace c = false) t.
Proof.
  induction t as [|c t [IH|IH]].
  - left. constructor.
  - destruct (isspace c) eqn:Hc.
    + left. now constructor.
    + right. now left.
  - right. now right.
Qed.

End CleanFacts.

(** X17: a chunk counts as clean exactly when its text holds none of the
    eight HTML patterns and none of the five UI patterns, has no three
    spaces and no three newlines in a row, and has a character that is no
    space. *)
Theorem quality_clean_iff (t : str) :
  quality_issues t = []
  <-> Forall (fun p => contains p t = false) html_patterns
      /\ Forall (fun p => contains p t = false) ui_patterns
      /\ contains (lit "   ") t = false
      /\ contains [NL; NL; NL] t = false
      /\ Exists (fun c => isspace c = false) t.
Proof.
  unfold quality_issues.
  rewrite <- !CleanFacts.first_match_none.
  assert (Hstrip : strip t <> [] <-> Exists (fun c => isspace c = false) t).
  { rewrite StripFacts.strip_nil_iff. split.
    - intros H. destruct (CleanFacts.space_or_not t) as [Ha|He];
        [now elim H | exact He].
    - intros He Ha. apply Exists_exists in He. destruct He as [c [Hin Hc]].
      unfold all_space in Ha. rewrite Forall_forall in Ha.
      rewrite (Ha c Hin) in Hc. discriminate. }
  rewrite <- Hstrip.
  destruct (first_match html_patterns t), (first_match ui_patterns t),
    (contains (lit "   ") t), (contains [NL; NL; NL] t), (strip t);
    simpl; split; intros H; try discriminate; try reflexivity;
    repeat match goal with
           | H : _ /\ _ |- _ => destruct H
           end; try discriminate; try congruence;
    repeat split; discriminate.
Qed.

Module WindowQuality.

Lemma in_whitespace_issue (t : str) :
  In ExcessiveWhitespace (quality_issues t) ->
  contains (lit "   ") t || contains [NL; NL; NL] t = true.
Proof.
  unfold quality_issues. intros H.
  destruct (contains (lit "   ") t || contains [NL; NL; NL] t);
    [reflexivity|]. exfalso.
  destruct (first_match html_patterns t), (first_match ui_patterns t),
    (strip t); simpl in H; intuition discriminate.
Qed.

Lemma in_empty_issue (t : str) :
  In EmptyText (quality_issues t) -> strip t = [].
Proof.
  unfold quality_issues. intros H.
  destruct (strip t); [reflexivity|]. exfalso.
  destruct (first_match html_patterns t), (first_match ui_patterns t),
    (contains (lit "   ") t || contains [NL; NL; NL] t);
    simpl in H; intuition discriminate.
Qed.

(** A text of words joined by single spaces: stripped, not empty, without
    excessive whitespace. *)
Lemma joined_words_quality (ws : list str) :
  Forall word_ok ws -> ws <> [] ->
  strip (join [SP] ws) = join [SP] ws
  /\ join [SP] ws <> []
  /\ ~ In ExcessiveWhitespace (quality_issues (join [SP] ws))
  /\ ~ In EmptyText (quality_issues (join [SP] ws)).
Proof.
  intros Hws Hne.
  destruct (StripFacts.join_words_ends ws Hws Hne) as [H1 H2].
  assert (Hs : strip (join [SP] ws) = join [SP] ws)
    by now apply StripFacts.strip_fixed.
  assert (Hn : join [SP] ws <> [])
    by (intros E; rewrite E in H1; discriminate).
  split; [exact Hs|]. split; [exact Hn|]. split.
  - intros H. apply in_whitespace_issue in H. apply orb_true_iff in H.
    destruct H as [H|H].
    + apply CleanFacts.triple_space in H.
      now rewrite TextFacts.join_no_double_space in H.
    + apply CleanFacts.triple_newline in H.
      now rewrite TextFacts.join_no_newline in H.
  - intros H. apply in_empty_issue in H. congruence.
Qed.

End WindowQuality.

(** X18: the chunker and the quality check together: with
    [0 <= chunk_overlap < chunk_size], no chunk of a section of more than
    [chunk_size] words is reported for excessive whitespace or for empty
    text by [validate_content_quality]; the text of such a chunk is not
    empty and has no space at either end. *)
Theorem windowed_chunks_whitespace_clean (cfg : Config) (fuel : nat)
    (t : str) (hs : list str) (u ttl : str) (m : option str)
    (chunks : list SectionChunk) :
  (0 <= chunk_overlap cfg < chunk_size cfg)%Z ->
  (chunk_size cfg < Z.of_nat (length (split t)))%Z ->
  _chunk_section cfg fuel t hs u ttl m = Some chunks ->
  Forall (fun c =>
            strip (sc_text c) = sc_text c
            /\ sc_text c <> []
            /\ ~ In ExcessiveWhitespace (quality_issues (sc_text c))
            /\ ~ In EmptyText (quality_issues (sc_text c))) chunks.
Proof.
  intros Hcfg Hlong H. unfold _chunk_section in H.
  destruct (Z.leb_spec (Z.of_nat (length (split t))) (chunk_size cfg));
    [lia|].
  pose proof (TextFacts.window_loop_texts _ _ _ _ _ _ _ _ _ H) as Htexts.
  destruct (WindowFacts.loop_facts cfg Hcfg (split t) (split_words_ok t)
              fuel hs u ttl m 0 chunks ltac:(lia) H) as (_ & Hlen & _).
  rewrite Forall_forall in *. intros c Hc.
  destruct (Htexts c Hc) as [s Hs]. specialize (Hlen c Hc).
  assert (Hw : Forall word_ok (window cfg (split t) s))
    by (apply TextFacts.py_slice_Forall, split_words_ok).
  rewrite Hs in Hlen |- *.
  rewrite (OverlapFacts.split_join_words _ Hw) in Hlen.
  apply WindowQuality.joined_words_quality; [exact Hw|].
  intros E. rewrite E in Hlen. simpl in Hlen. lia.
Qed.

Lemma windowed_chunks_whitespace_clean_witness :
  Forall (fun c => strip (sc_text c) = sc_text c /\ sc_text c <> [])
         (chunks_of (_chunk_section cfg_3_2 9 (lit "a b c d") [] [] [] None)).
Proof.
  eapply Forall_impl;
    [|refine (windowed_chunks_whitespace_clean cfg_3_2 9 (lit "a b c d")
                [] [] [] None _ _ _ eq_refl); simpl; lia].
  intros c H. split; [exact (proj1 H) | exact (proj1 (proj2 H))].
Defined.

Module BlankFacts.

Lemma split_on_Forall (P : ascii -> Prop) (sep : ascii) (s : str) :
  Forall P s -> Forall (Forall P) (split_on sep s).
Proof.
  induction 1 as [|c s Hc Hs IH]; [repeat constructor|].
  simpl. destruct (Ascii.eqb c sep); [now repeat constructor|].
  destruct (split_on sep s) as [|l ls]; [repeat constructor; assumption|].
  inversion IH; subst. constructor; [now constructor | assumption].
Qed.

(** A line of space characters is no heading line. *)
Lemma heading_match_space (l : str) : all_space l -> heading_match l = None.
Proof.
  intros H. unfold heading_match. destruct l as [|c l]; [reflexivity|].
  apply Forall_inv in H. cbn [span].
  destruct (Ascii.eqb_spec HASH c) as [<-|_]; [discriminate|]. reflexivity.
Qed.

(** A text without heading lines is one section, the text itself. *)
Lemma no_heading_one_section (t : str) :
  Forall (fun l => heading_match l = None) (split_on NL t) ->
  exists s, _split_by_headings t = [s] /\ text s = t.
Proof.
  intros H.
  assert (H1 : length (_split_by_headings t) = 1).
  { apply ScanFacts.one_section.
    destruct (split_on NL t); [constructor|]. now inversion H. }
  pose proof (SplitFacts.save_section_lines (split_on NL t)) as Hrt.
  fold (_split_by_headings t) in Hrt. rewrite join_split_on in Hrt.
  destruct (_split_by_headings t) as [|s [|s2 r]]; try discriminate.
  exists s. now split.
Qed.

End BlankFacts.

(** X19: a document whose content has only space characters (the empty
    content too) comes back, for a [chunk_size] that is not negative, as
    exactly one chunk whose text is the content, and
    [validate_content_quality] reports that chunk as empty text. *)
Theorem blank_document_chunk (cfg : Config) (fuel : nat) (d : Document) :
  (0 <= chunk_size cfg)%Z ->
  all_space (content d) ->
  exists c,
    chunk_document cfg fuel d = Some [c]
    /\ c_text c = content d
    /\ heading_hierarchy c = title d
    /\ In EmptyText (quality_issues (c_text c)).
Proof.
  intros Hsize Hblank.
  destruct (BlankFacts.no_heading_one_section (content d)) as [s [Hs Ht]].
  { eapply Forall_impl; [|apply BlankFacts.split_on_Forall, Hblank].
    apply BlankFacts.heading_match_space. }
  assert (Hh : headings s = []).
  { pose proof (StackFacts.scan_sections_headings
                  (split_on NL (content d)) s) as Hp.
    fold (_split_by_headings (content d)) in Hp. rewrite Hs in Hp.
    destruct (Hp (or_introl eq_refl)) as (p & q & Epq & ->).
    assert (Hnone : Forall (fun l => heading_match l = None) p).
    { assert (Hall : Forall (fun l => heading_match l = None)
                            (split_on NL (content d))).
      { eapply Forall_impl; [|apply BlankFacts.split_on_Forall, Hblank].
        apply BlankFacts.heading_match_space. }
      rewrite Epq in Hall. now apply Forall_app in Hall. }
    unfold scan. rewrite (ScanFacts.fold_scan_no_heading p _ Hnone).
    reflexivity. }
  unfold chunk_document. rewrite Hs.
  rewrite (LoopFacts.chunk_sections_small cfg fuel [s]).
  - eexists. split; [reflexivity|]. cbn [map add_indices length seq combine
                                          c_text sc_text mk_chunk
                                          heading_hierarchy
                                          sc_heading_hierarchy].
    rewrite Ht, Hh. split; [reflexivity|]. split; [reflexivity|].
    unfold quality_issues.
    rewrite (proj2 (StripFacts.strip_nil_iff (content d)) Hblank).
    apply in_or_app. right. apply in_or_app. right. apply in_or_app. right.
    now left.
  - repeat constructor. rewrite Ht.
    rewrite (StripFacts.split_all_space _ Hblank). simpl. lia.
Qed.

Lemma blank_document_chunk_witness :
  exists c,
    chunk_document default_config 0 doc_empty = Some [c]
    /\ c_text c = []
    /\ In EmptyText (quality_issues (c_text c)).
Proof.
  destruct (blank_document_chunk default_config 0 doc_empty)
    as [c [H1 [H2 [_ H3]]]]; [simpl; lia | constructor |].
  exists c. split; [exact H1|]. split; [exact H2 | exact H3].
Defined.

(* ================================================================== *)
(** ** The cleaning of the page text *)

Import Crawler.

Module CrawlFacts.

Lemma split_on_no_sep (sep : ascii) (s : str) :
  Forall (fun l => ~ In sep l) (split_on sep s).
Proof.
  induction s as [|c s IH]; [repeat constructor; auto|].
  simpl. destruct (Ascii.eqb_spec c sep) as [->|Hne].
  - constructor; [auto | exact IH].
  - destruct (split_on sep s) as [|l ls]; [repeat constructor; simpl; tauto|].
    inversion IH; subst. constructor; [|assumption].
    simpl. intros [E|E]; [congruence | contradiction].
Qed.

Lemma split_on_line (sep : ascii) (l : str) :
  ~ In sep l -> split_on sep l = [l].
Proof.
  induction l as [|c l IH]; [reflexivity|]. intros H. simpl in *.
  destruct (Ascii.eqb_spec c sep) as [->|_]; [tauto|].
  rewrite IH by tauto. reflexivity.
Qed.

Lemma split_on_app (sep : ascii) (l r : str) :
  ~ In sep l -> split_on sep (l ++ sep :: r) = l :: split_on sep r.
Proof.
  induction l as [|c l IH]; intros H.
  - simpl. now rewrite Ascii.eqb_refl.
  - simpl in *. destruct (Ascii.eqb_spec c sep) as [->|_]; [tauto|].
    rewrite IH by tauto. reflexivity.
Qed.

(** Splitting at newlines gives back lines that were joined by them. *)
Lemma split_on_join (ls : list str) :
  Forall (fun l => ~ In NL l) ls -> ls <> [] ->
  split_on NL (join [NL] ls) = ls.
Proof.
  induction 1 as [|l ls Hl Hls IH]; [intros H; now elim H|]. intros _.
  destruct ls as [|l2 ls]; [now apply split_on_line|].
  change (join [NL] (l :: l2 :: ls)) with (l ++ NL :: join [NL] (l2 :: ls)).
  rewrite split_on_app by exact Hl. now rewrite IH by discriminate.
Qed.

Lemma strip_in (s : str) (c : ascii) : In c (strip s) -> In c s.
Proof.
  destruct (StripFacts.strip_decomp s) as (pre & post & E & _ & _).
  intros H. rewrite E. apply in_or_app. right. apply in_or_app. now left.
Qed.

Lemma clean_lines_ok (t : str) : Forall clean_line (clean_lines t).
Proof.
  unfold clean_lines. apply Forall_forall. intros l Hl.
  apply filter_In in Hl. destruct Hl as [Hin Hne].
  apply in_map_iff in Hin. destruct Hin as [l0 [<- Hin]].
  split; [|split].
  - intros E. rewrite E in Hne. discriminate.
  - apply StripFacts.strip_idem.
  - intros H. apply strip_in in H.
    pose proof (split_on_no_sep NL t) as Hno. rewrite Forall_forall in Hno.
    now apply (Hno l0 Hin).
Qed.

Lemma clean_line_word (l : str) : clean_line l -> split l <> [].
Proof.
  intros (Hne & Hs & _).
  destruct (StripFacts.strip_ends l) as [E|[H _]].
  - rewrite Hs in E. congruence.
  - rewrite Hs in H. now apply split_starts_word.
Qed.

Lemma filter_clean_lines (ls : list str) :
  Forall clean_line ls ->
  filter (fun l => negb (Nat.eqb (length l) 0)) (map strip ls) = ls.
Proof.
  induction 1 as [|l ls (Hne & Hs & _) _ IH]; [reflexivity|].
  simpl. rewrite Hs, IH. destruct l; [congruence | reflexivity].
Qed.

Lemma flat_map_split_clean (ls : list str) :
  flat_map split
           (filter (fun l => negb (Nat.eqb (length l) 0)) (map strip ls))
  = flat_map split ls.
Proof.
  induction ls as [|l ls IH]; [reflexivity|]. simpl.
  rewrite <- IH, <- (StripFacts.split_strip l).
  destruct (strip l); reflexivity.
Qed.

Lemma split_nil_all_space (s : str) : split s = [] -> all_space s.
Proof.
  induction s as [|c s IH]; [constructor|]. simpl.
  destruct (isspace c) eqn:Hc.
  - intros H. constructor; [exact Hc | now apply IH].
  - destruct (starts_word s); [destruct (split s)|]; discriminate.
Qed.

End CrawlFacts.

(** X20: the text that [_extract_main_content] returns has no blank line
    and no space at either end of a line: when it is not empty, each of its
    lines is not empty and is its own [strip]. *)
Theorem extracted_lines_clean (t : str) :
  _extract_main_content (Some t) <> [] ->
  split_on NL (_extract_main_content (Some t)) = clean_lines t
  /\ Forall (fun l => l <> [] /\ strip l = l)
            (split_on NL (_extract_main_content (Some t))).
Proof.
  cbn [_extract_main_content]. unfold clean_text. intros Hne.
  pose proof (CrawlFacts.clean_lines_ok t) as Hok.
  assert (E : split_on NL (join [NL] (clean_lines t)) = clean_lines t).
  { apply CrawlFacts.split_on_join.
    - eapply Forall_impl; [|exact Hok]. now intros l (_ & _ & H).
    - intros E. now rewrite E in Hne. }
  split; [exact E|]. rewrite E.
  eapply Forall_impl; [|exact Hok]. now intros l (H1 & H2 & _).
Qed.

Lemma extracted_lines_clean_witness :
  split_on NL (_extract_main_content
                 (Some (lit "  Title " ++ [NL; NL] ++ lit " some text")))
  = [lit "Title"; lit "some text"].
Proof.
  refine (eq_trans (proj1 (extracted_lines_clean
                             (lit "  Title " ++ [NL; NL] ++ lit " some text")
                             _)) _);
    [discriminate | reflexivity].
Defined.

(** X21: the cleaning in [_extract_main_content] keeps the words of the
    page text, in order, and returns the empty string exactly for a text
    without any word (or a page without content element), the case in which
    [extract_page_content] gives up the page. *)
Theorem extracted_words_kept (t : str) :
  split (_extract_main_content (Some t)) = split t
  /\ (_extract_main_content (Some t) = [] <-> split t = [])
  /\ _extract_main_content None = [].
Proof.
  cbn [_extract_main_content]. unfold clean_text, clean_lines.
  assert (E : split (join [NL]
                 (filter (fun l => negb (Nat.eqb (length l) 0))
                         (map strip (split_on NL t)))) = split t).
  { rewrite (split_join NL) by reflexivity.
    rewrite CrawlFacts.flat_map_split_clean.
    rewrite <- (split_join NL) by reflexivity.
    now rewrite join_split_on. }
  split; [exact E|]. split; [|reflexivity]. split.
  - intros H. now rewrite H in E.
  - intros H. apply CrawlFacts.split_nil_all_space in H.
    pose proof (BlankFacts.split_on_Forall _ NL t H) as Hl.
    replace (filter _ _) with (@nil str); [reflexivity|].
    symmetry. clear E. induction Hl as [|l ls Hl _ IH]; [reflexivity|].
    simpl. rewrite (proj2 (StripFacts.strip_nil_iff l) Hl). exact IH.
Qed.

(** X22: cleaning a cleaned text changes nothing. *)
Theorem extract_idempotent (t : str) :
  _extract_main_content (Some (_extract_main_content (Some t)))
  = _extract_main_content (Some t).
Proof.
  cbn [_extract_main_content]. unfold clean_text at 1 3.
  f_equal. pose proof (CrawlFacts.clean_lines_ok t) as Hok.
  destruct (clean_lines t) as [|l ls] eqn:E.
  - unfold clean_text. rewrite E. reflexivity.
  - unfold clean_lines at 1. unfold clean_text. rewrite E.
    rewrite CrawlFacts.split_on_join.
    + now apply CrawlFacts.filter_clean_lines.
    + eapply Forall_impl; [|exact Hok]. now intros x (_ & _ & H).
    + discriminate.
Qed.

(* ================================================================== *)
(** ** From the crawler to the chunker *)

Module CrawlChunk.

(** The sections are the lines, cut into groups that are not empty. *)
Lemma sections_groups (ls : list str) :
  exists gs : list (list str),
    Forall (fun g => g <> []) gs
    /\ map text (save_section (scan ls)) = map (join [NL]) gs
    /\ concat gs = ls.
Proof.
  destruct (SplitFacts.scan_groups ls) as (gs & Hne & Htext & Hcat).
  unfold save_section. destruct (cur_text (scan ls)) as [|c cs] eqn:E.
  - exists gs. rewrite app_nil_r in Hcat. now repeat split.
  - exists (gs ++ [c :: cs]). split; [|split].
    + apply Forall_app. split; [exact Hne|]. now repeat constructor.
    + rewrite !map_app, Htext. reflexivity.
    + rewrite concat_app. simpl. now rewrite app_nil_r.
Qed.

(** Every section of a text of clean lines has a word. *)
Lemma sections_have_words (ls : list str) (s : Section) :
  Forall clean_line ls ->
  In s (save_section (scan ls)) -> split (text s) <> [].
Proof.
  intros Hok Hs.
  destruct (sections_groups ls) as (gs & Hne & Htext & Hcat).
  apply (in_map text) in Hs. rewrite Htext in Hs.
  apply in_map_iff in Hs. destruct Hs as [g [<- Hg]].
  rewrite (split_join NL) by reflexivity.
  rewrite Forall_forall in Hne. specialize (Hne g Hg).
  destruct g as [|l g]; [congruence|].
  assert (Hl : clean_line l).
  { rewrite Forall_forall in Hok. apply Hok. rewrite <- Hcat.
    apply in_concat. exists (l :: g). split; [exact Hg | now left]. }
  apply CrawlFacts.clean_line_word in Hl. simpl.
  destruct (split l); [congruence | discriminate].
Qed.

Lemma extracted_lines (t : str) :
  clean_text t <> [] -> split_on NL (clean_text t) = clean_lines t.
Proof.
  unfold clean_text. intros Hne. apply CrawlFacts.split_on_join.
  - eapply Forall_impl; [|exact (CrawlFacts.clean_lines_ok t)].
    now intros l (_ & _ & Hl).
  - intros E. now rewrite E in Hne.
Qed.

Section WithConfig.

Variable cfg : Config.
Hypothesis Hcfg : (0 <= chunk_overlap cfg < chunk_size cfg)%Z.

Lemma chunk_section_words (fuel : nat) (t : str) (hs : list str)
    (u ttl : str) (m : option str) (r : list SectionChunk) :
  split t <> [] ->
  _chunk_section cfg fuel t hs u ttl m = Some r ->
  Forall (fun c => split (sc_text c) <> []) r.
Proof.
  intros Ht. unfold _chunk_section.
  destruct (Z.leb_spec (Z.of_nat (length (split t))) (chunk_size cfg)).
  - intros [= <-]. now repeat constructor.
  - intros Hloop.
    destruct (WindowFacts.loop_facts cfg Hcfg (split t) (split_words_ok t)
                fuel hs u ttl m 0 r ltac:(lia) Hloop) as (_ & Hlen & _).
    eapply Forall_impl; [|exact Hlen]. intros c Hc E.
    cbv beta in Hc. rewrite E in Hc. simpl in Hc. lia.
Qed.

Lemma chunk_sections_words (fuel : nat) (secs : list Section)
    (u ttl : str) (m : option str) (r : list SectionChunk) :
  Forall (fun s => split (text s) <> []) secs ->
  chunk_sections cfg fuel secs u ttl m = Some r ->
  Forall (fun c => split (sc_text c) <> []) r.
Proof.
  intros Hsecs. revert r.
  induction Hsecs as [|s secs Hs _ IH]; intros r.
  - intros [= <-]. constructor.
  - simpl. destruct (_chunk_section cfg fuel _ _ u ttl m) as [cs|] eqn:E;
      [|discriminate].
    destruct (chunk_sections cfg fuel secs u ttl m) as [r'|]; [|discriminate].
    intros [= <-]. apply Forall_app. split.
    + now apply (chunk_section_words _ _ _ _ _ _ _ Hs E).
    + now apply IH.
Qed.

End WithConfig.

End CrawlChunk.

(** X23: from the crawler to the validator: with
    [0 <= chunk_overlap < chunk_size], every chunk of a document whose
    content is a text returned by [_extract_main_content] and is not empty
    (the crawler drops the pages with empty content) has at least one word,
    so [validate_content_quality] never reports it as empty text. *)
Theorem crawled_chunks_have_words (cfg : Config) (fuel : nat) (t : str)
    (d : Document) (chunks : list Chunk) :
  (0 <= chunk_overlap cfg < chunk_size cfg)%Z ->
  content d = _extract_main_content (Some t) ->
  content d <> [] ->
  chunk_document cfg fuel d = Some chunks ->
  Forall (fun c => split (c_text c) <> []
                   /\ ~ In EmptyText (quality_issues (c_text c))) chunks.
Proof.
  intros Hcfg Hc Hne. unfold chunk_document.
  destruct (chunk_sections cfg fuel _ _ _ _) as [cs|] eqn:E; [|discriminate].
  intros [= <-].
  assert (Hlines : Forall clean_line (split_on NL (content d))).
  { rewrite Hc in Hne |- *. cbn [_extract_main_content] in *.
    rewrite (CrawlChunk.extracted_lines t Hne).
    apply CrawlFacts.clean_lines_ok. }
  assert (Hsecs : Forall (fun s => split (text s) <> [])
                         (_split_by_headings (content d))).
  { apply Forall_forall. intros s Hs.
    now apply (CrawlChunk.sections_have_words _ s Hlines). }
  pose proof (CrawlChunk.chunk_sections_words cfg Hcfg _ _ _ _ _ _ Hsecs E)
    as Hw.
  rewrite Forall_forall in *. intros c Hin.
  destruct (CarryFacts.add_indices_in _ _ _ Hin) as (sc & Hsc & -> & _).
  specialize (Hw sc Hsc). split; [exact Hw|].
  intros He. apply WindowQuality.in_empty_issue in He.
  apply StripFacts.strip_nil_iff, StripFacts.split_all_space in He.
  contradiction.
Qed.

Lemma crawled_chunks_have_words_witness :
  Forall (fun c => split (c_text c) <> [])
         (chunks_of (chunk_document default_config 1 doc_crawled)).
Proof.
  eapply Forall_impl;
    [|refine (crawled_chunks_have_words default_config 1
                (lit "  Title " ++ [NL; NL] ++ lit " some text")
                doc_crawled _ _ eq_refl _ eq_refl);
      [simpl; lia | discriminate]].
  intros c H. exact (proj1 H).
Defined.

(* ================================================================== *)
(** ** Full windows, and chunks that come back from the store *)

(** X24: with [0 <= chunk_overlap < chunk_size], when a chunk of a long
    section is a full window (it ends at or before the last word of the
    section), the last [chunk_overlap] words of the chunk are the first
    [chunk_overlap] words of the next chunk. *)
Theorem full_window_overlap_kept (cfg : Config) (fuel : nat) (t : str)
    (hs : list str) (u ttl : str) (m : option str)
    (chunks : list SectionChunk) (i : nat) (c1 c2 : SectionChunk) :
  (0 <= chunk_overlap cfg < chunk_size cfg)%Z ->
  (chunk_size cfg < Z.of_nat (length (split t)))%Z ->
  _chunk_section cfg fuel t hs u ttl m = Some chunks ->
  nth_error chunks i = Some c1 ->
  nth_error chunks (S i) = Some c2 ->
  (Z.of_nat i * (chunk_size cfg - chunk_overlap cfg) + chunk_size cfg
   <= Z.of_nat (length (split t)))%Z ->
  last_n (Z.to_nat (chunk_overlap cfg)) (split (sc_text c1))
  = first_n (Z.to_nat (chunk_overlap cfg)) (split (sc_text c2)).
Proof.
  intros Hcfg Hlong H H1 H2 Hfull. unfold _chunk_section in H.
  destruct (Z.leb_spec (Z.of_nat (length (split t))) (chunk_size cfg));
    [lia|].
  rewrite (OverlapFacts.window_loop_nth _ _ _ _ _ _ _ _ _ _ _ H H1).
  rewrite (OverlapFacts.window_loop_nth _ _ _ _ _ _ _ _ _ _ _ H H2).
  rewrite !OverlapFacts.split_join_words
    by (apply TextFacts.py_slice_Forall, split_words_ok).
  rewrite !Z.add_0_l.
  replace (Z.of_nat (S i) * (chunk_size cfg - chunk_overlap cfg))%Z
    with (Z.of_nat i * (chunk_size cfg - chunk_overlap cfg)
          + (chunk_size cfg - chunk_overlap cfg))%Z by lia.
  apply OverlapFacts.full_window_overlap; [exact Hcfg | nia | exact Hfull].
Qed.

Lemma full_window_overlap_kept_witness :
  last_n 2 (split (lit "a b c")) = first_n 2 (split (lit "b c d")).
Proof.
  refine (full_window_overlap_kept cfg_3_2 9 (lit "a b c d") [] [] [] None
            (chunks_of (_chunk_section cfg_3_2 9 (lit "a b c d")
                          [] [] [] None))
            0 (mk_chunk (lit "a b c") [] [] [] None)
            (mk_chunk (lit "b c d") [] [] [] None)
            _ _ eq_refl eq_refl eq_refl _); simpl; lia.
Defined.

Import Retrieve Formatting.

Module StoredFacts.

(** What [chunk_document] guarantees on each of its chunks. *)
Lemma chunk_fields (cfg : Config) (fuel : nat) (d : Document)
    (chunks : list Chunk) (c : Chunk) :
  chunk_document cfg fuel d = Some chunks ->
  In c chunks ->
  Chunker.chunk_index c < Chunker.total_chunks c
  /\ Chunker.chunk_id c <> []
  /\ c_url c = Chunker.url d
  /\ c_title c = Chunker.title d.
Proof.
  intros H Hc. unfold chunk_document in H.
  destruct (chunk_sections cfg fuel _ _ _ _) as [cs|] eqn:E; [|discriminate].
  injection H as <-.
  pose proof (LoopFacts.add_indices_forall (Chunker.url d) cs) as Hall.
  pose proof (LoopFacts.add_indices_index (Chunker.url d) cs) as Hidx.
  rewrite Forall_forall in Hall. destruct (Hall c Hc) as [Ht Hid].
  split; [|split].
  - assert (Hin : In (Chunker.chunk_index c) (seq 0 (length cs)))
      by (rewrite <- Hidx; now apply in_map).
    apply in_seq in Hin. lia.
  - rewrite Hid. intros E0. apply app_eq_nil in E0. destruct E0 as [_ E0].
    discriminate.
  - apply CarryFacts.chunk_sections_carries in E.
    rewrite Forall_forall in E.
    destruct (CarryFacts.add_indices_in _ _ _ Hc)
      as (sc & Hsc & _ & -> & -> & _).
    destruct (E sc Hsc) as (s & _ & Hu & Ht' & _). now split.
Qed.

Lemma present_nonempty_some (t : str) :
  present_nonempty (Some (PStr t)) = true <-> t <> [].
Proof. destruct t; simpl; split; congruence. Qed.

(** The record built from a stored chunk has the types of the data
    model. *)
Lemma result_of_typed (s : number) (c : Chunk) :
  well_typed (result_of s c) = true.
Proof. reflexivity. Qed.

Lemma url_issues_kind (r : Result) (found : list Issue) :
  url_issues r = Ok found ->
  forall x, In x found -> exists u, x = InvalidURLFormat u.
Proof.
  unfold url_issues.
  destruct (get_default (Retrieve.url r) (PStr [])) as [|u|z|f].
  - intros [= <-] x [].
  - destruct (_ && _); intros [= <-] x; [|intros []].
    intros [<-|[]]. now exists u.
  - destruct (truthy _); [discriminate|]. intros [= <-] x [].
  - destruct (truthy _); [discriminate|]. intros [= <-] x [].
Qed.

Lemma score_issues_kind (r : Result) (found : list Issue) :
  score_issues r = Ok found ->
  forall x, In x found -> exists v, x = ScoreOutOfRange v.
Proof.
  unfold score_issues. destruct (as_number (score_of r)); [|discriminate].
  destruct (_ && _); intros [= <-] x; [intros []|].
  intros [<-|[]]. now eexists.
Qed.

End StoredFacts.

(** X25: the chunker and [validate_metadata] together: the record that
    [retrieve_chunks] builds from the stored payload of a chunk of
    [chunk_document] never gets the issue of an invalid chunk index nor of
    a missing chunk_id, and no check raises on it; it passes
    [validate_metadata] exactly when text and title are not empty, the url
    is not empty and starts with [http://] or [https://], and the score is
    in [0, 1]. *)
Theorem stored_chunk_metadata (cfg : Config) (fuel : nat) (d : Document)
    (chunks : list Chunk) (c : Chunk) (s : number) :
  chunk_document cfg fuel d = Some chunks ->
  In c chunks ->
  index_issues (result_of s c) = Ok []
  /\ (exists found,
        Retrieve.chunk_issues (result_of s c) = Ok found
        /\ ~ In (MissingOrEmpty (lit "chunk_id")) found)
  /\ (Retrieve.chunk_issues (result_of s c) = Ok []
      <-> c_text c <> [] /\ Chunker.title d <> [] /\ Chunker.url d <> []
          /\ (startswith (lit "http://") (Chunker.url d)
              || startswith (lit "https://") (Chunker.url d)) = true
          /\ (num_le (Finite 0) s && num_le s (Finite 1)) = true).
Proof.
  intros H Hc.
  destruct (StoredFacts.chunk_fields cfg fuel d chunks c H Hc)
    as (Hidx & Hid & Hu & Ht).
  assert (Hi : index_in_range (result_of s c) = true).
  { unfold index_in_range, result_of.
    cbn [Retrieve.chunk_index Retrieve.total_chunks].
    apply andb_true_iff. split; [apply Z.leb_le | apply Z.ltb_lt]; lia. }
  assert (Ei : index_issues (result_of s c) = Ok []).
  { destruct (ValidateFacts.index_issues_typed (result_of s c)
                eq_refl eq_refl) as (found & E & Hnil).
    rewrite E. f_equal. now apply Hnil. }
  split; [exact Ei|]. split.
  - destruct (ValidateFacts.url_issues_typed (result_of s c) eq_refl)
      as (u & Eu & _).
    destruct (ValidateFacts.score_issues_typed (result_of s c) eq_refl)
      as (sc & Es & _).
    unfold Retrieve.chunk_issues. rewrite Eu, Ei, Es. cbn [bind].
    eexists. split; [reflexivity|]. intros Hin.
    apply in_app_or in Hin. destruct Hin as [Hin|Hin].
    + unfold required_issues, result_of in Hin.
      cbn [flat_map fst snd Retrieve.text Retrieve.url Retrieve.title
           Retrieve.chunk_id get] in Hin.
      assert (Htr : truthy (PStr (Chunker.chunk_id c)) = true)
        by (destruct (Chunker.chunk_id c); [congruence | reflexivity]).
      rewrite Htr in Hin.
      repeat (apply in_app_or in Hin; destruct Hin as [Hin|Hin]);
        try (destruct (truthy _); simpl in Hin;
             intuition discriminate).
    + apply in_app_or in Hin. destruct Hin as [Hin|Hin].
      * destruct (StoredFacts.url_issues_kind _ _ Eu _ Hin). discriminate.
      * cbn [app] in Hin.
        destruct (StoredFacts.score_issues_kind _ _ Es _ Hin). discriminate.
  - destruct (ValidateFacts.chunk_issues_typed (result_of s c) eq_refl)
      as (found & E & Hnil).
    rewrite E.
    assert (Hok : Ok found = Ok [] <-> found = [])
      by (split; [now intros [= ->] | now intros ->]).
    rewrite Hok, Hnil.
    unfold spec_well_formed, others_ok. rewrite Hi, andb_true_r.
    unfold url_scheme_ok, score_in_range, score_of, result_of.
    cbn [Retrieve.text Retrieve.url Retrieve.title Retrieve.chunk_id
         Retrieve.score get_default as_number].
    rewrite Hu, Ht. rewrite !andb_true_iff.
    rewrite !StoredFacts.present_nonempty_some.
    destruct (Chunker.url d) as [|a u0].
    + cbn [length Nat.eqb]. intuition congruence.
    + cbn [length Nat.eqb]. intuition congruence.
Qed.

Lemma stored_chunk_metadata_witness :
  Forall (fun c => index_issues (result_of (Finite (1 # 2)) c) = Ok [])
         (chunks_of (chunk_document default_config 1 doc_nested)).
Proof.
  apply Forall_forall. intros c Hc.
  exact (proj1 (stored_chunk_metadata default_config 1 doc_nested
                  (chunks_of (chunk_document default_config 1 doc_nested))
                  c (Finite (1 # 2)) eq_refl Hc)).
Defined.

Lemma text_preview_bounds_witness :
  text_preview (repeat "a"%char 101) = repeat "a"%char 100 ++ lit "..."
  /\ length (text_preview (repeat "a"%char 101)) = 103.
Proof.
  apply (proj2 (proj2 (proj2 (text_preview_bounds (repeat "a"%char 101))))).
  simpl. lia.
Defined.
